(** * Gameid quiz server: a shallow embedding of [server/index.js]

    The server keeps a registry of rooms, each with its players, a phase,
    the index of the current question, the deadline of that question and
    the handle of its deadline timer.  Socket handlers mutate one room at
    a time; [setTimeout] callbacks drive the question / results cycle.

    Conventions of the embedding:
    - numbers that the code only ever uses as integers (scores, indices,
      millisecond timestamps) are [Z] or [nat]; a score is a JavaScript
      number, so what the code adds to or subtracts from a score is
      rounded as a double is ([js_add], [js_sub]); identifiers, names
      and room codes are ASCII strings;
    - [answerIndex], [powerIndex] and [bestIndex], which the code
      compares with [===] or uses as property keys without checking their
      type, are JavaScript values ([jsval]);
    - [Date.now()] and the results of [Math.random()] are inputs of the
      function that reads them;
    - objects mutated in place (rooms, players, powers) live in the
      registry and are written back after each handler; a player is
      addressed by its position in [room.players], a power by its
      position in [player.powers];
    - the event loop's table of pending timeouts is part of the state,
      and a timeout fires only once it is due. *)

From stdpp Require Import gmap strings list fin_maps sorting.
From Stdlib Require Import ZArith Lia.

(** ** JavaScript values that reach the handlers *)

(** The payload fields [answerIndex] and a question's [bestIndex] are
    compared with [===] and used as property keys, so they are kept as
    JavaScript values: [undefined], an integer number, or a string. *)
Inductive jsval :=
| JUndefined
| JNum (z : Z)
| JStr (s : string).

#[global] Instance jsval_eq_dec : EqDecision jsval.
Proof. solve_decision. Defined.

(** What reading a property of an array of integers yields. [PObject]
    stands for a method or object found on the prototype chain. *)
Inductive jsprop :=
| PUndefined
| PNumber (z : Z)
| PObject.

(** String-keyed members of [Array.prototype] and [Object.prototype]
    (ECMAScript 2023 with Annex B); own property [length] is handled
    apart. *)
Definition prototype_names : list string :=
  [ "constructor"; "at"; "concat"; "copyWithin"; "fill"; "find";
    "findIndex"; "findLast"; "findLastIndex"; "lastIndexOf"; "pop";
    "push"; "reverse"; "shift"; "unshift"; "slice"; "sort"; "splice";
    "includes"; "indexOf"; "join"; "keys"; "entries"; "values";
    "forEach"; "filter"; "flat"; "flatMap"; "map"; "every"; "some";
    "reduce"; "reduceRight"; "toLocaleString"; "toString"; "toReversed";
    "toSorted"; "toSpliced"; "with";
    "__defineGetter__"; "__defineSetter__"; "hasOwnProperty";
    "__lookupGetter__"; "__lookupSetter__"; "isPrototypeOf";
    "propertyIsEnumerable"; "valueOf"; "__proto__" ]%string.

Definition inherited (s : string) : bool :=
  bool_decide (s ∈ prototype_names).

Definition digit_of (a : Ascii.ascii) : option N :=
  let n := Ascii.N_of_ascii a in
  if ((48 <=? n) && (n <=? 57))%N then Some (n - 48)%N else None.

Fixpoint digits_value (acc : N) (s : string) : option N :=
  match s with
  | EmptyString => Some acc
  | String a s' =>
      match digit_of a with
      | Some d => digits_value (10 * acc + d)%N s'
      | None => None
      end
  end.

(** A string is an array index when it is the canonical decimal form of
    a natural number: digits only, no leading zero. *)
Definition array_index_of (s : string) : option nat :=
  match s with
  | EmptyString => None
  | String a EmptyString => N.to_nat <$> digit_of a
  | String a _ =>
      if (Ascii.N_of_ascii a =? 48)%N then None
      else N.to_nat <$> digits_value 0 s
  end.

(** [arr[k]] for an array of integers [arr]. *)
Definition array_get (arr : list Z) (k : jsval) : jsprop :=
  match k with
  | JUndefined => PUndefined
  | JNum z =>
      if (0 <=? z)%Z
      then match arr !! Z.to_nat z with
           | Some v => PNumber v
           | None => PUndefined
           end
      else PUndefined
  | JStr s =>
      match array_index_of s with
      | Some n =>
          match arr !! n with
          | Some v => PNumber v
          | None => PUndefined
          end
      | None =>
          if String.eqb s "length" then PNumber (Z.of_nat (length arr))
          else if inherited s then PObject
          else PUndefined
      end
  end.

(** ** Numbers

    A score is a JavaScript number, an IEEE-754 double, that holds an
    integer.  Every integer of magnitude up to [2^53] is a double;
    beyond, the doubles are the integers with a 53-bit mantissa. *)

(** The double nearest to the integer [z], ties going to the even
    mantissa, for the integers that round to a finite double (see
    [rounds_finite]). *)
Definition round_double (z : Z) : Z :=
  let n := Z.abs z in
  if (n <? 2 ^ 53)%Z then z
  else
    (* n = q * 2^e + r with 2^52 <= q < 2^53 *)
    let e := (Z.log2 n - 52)%Z in
    let q := (n / 2 ^ e)%Z in
    let r := (n mod 2 ^ e)%Z in
    let half := (2 ^ (e - 1))%Z in
    let q' :=
      if (r <? half)%Z then q
      else if (half <? r)%Z then (q + 1)%Z
      else if Z.even q then q else (q + 1)%Z in
    (Z.sgn z * (q' * 2 ^ e))%Z.

(** [a + b] on numbers: adding zero gives the other operand back, and
    any other sum is the exact sum rounded to a double. *)
Definition js_add (a b : Z) : Z :=
  if (b =? 0)%Z then a
  else if (a =? 0)%Z then b
  else round_double (a + b).

(** [a - b] on numbers. *)
Definition js_sub (a b : Z) : Z := js_add a (- b).

(** ** Data model *)

(** An entry of [questions.json]. [optionScores] is [None] when the field
    is missing or is not an array. *)
Record Question := {
  q_id : jsval;
  q_text : string;
  q_options : list string;
  q_optionScores : option (list Z);
  q_bestIndex : jsval
}.

(** The object [getQuestion] builds: [{ ...q, isLast }]. *)
Record QuestionView := {
  qv_q : Question;
  isLast : bool
}.

Inductive PowerType :=
| PLUS | MINUS | SWAP_LOW | SWAP_HIGH | X2_SCORE | STUN | FINAL_X4.

#[global] Instance PowerType_eq_dec : EqDecision PowerType.
Proof. solve_decision. Defined.

Record Power := {
  p_type : PowerType;
  p_used : bool
}.

Record Answer := {
  a_questionIndex : nat;
  a_answerIndex : jsval;
  a_gained : Z
}.

Record Player := {
  playerId : string;
  socketId : string;
  name : string;
  avatarId : string;
  score : Z;
  stunnedUntil : Z;
  answers : list Answer;
  powers : list Power
}.

Inductive Phase := Lobby | QuestionPhase | Results | Ended.

#[global] Instance Phase_eq_dec : EqDecision Phase.
Proof. solve_decision. Defined.

Record Room := {
  code : string;
  hostSocketId : option string;
  state : Phase;
  currentQuestionIndex : nat;
  questionEndsAt : option Z;
  players : list Player;
  timer : option nat
}.

(** ** Timers *)

(** The two callbacks the server ever schedules: the deadline callback of
    [startQuestion] and the inter-round callback of [finalizeQuestion].
    Both close over the room, kept here as its registry key. *)
Inductive Callback := CbFinalize | CbNextRound.

Record Timeout := {
  t_id : nat;
  t_room : string;
  t_due : Z;
  t_cb : Callback
}.

(** The event loop's timer table. *)
Record Sched := {
  pending : list Timeout;
  next_id : nat
}.

Definition setTimeout (room : string) (cb : Callback) (now delay : Z)
    (sc : Sched) : nat * Sched :=
  (next_id sc,
   {| pending := pending sc ++
        [ {| t_id := next_id sc; t_room := room;
             t_due := (now + delay)%Z; t_cb := cb |} ];
      next_id := S (next_id sc) |}).

Definition clearTimeout (h : nat) (sc : Sched) : Sched :=
  {| pending := filter (λ t, t_id t ≠ h) (pending sc);
     next_id := next_id sc |}.

(** ** Field updates (assignments to one field of an object) *)

Definition set_socketId (v : string) (p : Player) : Player :=
  {| playerId := playerId p; socketId := v; name := name p;
     avatarId := avatarId p; score := score p;
     stunnedUntil := stunnedUntil p; answers := answers p;
     powers := powers p |}.

Definition set_score (v : Z) (p : Player) : Player :=
  {| playerId := playerId p; socketId := socketId p; name := name p;
     avatarId := avatarId p; score := v;
     stunnedUntil := stunnedUntil p; answers := answers p;
     powers := powers p |}.

Definition set_stunnedUntil (v : Z) (p : Player) : Player :=
  {| playerId := playerId p; socketId := socketId p; name := name p;
     avatarId := avatarId p; score := score p;
     stunnedUntil := v; answers := answers p; powers := powers p |}.

Definition set_answers (v : list Answer) (p : Player) : Player :=
  {| playerId := playerId p; socketId := socketId p; name := name p;
     avatarId := avatarId p; score := score p;
     stunnedUntil := stunnedUntil p; answers := v; powers := powers p |}.

Definition set_powers (v : list Power) (p : Player) : Player :=
  {| playerId := playerId p; socketId := socketId p; name := name p;
     avatarId := avatarId p; score := score p;
     stunnedUntil := stunnedUntil p; answers := answers p; powers := v |}.

Definition set_used (v : bool) (pw : Power) : Power :=
  {| p_type := p_type pw; p_used := v |}.

Definition set_hostSocketId (v : option string) (r : Room) : Room :=
  {| code := code r; hostSocketId := v; state := state r;
     currentQuestionIndex := currentQuestionIndex r;
     questionEndsAt := questionEndsAt r; players := players r;
     timer := timer r |}.

Definition set_state (v : Phase) (r : Room) : Room :=
  {| code := code r; hostSocketId := hostSocketId r; state := v;
     currentQuestionIndex := currentQuestionIndex r;
     questionEndsAt := questionEndsAt r; players := players r;
     timer := timer r |}.

Definition set_currentQuestionIndex (v : nat) (r : Room) : Room :=
  {| code := code r; hostSocketId := hostSocketId r; state := state r;
     currentQuestionIndex := v;
     questionEndsAt := questionEndsAt r; players := players r;
     timer := timer r |}.

Definition set_questionEndsAt (v : option Z) (r : Room) : Room :=
  {| code := code r; hostSocketId := hostSocketId r; state := state r;
     currentQuestionIndex := currentQuestionIndex r;
     questionEndsAt := v; players := players r; timer := timer r |}.

Definition set_players (v : list Player) (r : Room) : Room :=
  {| code := code r; hostSocketId := hostSocketId r; state := state r;
     currentQuestionIndex := currentQuestionIndex r;
     questionEndsAt := questionEndsAt r; players := v; timer := timer r |}.

Definition set_timer (v : option nat) (r : Room) : Room :=
  {| code := code r; hostSocketId := hostSocketId r; state := state r;
     currentQuestionIndex := currentQuestionIndex r;
     questionEndsAt := questionEndsAt r; players := players r;
     timer := v |}.

(** ** What the server sends *)

Record PlayerView := {
  pv_playerId : string;
  pv_name : string;
  pv_avatarId : string;
  pv_score : Z;
  pv_stunnedUntil : Z
}.

Record RoomView := {
  rv_code : string;
  rv_state : Phase;
  rv_currentQuestionIndex : nat;
  rv_players : list PlayerView
}.

Record LeaderboardEntry := {
  rank : nat;
  lb_playerId : string;
  lb_name : string;
  lb_score : Z
}.

(** Payloads of the events emitted to a room. *)
Inductive Event :=
| RoomUpdate (v : RoomView)
| QuestionStart (questionIndex : nat) (q : QuestionView) (endsAt : Z)
| QuestionResults (questionIndex : nat) (bestIndex : jsval)
    (leaderboard : list LeaderboardEntry)
    (playersPowers : list (string * list Power))
| GameEnded (leaderboard : list LeaderboardEntry)
| PowerUsed (powerType : option PowerType) (actor target : string * string)
    (players : list (string * string * Z * Z)).

(** [io.to(room).emit(event)]: the room addressed and the payload. *)
Definition Emit : Type := string * Event.

(** What the acknowledgement callback [cb] receives. *)
Inductive Ack :=
| AckError (error : string)
| AckRoomCode (roomCode : string)
| AckJoined (roomCode playerId : string)
| AckGained (gained : Z)
| AckOk.

(** ** [Array.prototype.sort] *)

(** The built-in sort is stable and orders by the comparator: [a] comes
    before [b] when [cmp a b < 0], and elements that compare equal keep
    their order.  For a comparator that orders by a key this fixes the
    result (see [js_sort_unique]), which insertion from the right
    computes. *)
Fixpoint sort_insert {A} (cmp : A → A → Z) (x : A) (l : list A) : list A :=
  match l with
  | [] => [x]
  | y :: l' =>
      if (cmp y x <? 0)%Z then y :: sort_insert cmp x l'
      else x :: y :: l'
  end.

Definition js_sort {A} (cmp : A → A → Z) (l : list A) : list A :=
  foldr (sort_insert cmp) [] l.

(** The leaderboard expression shared by [finalizeQuestion] and
    [endGame]: [[...room.players].sort((a, b) => b.score - a.score)
    .map((p, idx) => ({ rank: idx + 1, ... }))]. *)
Definition leaderboard (ps : list Player) : list LeaderboardEntry :=
  imap (λ idx p, {| rank := idx + 1; lb_playerId := playerId p;
                    lb_name := name p; lb_score := score p |})
       (js_sort (λ a b, score b - score a)%Z ps).

Definition sanitizeRoom (room : Room) : RoomView :=
  {| rv_code := code room;
     rv_state := state room;
     rv_currentQuestionIndex := currentQuestionIndex room;
     rv_players :=
       (λ p, {| pv_playerId := playerId p; pv_name := name p;
                pv_avatarId := avatarId p; pv_score := score p;
                pv_stunnedUntil := stunnedUntil p |}) <$> players room |}.

Definition broadcastRoom (room : Room) : list Emit :=
  [ (code room, RoomUpdate (sanitizeRoom room)) ].

(** The value [getEffectiveScore] returns: an integer number of points,
    or something that is not an integer (a prototype method, or the
    [NaN] obtained by multiplying one), which only a string
    [answerIndex] naming such a method can produce. *)
Inductive jsscore :=
| Points (z : Z)
| NotAnInteger.

(** ** The game, for a fixed catalog *)

Section Game.

(** [questions]: the catalog parsed from [data/questions.json] at start-up
    and never changed afterwards. *)
Variable questions : list Question.

Definition getQuestion (index : nat) : option QuestionView :=
  match questions !! index with
  | None => None
  | Some q =>
      Some {| qv_q := q;
              isLast := (Z.of_nat index =? Z.of_nat (length questions) - 1)%Z |}
  end.

Definition getEffectiveScore (q : option QuestionView) (answerIndex : jsval)
    : jsscore :=
  match q with
  | None => Points 0
  | Some q =>
      match q_optionScores (qv_q q) with
      | None => Points 0
      | Some optionScores =>
          (* optionScores[answerIndex] || 0 *)
          let base :=
            match array_get optionScores answerIndex with
            | PUndefined => PNumber 0
            | PNumber v => if (v =? 0)%Z then PNumber 0 else PNumber v
            | PObject => PObject
            end in
          match base with
          | PNumber b => Points (if isLast q then b * 4 else b)%Z
          | _ => NotAnInteger
          end
      end
  end.

(** [roll] is the value of [Math.floor(Math.random() * pool.length)]; it
    is reduced modulo the pool's length, the range of that expression. *)
Definition randomPower (questionIndex : nat) (roll : nat) : PowerType :=
  let isLast :=
    (Z.of_nat questionIndex =? Z.of_nat (length questions) - 1)%Z in
  let pool :=
    [PLUS; MINUS; SWAP_LOW; SWAP_HIGH; X2_SCORE; STUN] ++
    (if isLast then [FINAL_X4] else []) in
  nth (roll mod length pool) pool PLUS.

Definition endGame (room : Room) (sc : Sched) : Room * Sched * list Emit :=
  let room := set_state Ended room in
  let '(room, sc) :=
    match timer room with
    | Some h => (set_timer None room, clearTimeout h sc)
    | None => (room, sc)
    end in
  (room, sc, [ (code room, GameEnded (leaderboard (players room))) ]).

Definition durationMs : Z := 30000.

Definition startQuestion (now : Z) (room : Room) (sc : Sched)
    : Room * Sched * list Emit :=
  let '(room, sc) :=
    match timer room with
    | Some h => (set_timer None room, clearTimeout h sc)
    | None => (room, sc)
    end in
  let qIndex := currentQuestionIndex room in
  match getQuestion qIndex with
  | None => endGame room sc
  | Some q =>
      let room := set_state QuestionPhase room in
      let endsAt := (now + durationMs)%Z in
      let room := set_questionEndsAt (Some endsAt) room in
      let '(h, sc) :=
        setTimeout (code room) CbFinalize now (durationMs + 1000) sc in
      (set_timer (Some h) room, sc,
       [ (code room, QuestionStart qIndex q endsAt) ])
  end.

(** The body of [room.players.forEach] in [finalizeQuestion]; [roll] is
    the random draw made for this player if it is granted a power. *)
Definition grantPower (qIndex : nat) (q : QuestionView) (roll : nat)
    (p : Player) : Player :=
  match list_find (λ a, a_questionIndex a = qIndex) (answers p) with
  | None => p
  | Some (_, ans) =>
      if decide (a_answerIndex ans = q_bestIndex (qv_q q))
      then set_powers (powers p ++
             [ {| p_type := randomPower qIndex roll; p_used := false |} ]) p
      else p
  end.

(** [rolls i] is the draw for the player at position [i]. The handle of
    the inter-round timeout is not kept anywhere. *)
Definition finalizeQuestion (now : Z) (rolls : nat → nat) (room : Room)
    (sc : Sched) : Room * Sched * list Emit :=
  let room := set_timer None room in
  let qIndex := currentQuestionIndex room in
  match getQuestion qIndex with
  | None => (room, sc, [])
  | Some q =>
      let room :=
        set_players
          (imap (λ i p, grantPower qIndex q (rolls i) p) (players room))
          room in
      let room := set_state Results room in
      let playersPowers := (λ p, (playerId p, powers p)) <$> players room in
      let '(_, sc) := setTimeout (code room) CbNextRound now 4000 sc in
      (room, sc,
       [ (code room,
          QuestionResults qIndex (q_bestIndex (qv_q q))
            (leaderboard (players room)) playersPowers) ])
  end.

(** The callback that [finalizeQuestion] schedules. *)
Definition nextRound (now : Z) (room : Room) (sc : Sched)
    : Room * Sched * list Emit :=
  let room := set_currentQuestionIndex (currentQuestionIndex room + 1) room in
  if bool_decide (length questions ≤ currentQuestionIndex room)
  then endGame room sc
  else
    let '(room, sc, out) := startQuestion now room sc in
    (room, sc, out ++ broadcastRoom room).

(** [actor] and [target] are positions in [room.players]; [rnd] is the
    value of [Math.floor(Math.random() * 6000)], reduced modulo 6000, the
    range of that expression. *)
Definition applyPower (rnd : Z) (room : Room) (type : PowerType)
    (actor target : nat) : Room :=
  let players := players room in
  let delta := (1000 + rnd `mod` 6000)%Z in
  match type with
  | PLUS =>
      set_players
        (alter (λ a, set_score (js_add (score a) delta) a) actor players)
        room
  | MINUS =>
      set_players
        (alter (λ t, set_score (Z.max 0 (js_sub (score t) delta)) t) target
           players)
        room
  | SWAP_LOW =>
      if bool_decide (length players = 0) then room
      else
        match head (js_sort (λ a b, score a.2 - score b.2)%Z
                      (imap pair players)), players !! actor with
        | Some (lowest, l), Some a =>
            let tmp := score a in
            set_players
              (alter (set_score tmp) lowest
                 (alter (set_score (score l)) actor players)) room
        | _, _ => room
        end
  | SWAP_HIGH =>
      if bool_decide (length players = 0) then room
      else
        match head (js_sort (λ a b, score b.2 - score a.2)%Z
                      (imap pair players)), players !! actor with
        | Some (highest, h), Some a =>
            let tmp := score a in
            set_players
              (alter (set_score tmp) highest
                 (alter (set_score (score h)) actor players)) room
        | _, _ => room
        end
  | X2_SCORE =>
      set_players (alter (λ a, set_score (score a * 2) a) actor players) room
  | STUN =>
      let qIndex := currentQuestionIndex room in
      set_players
        (alter (set_stunnedUntil (Z.of_nat qIndex + 1)) target players) room
  | FINAL_X4 =>
      let qIndex := currentQuestionIndex room in
      match getQuestion qIndex with
      | Some q =>
          if isLast q
          then set_players
                 (alter (λ a, set_score (score a * 4) a) actor players) room
          else room
      | None => room
      end
  end.

End Game.

(** ** Reading a power *)

(** What reading a property of an array of powers yields: nothing, the
    power at a position, the array's length, or a method or object
    found on the prototype chain. *)
Inductive powerprop :=
| PwUndefined
| PwSlot (k : nat) (pw : Power)
| PwNumber (z : Z)
| PwObject.

(** [arr[k]] for an array of powers [arr]. *)
Definition powers_get (arr : list Power) (k : jsval) : powerprop :=
  match k with
  | JUndefined => PwUndefined
  | JNum z =>
      if (0 <=? z)%Z
      then match arr !! Z.to_nat z with
           | Some pw => PwSlot (Z.to_nat z) pw
           | None => PwUndefined
           end
      else PwUndefined
  | JStr s =>
      match array_index_of s with
      | Some n =>
          match arr !! n with
          | Some pw => PwSlot n pw
          | None => PwUndefined
          end
      | None =>
          if String.eqb s "length" then PwNumber (Z.of_nat (length arr))
          else if inherited s then PwObject
          else PwUndefined
      end
  end.

(** ** The server: registry, timer table, handlers *)

Record Server := {
  rooms : gmap string Room;
  sched : Sched;
  clock : Z
}.

Definition set_rooms (v : gmap string Room) (s : Server) : Server :=
  {| rooms := v; sched := sched s; clock := clock s |}.

Definition set_sched (v : Sched) (s : Server) : Server :=
  {| rooms := rooms s; sched := v; clock := clock s |}.

Definition set_clock (v : Z) (s : Server) : Server :=
  {| rooms := rooms s; sched := sched s; clock := v |}.

(** Writing a mutated room object back, together with the timer table. *)
Definition commit (key : string) (room : Room) (sc : Sched) (s : Server)
    : Server :=
  {| rooms := <[key := room]> (rooms s); sched := sc; clock := clock s |}.

(** What running a handler or a callback produces: the new state, the
    events emitted and the acknowledgement; or [Unmodelled] when a score
    stops being an integer (see [jsscore]). *)
Inductive Outcome :=
| Done (s : Server) (out : list Emit) (ack : option Ack)
| Unmodelled.

Definition upper_ascii (a : Ascii.ascii) : Ascii.ascii :=
  let n := Ascii.N_of_ascii a in
  if ((97 <=? n) && (n <=? 122))%N then Ascii.ascii_of_N (n - 32) else a.

(** [toUpperCase] on the ASCII letters room codes are made of. *)
Fixpoint toUpperCase (s : string) : string :=
  match s with
  | EmptyString => EmptyString
  | String a s' => String (upper_ascii a) (toUpperCase s')
  end.

Section Handlers.

Variable questions : list Question.

(** [createRoom] with the code its generator loop settles on: a code that
    is not in the registry. *)
Definition createRoom (newCode : string) (s : Server) : Room * Server :=
  let room :=
    {| code := newCode; hostSocketId := None; state := Lobby;
       currentQuestionIndex := 0; questionEndsAt := None; players := [];
       timer := None |} in
  (room, set_rooms (<[newCode := room]> (rooms s)) s).

Definition on_createRoom (socket newCode : string) (s : Server) : Outcome :=
  let '(room, s) := createRoom newCode s in
  let room := set_hostSocketId (Some socket) room in
  Done (commit (code room) room (sched s) s)
       (broadcastRoom room) (Some (AckRoomCode (code room))).

Definition on_join (socket roomCode reqName reqAvatarId reqPlayerId : string)
    (s : Server) : Outcome :=
  let key := toUpperCase roomCode in
  match rooms s !! key with
  | None => Done s [] (Some (AckError "Room not found"))
  | Some room =>
      match list_find (λ p, playerId p = reqPlayerId) (players room) with
      | Some (i, player) =>
          let room :=
            set_players (<[i := set_socketId socket player]> (players room))
              room in
          Done (commit key room (sched s) s) (broadcastRoom room)
               (Some (AckJoined (code room) (playerId player)))
      | None =>
          if existsb (λ p, bool_decide (avatarId p = reqAvatarId))
               (players room)
          then Done s [] (Some (AckError "Avatar already taken"))
          else
            let player :=
              {| playerId := reqPlayerId; socketId := socket;
                 name := reqName; avatarId := reqAvatarId;
                 score := 0; stunnedUntil := -1; answers := [];
                 powers := [] |} in
            let room := set_players (players room ++ [player]) room in
            Done (commit key room (sched s) s) (broadcastRoom room)
                 (Some (AckJoined (code room) reqPlayerId))
      end
  end.

Definition on_startGame (now : Z) (roomCode : string) (s : Server)
    : Outcome :=
  match rooms s !! roomCode with
  | None => Done s [] None
  | Some room =>
      let room := set_currentQuestionIndex 0 room in
      let room :=
        set_players
          ((λ p, set_powers [] (set_answers []
                   (set_stunnedUntil (-1) (set_score 0 p))))
             <$> players room) room in
      let '(room, sc, out) := startQuestion questions now room (sched s) in
      Done (commit roomCode room sc s) (out ++ broadcastRoom room) None
  end.

Definition on_submitAnswer (now : Z) (roomCode reqPlayerId : string)
    (answerIndex : jsval) (s : Server) : Outcome :=
  match rooms s !! roomCode with
  | None => Done s [] (Some (AckError "Room not found"))
  | Some room =>
      let expired :=
        match questionEndsAt room with
        | None => true
        | Some endsAt => (endsAt =? 0)%Z || (endsAt <? now)%Z
        end in
      if expired then Done s [] (Some (AckError "Time is up"))
      else
        match list_find (λ p, playerId p = reqPlayerId) (players room) with
        | None => Done s [] (Some (AckError "Player not found"))
        | Some (i, player) =>
            let qIndex := currentQuestionIndex room in
            if (Z.of_nat qIndex <? stunnedUntil player)%Z
            then Done s [] (Some (AckError "You are stunned this question"))
            else if existsb (λ a, bool_decide (a_questionIndex a = qIndex))
                      (answers player)
            then Done s [] (Some (AckError "Already answered"))
            else
              match getQuestion questions qIndex with
              | None => Done s [] (Some (AckError "No question"))
              | Some q =>
                  match getEffectiveScore (Some q) answerIndex with
                  | NotAnInteger => Unmodelled
                  | Points gained =>
                      let player :=
                        set_answers
                          (answers player ++
                             [ {| a_questionIndex := qIndex;
                                  a_answerIndex := answerIndex;
                                  a_gained := gained |} ]) player in
                      let player :=
                        set_score (js_add (score player) gained) player in
                      let room :=
                        set_players (<[i := player]> (players room)) room in
                      Done (commit roomCode room (sched s) s)
                           (broadcastRoom room) (Some (AckGained gained))
                  end
              end
        end
  end.

(** [targetPlayerId] is [None] when the payload has no such field: player
    ids are strings, so the search for a player whose id is [undefined]
    finds nobody and the target is the actor.  [actor.powers[powerIndex]]
    is a plain property read.  When it yields the array's length, a
    number, the guard lets every length but 0 pass; a number has no
    [type], so [applyPower] does nothing, and no [used], and the
    assignment [power.used = true] to it has no effect (the script does
    not run in strict mode).  When it yields
    a member of the prototype chain, that assignment changes an object
    shared by every array of the process, which is not modelled. *)
Definition on_usePower (rnd : Z) (roomCode reqPlayerId : string)
    (targetPlayerId : option string) (powerIndex : jsval) (s : Server)
    : Outcome :=
  match rooms s !! roomCode with
  | None => Done s [] (Some (AckError "Room not found"))
  | Some room =>
      match list_find (λ p, playerId p = reqPlayerId) (players room) with
      | None => Done s [] (Some (AckError "Actor not found"))
      | Some (actor, a) =>
          let target :=
            match targetPlayerId with
            | Some tid =>
                match list_find (λ p, playerId p = tid) (players room) with
                | Some (t, _) => t
                | None => actor
                end
            | None => actor
            end in
          match powers_get (powers a) powerIndex with
          | PwUndefined => Done s [] (Some (AckError "Power not available"))
          | PwObject => Unmodelled
          | PwNumber n =>
              if (n =? 0)%Z
              then Done s [] (Some (AckError "Power not available"))
              else
                let who i :=
                  match players room !! i with
                  | Some p => (playerId p, name p)
                  | None => (playerId a, name a)
                  end in
                Done s
                     ((code room,
                       PowerUsed None (who actor) (who target)
                         ((λ p, (playerId p, name p, score p,
                                 stunnedUntil p)) <$> players room))
                      :: broadcastRoom room)
                     (Some AckOk)
          | PwSlot k power =>
              if p_used power
              then Done s [] (Some (AckError "Power not available"))
              else
                let room :=
                  applyPower questions rnd room (p_type power) actor target in
                (* power.used = true *)
                let room :=
                  set_players
                    (alter (λ p, set_powers
                                   (alter (set_used true) k (powers p)) p)
                       actor (players room)) room in
                let who i :=
                  match players room !! i with
                  | Some p => (playerId p, name p)
                  | None => (playerId a, name a)
                  end in
                Done (commit roomCode room (sched s) s)
                     ((code room,
                       PowerUsed (Some (p_type power)) (who actor) (who target)
                         ((λ p, (playerId p, name p, score p,
                                 stunnedUntil p)) <$> players room))
                      :: broadcastRoom room)
                     (Some AckOk)
          end
      end
  end.

(** A timeout fires: its callback runs on the room it closed over. *)
Definition fire (now : Z) (rolls : nat → nat) (t : Timeout) (s : Server)
    : Outcome :=
  match rooms s !! t_room t with
  | None => Done s [] None
  | Some room =>
      let '(room, sc, out) :=
        match t_cb t with
        | CbFinalize => finalizeQuestion questions now rolls room (sched s)
        | CbNextRound => nextRound questions now room (sched s)
        end in
      Done (commit (t_room t) room sc s) out None
  end.

(** What can happen to the server. *)
Inductive Input :=
| HostCreateRoom (socket newCode : string)
| RoomJoin (socket roomCode reqName reqAvatarId reqPlayerId : string)
| HostStartGame (roomCode : string)
| PlayerSubmitAnswer (roomCode reqPlayerId : string) (answerIndex : jsval)
| PlayerUsePower (rnd : Z) (roomCode reqPlayerId : string)
    (targetPlayerId : option string) (powerIndex : jsval)
| TimerFires (id : nat) (rolls : nat → nat).

(** One turn of the event loop at time [now].  [None]: the input cannot
    occur in this state (time does not go backwards, the room code
    generator only returns unused codes, a timeout fires only while
    pending and not before it is due). *)
Definition step (now : Z) (i : Input) (s : Server) : option Outcome :=
  if (now <? clock s)%Z then None
  else
    let s := set_clock now s in
    match i with
    | HostCreateRoom socket newCode =>
        match rooms s !! newCode with
        | Some _ => None
        | None => Some (on_createRoom socket newCode s)
        end
    | RoomJoin socket roomCode reqName reqAvatarId reqPlayerId =>
        Some (on_join socket roomCode reqName reqAvatarId reqPlayerId s)
    | HostStartGame roomCode => Some (on_startGame now roomCode s)
    | PlayerSubmitAnswer roomCode reqPlayerId answerIndex =>
        Some (on_submitAnswer now roomCode reqPlayerId answerIndex s)
    | PlayerUsePower rnd roomCode reqPlayerId targetPlayerId powerIndex =>
        Some (on_usePower rnd roomCode reqPlayerId targetPlayerId
                powerIndex s)
    | TimerFires id rolls =>
        match list_find (λ t, t_id t = id) (pending (sched s)) with
        | None => None
        | Some (_, t) =>
            if (now <? t_due t)%Z then None
            else Some (fire now rolls t
                         (set_sched (clearTimeout id (sched s)) s))
        end
    end.

(** A run: inputs with the times at which they are processed.  A run is
    followed as long as every step is one the model covers: it ends,
    with no final state, at an input that cannot occur and at a step
    that is [Unmodelled] (a score that stops being an integer, an
    assignment to a built-in object). *)
Fixpoint run (tr : list (Z * Input)) (s : Server) : option Server :=
  match tr with
  | [] => Some s
  | (now, i) :: tr' =>
      match step now i s with
      | Some (Done s' _ _) => run tr' s'
      | _ => None
      end
  end.

Definition init : Server :=
  {| rooms := ∅; sched := {| pending := []; next_id := 0 |}; clock := 0 |}.

Definition reachable (s : Server) : Prop :=
  ∃ tr, run tr init = Some s.

End Handlers.

(** ** Vocabulary of the properties *)

(** The part of a player a leaderboard row shows, and the row without its
    rank. *)
Definition row_of_player (p : Player) : string * string * Z :=
  (playerId p, name p, score p).

Definition row_of_entry (e : LeaderboardEntry) : string * string * Z :=
  (lb_playerId e, lb_name e, lb_score e).

Definition row_score (r : string * string * Z) : Z := r.2.

(** [lb] ranks the players [ps], listed in join order. *)
Definition ranks_players (ps : list Player) (lb : list LeaderboardEntry)
    : Prop :=
  rank <$> lb = seq 1 (length ps) ∧
  row_of_entry <$> lb ≡ₚ row_of_player <$> ps ∧
  StronglySorted (λ r1 r2, row_score r2 ≤ row_score r1)%Z
    (row_of_entry <$> lb) ∧
  ∀ v : Z, filter (λ r, row_score r = v) (row_of_entry <$> lb)
           = filter (λ r, row_score r = v) (row_of_player <$> ps).

(** [room.players.find(p => p.playerId === pid)] returns the player at
    position [i]. *)
Definition finds (room : Room) (pid : string) (i : nat) (p : Player)
    : Prop :=
  list_find (λ p, playerId p = pid) (players room) = Some (i, p).

(** A submission at time [now] passes the deadline check of
    [player:submitAnswer]. *)
Definition in_time (now : Z) (room : Room) : Prop :=
  ∃ e, questionEndsAt room = Some e ∧ e ≠ 0%Z ∧ (now ≤ e)%Z.

(** [a] names no property of the score table [tbl]: it is [undefined], an
    integer outside [0 .. length tbl - 1], or a string that is neither
    an index of the table, nor ["length"], nor the name of an inherited
    member. *)
Definition names_no_option (tbl : list Z) (a : jsval) : Prop :=
  match a with
  | JUndefined => True
  | JNum z => (z < 0 ∨ Z.of_nat (length tbl) ≤ z)%Z
  | JStr str =>
      str ≠ "length" ∧ inherited str = false ∧
      ∀ n, array_index_of str = Some n → length tbl ≤ n
  end.

(** Two players that differ at most in their connection handle. *)
Definition same_but_socket (p p' : Player) : Prop :=
  playerId p' = playerId p ∧ name p' = name p ∧
  avatarId p' = avatarId p ∧ score p' = score p ∧
  stunnedUntil p' = stunnedUntil p ∧ answers p' = answers p ∧
  powers p' = powers p.

(** Two rooms that differ at most in their players. *)
Definition same_but_players (r r' : Room) : Prop :=
  code r' = code r ∧ hostSocketId r' = hostSocketId r ∧
  state r' = state r ∧
  currentQuestionIndex r' = currentQuestionIndex r ∧
  questionEndsAt r' = questionEndsAt r ∧ timer r' = timer r.

(** The position an array key denotes: a non-negative integer, or the
    string that is its canonical decimal form. *)
Definition slot_of (k : jsval) : option nat :=
  match k with
  | JUndefined => None
  | JNum z => if (0 <=? z)%Z then Some (Z.to_nat z) else None
  | JStr str => array_index_of str
  end.


(** [power.used = true] on the power at position [k]. *)
Definition mark_used (k : nat) (p : Player) : Player :=
  set_powers (alter (set_used true) k (powers p)) p.


Definition is_PowerUsed (e : Emit) : bool :=
  match e.2 with
  | PowerUsed _ _ _ _ => true
  | _ => false
  end.

(** The room [host:createRoom] registers. *)
Definition fresh_room (c socket : string) : Room :=
  {| code := c; hostSocketId := Some socket; state := Lobby;
     currentQuestionIndex := 0; questionEndsAt := None; players := [];
     timer := None |}.

(** The ways one turn of the event loop changes a room. *)
Inductive RoomOp :=
| OpJoin | OpStartGame | OpSubmit | OpUsePower | OpFinalize | OpNextRound.

#[global] Instance RoomOp_eq_dec : EqDecision RoomOp.
Proof. solve_decision. Defined.

Inductive room_step (questions : list Question)
    : RoomOp → Room → Room → Prop :=
| RS_rebind room socket i p :
    players room !! i = Some p →
    room_step questions OpJoin room
      (set_players (<[i := set_socketId socket p]> (players room)) room)
| RS_newPlayer room socket nm av pid :
    room_step questions OpJoin room
      (set_players
         (players room ++
            [ {| playerId := pid; socketId := socket; name := nm;
                 avatarId := av; score := 0; stunnedUntil := -1;
                 answers := []; powers := [] |} ]) room)
| RS_startGame room now sc :
    room_step questions OpStartGame room
      (startQuestion questions now
         (set_players
            ((λ p, set_powers [] (set_answers []
                     (set_stunnedUntil (-1) (set_score 0 p))))
               <$> players room)
            (set_currentQuestionIndex 0 room)) sc).1.1
| RS_submit room i p a gained :
    players room !! i = Some p →
    (∀ ans, ans ∈ answers p →
            a_questionIndex ans ≠ currentQuestionIndex room) →
    room_step questions OpSubmit room
      (set_players
         (<[i := set_score (js_add (score p) gained)
                   (set_answers
                      (answers p ++
                         [ {| a_questionIndex := currentQuestionIndex room;
                              a_answerIndex := a; a_gained := gained |} ])
                      p)]> (players room)) room)
| RS_usePower room rnd type actor target k :
    room_step questions OpUsePower room
      (set_players
         (alter (mark_used k) actor
            (players (applyPower questions rnd room type actor target)))
         (applyPower questions rnd room type actor target))
| RS_finalize room now rolls sc :
    room_step questions OpFinalize room
      (finalizeQuestion questions now rolls room sc).1.1
| RS_nextRound room now sc :
    room_step questions OpNextRound room
      (nextRound questions now room sc).1.1.

(** How a power list may change while a game runs: powers stay where
    they are, keep their type, and a used power stays used. *)
Definition powers_grow (l l' : list Power) : Prop :=
  ∀ k pw, l !! k = Some pw →
    ∃ pw', l' !! k = Some pw' ∧ p_type pw' = p_type pw ∧
           (p_used pw = true → p_used pw' = true).

(** How a player record may change in one turn that is not a restart,
    while question [qIndex] is current. *)
Definition player_step (qIndex : nat) (p p' : Player) : Prop :=
  playerId p' = playerId p ∧
  powers_grow (powers p) (powers p') ∧
  (answers p' = answers p ∨
   ∃ a g,
     (∀ ans, ans ∈ answers p → a_questionIndex ans ≠ qIndex) ∧
     answers p' =
       answers p ++ [ {| a_questionIndex := qIndex; a_answerIndex := a;
                         a_gained := g |} ]).

(** The position of the target of [player:usePower]: the player named
    by [targetPlayerId] when there is one, the actor otherwise. *)
Definition resolve_target (room : Room) (targetPlayerId : option string)
    (actor : nat) : nat :=
  match targetPlayerId with
  | Some tid =>
      match list_find (λ p, playerId p = tid) (players room) with
      | Some (t, _) => t
      | None => actor
      end
  | None => actor
  end.

(** ** A catalog and runs used as concrete instances *)

Definition demo_questions : list Question :=
  [ {| q_id := JNum 1; q_text := "Q1"; q_options := ["a"; "b"];
       q_optionScores := Some [100; 500]%Z; q_bestIndex := JNum 1 |};
    {| q_id := JNum 2; q_text := "Q2"; q_options := ["a"; "b"];
       q_optionScores := Some [200; 900]%Z; q_bestIndex := JNum 0 |} ].

Definition demo_player (pid nm av : string) (sc : Z) : Player :=
  {| playerId := pid; socketId := "s"; name := nm; avatarId := av;
     score := sc; stunnedUntil := -1; answers := []; powers := [] |}.

Definition demo_room (ps : list Player) : Room :=
  {| code := "ABCD"; hostSocketId := Some "h"; state := QuestionPhase;
     currentQuestionIndex := 0; questionEndsAt := Some 30000%Z;
     players := ps; timer := None |}.

(** The state a run from [init] ends in, the room "ABCD" in it and that
    room's players. *)
Definition after (tr : list (Z * Input)) : Server :=
  default init (run demo_questions tr init).

Definition room_after (tr : list (Z * Input)) : Room :=
  default (demo_room []) (rooms (after tr) !! "ABCD").

Definition player_after (tr : list (Z * Input)) (i : nat) : Player :=
  default (demo_player "" "" "" 0) (players (room_after tr) !! i).

Definition ack_of (o : option Outcome) : option Ack :=
  match o with
  | Some (Done _ _ ack) => ack
  | _ => None
  end.

Definition state_of (o : option Outcome) : Server :=
  match o with
  | Some (Done s _ _) => s
  | _ => init
  end.

Definition out_of (o : option Outcome) : list Emit :=
  match o with
  | Some (Done _ out _) => out
  | _ => []
  end.

Definition scores_of (s : Server) : list (string * Z) :=
  match rooms s !! "ABCD" with
  | Some room => (λ p, (playerId p, score p)) <$> players room
  | None => []
  end.

(** A room with two players, the game started at time 10: question 0 is
    open until 30010 and its deadline callback is due at 31010. *)
Definition tr_started : list (Z * Input) :=
  [ (0, HostCreateRoom "h" "ABCD");
    (1, RoomJoin "s1" "abcd" "Ann" "A" "p1");
    (2, RoomJoin "s2" "ABCD" "Bob" "B" "p2");
    (10, HostStartGame "ABCD") ]%Z.

(** Ann answers question 0 with the best option. *)
Definition tr_answered : list (Z * Input) :=
  tr_started ++ [ (20, PlayerSubmitAnswer "ABCD" "p1" (JNum 1)) ]%Z.

(** The deadline callback fires; the draw gives Ann the power STUN. *)
Definition tr_results : list (Z * Input) :=
  tr_answered ++ [ (31010%Z, TimerFires 0 (λ _, 5)) ].

(** Ann stuns Bob while question 0 is still the current one. *)
Definition tr_stunned : list (Z * Input) :=
  tr_results ++
  [ (32000%Z, PlayerUsePower 0 "ABCD" "p1" (Some "p2") (JNum 0)) ].

(** The inter-round callback fires: question 1 starts. *)
Definition tr_next : list (Z * Input) :=
  tr_stunned ++ [ (35010%Z, TimerFires 1 (λ _, 0)) ].

(** The host restarts the game while the results of question 0 are
    shown, before the inter-round callback has fired. *)
Definition tr_restarted : list (Z * Input) :=
  tr_started ++
  [ (31010%Z, TimerFires 0 (λ _, 0)); (32000%Z, HostStartGame "ABCD") ].


(** Three players in join order, two of them with equal scores. *)
Definition demo_players : list Player :=
  [ demo_player "p1" "Ann" "A" 100; demo_player "p2" "Bob" "B" 900;
    demo_player "p3" "Cy" "C" 100 ].

Definition demo_q0 : QuestionView :=
  {| qv_q := {| q_id := JNum 1; q_text := "Q1"; q_options := ["a"; "b"];
                q_optionScores := Some [100; 500]%Z; q_bestIndex := JNum 1 |};
     isLast := false |}.



(** The deadline callback fires; the draw gives Ann the power MINUS. *)
Definition tr_minus : list (Z * Input) :=
  tr_answered ++ [ (31010%Z, TimerFires 0 (λ _, 1)) ].

(** Draws for the code generator: pass [n] rolls [n], [n + 1], [n + 2],
    [n + 3], so that pass 0 gives "ABCD" and pass 1 gives "BCDE". *)
Definition demo_draws (n i : nat) : nat := n + i.

(** What a step of the event loop gives on the state after [tr]. *)
Definition step_after (tr : list (Z * Input)) (now : Z) (i : Input)
    : option Outcome :=
  step demo_questions now i (after tr).

(** ** Room codes *)

Definition code_chars : list Ascii.ascii :=
  String.list_ascii_of_string "ABCDEFGHJKLMNPQRSTUVWXYZ23456789".

(** [randomRoomCode]: [rolls i] is the value of
    [Math.floor(Math.random() * chars.length)] in iteration [i] of the
    loop, reduced modulo the length, the range of that expression. *)
Definition randomRoomCode (rolls : nat → nat) : string :=
  String.string_of_list_ascii
    ((λ i, default Ascii.zero
             (code_chars !! (rolls i mod length code_chars)))
       <$> seq 0 4).

(** The loop [do { code = randomRoomCode(); } while (rooms.has(code))] of
    [createRoom]: [draws n] are the rolls of the [n]-th pass.  The loop
    is run for at most [fuel] passes from pass [n]; [None] when all of
    them collide. *)
Fixpoint freshCode (fuel n : nat) (draws : nat → nat → nat)
    (registry : gmap string Room) : option string :=
  match fuel with
  | 0 => None
  | S fuel' =>
      let code := randomRoomCode (draws n) in
      match registry !! code with
      | Some _ => freshCode fuel' (S n) draws registry
      | None => Some code
      end
  end.

(** The handler of [host:createRoom], code generation included. *)
Definition host_createRoom (fuel : nat) (draws : nat → nat → nat)
    (socket : string) (s : Server) : option Outcome :=
  (λ code, on_createRoom socket code s) <$> freshCode fuel 0 draws (rooms s).

(** ** One turn, seen from the room it changes *)

(** [turn questions now sc c i room room' sc']: processing input [i] at
    time [now], with timer table [sc], changes the room registered under
    [c] from [room] to [room'] and leaves the timer table [sc']. *)
Inductive turn (questions : list Question) (now : Z) (sc : Sched)
    (c : string) : Input → Room → Room → Sched → Prop :=
| T_rebind socket roomCode nm av pid room i p :
    toUpperCase roomCode = c →
    finds room pid i p →
    turn questions now sc c (RoomJoin socket roomCode nm av pid) room
      (set_players (<[i := set_socketId socket p]> (players room)) room) sc
| T_newPlayer socket roomCode nm av pid room :
    toUpperCase roomCode = c →
    list_find (λ p, playerId p = pid) (players room) = None →
    (∀ p, p ∈ players room → avatarId p ≠ av) →
    turn questions now sc c (RoomJoin socket roomCode nm av pid) room
      (set_players
         (players room ++
            [ {| playerId := pid; socketId := socket; name := nm;
                 avatarId := av; score := 0; stunnedUntil := -1;
                 answers := []; powers := [] |} ]) room) sc
| T_startGame room :
    turn questions now sc c (HostStartGame c) room
      (startQuestion questions now
         (set_players
            ((λ p, set_powers [] (set_answers []
                     (set_stunnedUntil (-1) (set_score 0 p))))
               <$> players room)
            (set_currentQuestionIndex 0 room)) sc).1.1
      (startQuestion questions now
         (set_players
            ((λ p, set_powers [] (set_answers []
                     (set_stunnedUntil (-1) (set_score 0 p))))
               <$> players room)
            (set_currentQuestionIndex 0 room)) sc).1.2
| T_submit pid a room i p q gained :
    in_time now room →
    finds room pid i p →
    (stunnedUntil p ≤ Z.of_nat (currentQuestionIndex room))%Z →
    (∀ ans, ans ∈ answers p →
            a_questionIndex ans ≠ currentQuestionIndex room) →
    getQuestion questions (currentQuestionIndex room) = Some q →
    getEffectiveScore (Some q) a = Points gained →
    turn questions now sc c (PlayerSubmitAnswer c pid a) room
      (set_players
         (<[i := set_score (js_add (score p) gained)
                   (set_answers
                      (answers p ++
                         [ {| a_questionIndex := currentQuestionIndex room;
                              a_answerIndex := a; a_gained := gained |} ])
                      p)]> (players room)) room) sc
| T_usePower rnd pid tid powerIndex k room actor a power :
    finds room pid actor a →
    powers_get (powers a) powerIndex = PwSlot k power →
    p_used power = false →
    turn questions now sc c (PlayerUsePower rnd c pid tid powerIndex) room
      (set_players
         (alter (mark_used k) actor
            (players (applyPower questions rnd room (p_type power) actor
                        (resolve_target room tid actor))))
         (applyPower questions rnd room (p_type power) actor
            (resolve_target room tid actor))) sc
| T_finalize id rolls j t room :
    list_find (λ t, t_id t = id) (pending sc) = Some (j, t) →
    (t_due t ≤ now)%Z → t_room t = c → t_cb t = CbFinalize →
    turn questions now sc c (TimerFires id rolls) room
      (finalizeQuestion questions now rolls room (clearTimeout id sc)).1.1
      (finalizeQuestion questions now rolls room (clearTimeout id sc)).1.2
| T_nextRound id rolls j t room :
    list_find (λ t, t_id t = id) (pending sc) = Some (j, t) →
    (t_due t ≤ now)%Z → t_room t = c → t_cb t = CbNextRound →
    turn questions now sc c (TimerFires id rolls) room
      (nextRound questions now room (clearTimeout id sc)).1.1
      (nextRound questions now room (clearTimeout id sc)).1.2.

(** ** Invariants of the server state *)

#[global] Instance Callback_eq_dec : EqDecision Callback.
Proof. solve_decision. Defined.

(** The pending deadline callbacks of the room registered under [c]. *)
Definition deadline_timers (s : Server) (c : string) : list Timeout :=
  filter (λ t, t_room t = c ∧ t_cb t = CbFinalize) (pending (sched s)).

(** The pending inter-round callbacks of that room. *)
Definition round_timers (s : Server) (c : string) : list Timeout :=
  filter (λ t, t_room t = c ∧ t_cb t = CbNextRound) (pending (sched s)).

(** Rooms are registered under their code.  Timer handles are distinct
    and below the next handle, and a pending callback closes over a
    registered room.  A pending deadline callback belongs to a room that
    is in the question phase, holds its handle and whose deadline is one
    second before it is due; the handle a room holds is that of a
    pending deadline callback of that room.  A room in the question
    phase has a question and holds a handle; a room showing results has
    a question, a deadline that passed at least one second ago and a
    pending inter-round callback. *)
Definition well_timed (questions : list Question) (s : Server) : Prop :=
  (∀ c room, rooms s !! c = Some room → code room = c) ∧
  (∀ t, t ∈ pending (sched s) → t_id t < next_id (sched s)) ∧
  NoDup (t_id <$> pending (sched s)) ∧
  (∀ t, t ∈ pending (sched s) → is_Some (rooms s !! t_room t)) ∧
  (∀ t room, t ∈ pending (sched s) → t_cb t = CbFinalize →
     rooms s !! t_room t = Some room →
     timer room = Some (t_id t) ∧ state room = QuestionPhase ∧
     questionEndsAt room = Some (t_due t - 1000)%Z) ∧
  (∀ c room h, rooms s !! c = Some room → timer room = Some h →
     ∃ t, t ∈ pending (sched s) ∧ t_id t = h ∧ t_room t = c ∧
          t_cb t = CbFinalize) ∧
  (∀ c room, rooms s !! c = Some room → state room = QuestionPhase →
     currentQuestionIndex room < length questions ∧
     is_Some (timer room)) ∧
  (∀ c room, rooms s !! c = Some room → state room = Results →
     currentQuestionIndex room < length questions ∧
     (∃ e, questionEndsAt room = Some e ∧ (e + 1000 ≤ clock s)%Z) ∧
     ∃ t, t ∈ pending (sched s) ∧ t_room t = c ∧ t_cb t = CbNextRound).

(** The timer table hands out distinct handles, below the next one. *)
Definition table_ok (sc : Sched) : Prop :=
  (∀ t, t ∈ pending sc → t_id t < next_id sc) ∧
  NoDup (t_id <$> pending sc).

(** What identifies a player to the others: id, name and avatar. *)
Definition identity (p : Player) : string * string * string :=
  (playerId p, name p, avatarId p).

(** Two players that differ at most in score and stun watermark. *)
Definition same_but_score_stun (p p' : Player) : Prop :=
  playerId p' = playerId p ∧ socketId p' = socketId p ∧
  name p' = name p ∧ avatarId p' = avatarId p ∧
  answers p' = answers p ∧ powers p' = powers p.

(** The exact result [z] of an addition or subtraction rounds to a finite
    double, not to [Infinity]: its magnitude is below the largest
    double, [2^1024 - 2^971], plus half the spacing of the doubles
    there. *)
Definition rounds_finite (z : Z) : Prop :=
  (Z.abs z < 2 ^ 1024 - 2 ^ 970)%Z.

(** The amount [1000 + Math.floor(Math.random() * 6000)] that PLUS and
    MINUS draw, for the roll [rnd]. *)
Definition power_delta (rnd : Z) : Z := (1000 + rnd `mod` 6000)%Z.

(** All the option scores of the catalog are non-negative. *)
Definition nonneg_catalog (questions : list Question) : Prop :=
  ∀ q tbl v, q ∈ questions → q_optionScores q = Some tbl → v ∈ tbl →
             (0 ≤ v)%Z.

(** [p] has answered question [qIndex] with [best]. *)
Definition answered_best (qIndex : nat) (best : jsval) (p : Player) : Prop :=
  ∃ ans, ans ∈ answers p ∧ a_questionIndex ans = qIndex ∧
         a_answerIndex ans = best.

(** The last event of a turn is a snapshot of [room] sent to its
    members. *)
Definition ends_with_update (out : list Emit) (room : Room) : Prop :=
  last out = Some (code room, RoomUpdate (sanitizeRoom room)).

(** * Properties *)

(** Goals about the concrete runs are settled by evaluation. *)
Ltac by_eval :=
  vm_compute; first [reflexivity | discriminate | lia].

(** ** Scoring *)

Section Scoring.

Variable questions : list Question.

Lemma getQuestion_Some index q :
  questions !! index = Some q →
  getQuestion questions index =
    Some {| qv_q := q;
            isLast := bool_decide (index + 1 = length questions) |}.
Proof.
  intros Hq. unfold getQuestion. rewrite Hq. do 2 f_equal.
  case_bool_decide; [apply Z.eqb_eq | apply Z.eqb_neq]; lia.
Qed.



End Scoring.

(** ** The built-in sort, for a comparator that orders by a key *)

Section Sorting.

Context {A : Type}.
Variable key : A → Z.
Variable cmp : A → A → Z.

(** [cmp] is the descending comparator [(a, b) => key b - key a]. *)
Hypothesis cmp_desc : ∀ a b, cmp a b = (key b - key a)%Z.

Lemma sort_insert_perm x l : sort_insert cmp x l ≡ₚ x :: l.
Proof.
  induction l as [|y l IH]; simpl; [done|].
  destruct (cmp y x <? 0)%Z; [|done].
  rewrite IH. apply Permutation_swap.
Qed.

Lemma js_sort_perm l : js_sort cmp l ≡ₚ l.
Proof.
  induction l as [|x l IH]; simpl; [done|].
  by rewrite sort_insert_perm, IH.
Qed.

Lemma sort_insert_sorted x l :
  StronglySorted (λ a b, key b ≤ key a)%Z l →
  StronglySorted (λ a b, key b ≤ key a)%Z (sort_insert cmp x l).
Proof.
  induction 1 as [|y l Hs IH Hy]; simpl.
  - repeat constructor.
  - rewrite cmp_desc. destruct (Z.ltb_spec (key x - key y) 0).
    + constructor; [done|].
      rewrite sort_insert_perm. constructor; [lia | done].
    + constructor; [by constructor|].
      constructor; [lia|].
      eapply Forall_impl; [exact Hy|]. simpl. intros; lia.
Qed.

Lemma js_sort_sorted l :
  StronglySorted (λ a b, key b ≤ key a)%Z (js_sort cmp l).
Proof.
  induction l as [|x l IH]; simpl; [constructor|].
  by apply sort_insert_sorted.
Qed.

(** Insertion only moves [x] past elements with a strictly larger key,
    so the elements of each key keep their order. *)
Lemma sort_insert_stable v x l :
  filter (λ a, key a = v) (sort_insert cmp x l)
  = filter (λ a, key a = v) (x :: l).
Proof.
  induction l as [|y l IH]; simpl; [done|].
  rewrite cmp_desc. destruct (Z.ltb_spec (key x - key y) 0); [|done].
  rewrite !filter_cons in *. rewrite IH.
  repeat case_decide; try done; lia.
Qed.

Lemma js_sort_stable v l :
  filter (λ a, key a = v) (js_sort cmp l) = filter (λ a, key a = v) l.
Proof.
  induction l as [|x l IH]; simpl; [done|].
  rewrite sort_insert_stable, !filter_cons, IH. done.
Qed.

(** Sortedness and stability leave no choice: a list that is sorted by
    descending key and keeps the order of [l] within each key is the
    result of [js_sort], whatever algorithm produced it. *)
Lemma stable_sorted_unique (l1 l2 : list A) :
  StronglySorted (λ a b, key b ≤ key a)%Z l1 →
  StronglySorted (λ a b, key b ≤ key a)%Z l2 →
  (∀ v, filter (λ a, key a = v) l1 = filter (λ a, key a = v) l2) →
  l1 = l2.
Proof.
  intros Hs1. revert l2.
  induction Hs1 as [|x l1 Hs1 IH Hx]; intros l2 Hs2 Hf.
  - destruct l2 as [|y l2]; [done|].
    specialize (Hf (key y)). rewrite filter_cons_True in Hf by done.
    discriminate.
  - destruct Hs2 as [|y l2 Hs2 Hy].
    { specialize (Hf (key x)). rewrite filter_cons_True in Hf by done.
      discriminate. }
    assert (Hxy : (key x ≤ key y)%Z).
    { pose proof (Hf (key x)) as H. rewrite filter_cons_True in H by done.
      assert (Hin : x ∈ filter (λ a, key a = key x) (y :: l2))
        by (rewrite <- H; apply list_elem_of_here).
      apply list_elem_of_filter in Hin as [_ Hin].
      apply elem_of_cons in Hin as [->|Hin]; [done|].
      rewrite Forall_forall in Hy. by apply Hy. }
    assert (Hyx : (key y ≤ key x)%Z).
    { pose proof (Hf (key y)) as H.
      rewrite (filter_cons_True _ y) in H by done.
      assert (Hin : y ∈ filter (λ a, key a = key y) (x :: l1))
        by (rewrite H; apply list_elem_of_here).
      apply list_elem_of_filter in Hin as [_ Hin].
      apply elem_of_cons in Hin as [->|Hin]; [done|].
      rewrite Forall_forall in Hx. by apply Hx. }
    assert (Heq : x = y).
    { pose proof (Hf (key x)) as H.
      rewrite !filter_cons_True in H by lia. congruence. }
    subst y. f_equal. apply IH; [done|]. intros v. specialize (Hf v).
    rewrite !filter_cons in Hf. case_decide; congruence.
Qed.

Lemma js_sort_unique l l' :
  StronglySorted (λ a b, key b ≤ key a)%Z l' →
  (∀ v, filter (λ a, key a = v) l' = filter (λ a, key a = v) l) →
  l' = js_sort cmp l.
Proof.
  intros Hs Hf. apply stable_sorted_unique; [done | apply js_sort_sorted|].
  intros v. by rewrite js_sort_stable.
Qed.

End Sorting.

Lemma sort_insert_fmap {A B} (f : A → B) (cmpA : A → A → Z)
    (cmpB : B → B → Z) (x : A) (l : list A) :
  (∀ a b, cmpB (f a) (f b) = cmpA a b) →
  f <$> sort_insert cmpA x l = sort_insert cmpB (f x) (f <$> l).
Proof.
  intros Hf. induction l as [|y l IH]; [done|].
  rewrite fmap_cons. cbn [sort_insert]. rewrite Hf.
  destruct (cmpA y x <? 0)%Z; rewrite !fmap_cons; [by rewrite IH | done].
Qed.

Lemma js_sort_cons {A} (cmp : A → A → Z) x l :
  js_sort cmp (x :: l) = sort_insert cmp x (js_sort cmp l).
Proof. done. Qed.

Lemma js_sort_fmap {A B} (f : A → B) (cmpA : A → A → Z)
    (cmpB : B → B → Z) (l : list A) :
  (∀ a b, cmpB (f a) (f b) = cmpA a b) →
  f <$> js_sort cmpA l = js_sort cmpB (f <$> l).
Proof.
  intros Hf. induction l as [|x l IH]; [done|].
  rewrite fmap_cons, !js_sort_cons, <- IH.
  by apply sort_insert_fmap.
Qed.

Lemma imap_rank_seq {A} (f : nat → A → LeaderboardEntry) (l : list A) k :
  (∀ i a, rank (f i a) = i + k) →
  rank <$> imap f l = seq k (length l).
Proof.
  revert f k. induction l as [|x l IH]; intros f k Hf; simpl; [done|].
  rewrite (Hf 0 x). f_equal. apply IH. intros i a. simpl. rewrite Hf. lia.
Qed.

Lemma leaderboard_rows ps :
  row_of_entry <$> leaderboard ps
  = js_sort (λ r1 r2, row_score r2 - row_score r1)%Z (row_of_player <$> ps).
Proof.
  unfold leaderboard. rewrite fmap_imap.
  rewrite <- (js_sort_fmap row_of_player (λ a b, score b - score a)%Z) by done.
  rewrite <- imap_const. by apply imap_ext.
Qed.

Lemma leaderboard_ranks ps : ranks_players ps (leaderboard ps).
Proof.
  unfold ranks_players. rewrite leaderboard_rows. split_and!.
  - unfold leaderboard. rewrite (imap_rank_seq _ _ 1) by (intros; simpl; lia).
    f_equal. apply Permutation_length, js_sort_perm.
  - apply js_sort_perm.
  - by apply js_sort_sorted.
  - intros v. by apply (js_sort_stable row_score).
Qed.

Lemma grantPower_row questions qIndex q roll p :
  row_of_player (grantPower questions qIndex q roll p) = row_of_player p.
Proof.
  unfold grantPower. repeat case_match; done.
Qed.

Lemma ranks_players_rows ps ps' lb :
  row_of_player <$> ps' = row_of_player <$> ps →
  ranks_players ps' lb → ranks_players ps lb.
Proof.
  unfold ranks_players. intros Hrows (Hr & Hp & Hs & Hf).
  rewrite <- Hrows. split_and!; try done.
  rewrite Hr. f_equal.
  by rewrite <- (length_fmap row_of_player), Hrows, length_fmap.
Qed.

(** C5. The leaderboard sent with the results of a question and at the
    end of the game gives the players the ranks 1..N in order, lists them
    by descending score, and keeps players of equal score in join
    order. *)
Theorem leaderboard_ranks_players questions now rolls room sc :
  (∀ q, getQuestion questions (currentQuestionIndex room) = Some q →
     ∃ lb pp,
       (finalizeQuestion questions now rolls room sc).2 =
         [ (code room,
            QuestionResults (currentQuestionIndex room)
              (q_bestIndex (qv_q q)) lb pp) ] ∧
       ranks_players (players room) lb) ∧
  (∃ lb, (endGame room sc).2 = [ (code room, GameEnded lb) ] ∧
         ranks_players (players room) lb).
Proof.
  split.
  - intros q Hq. unfold finalizeQuestion. simpl. rewrite Hq. simpl.
    eexists _, _. split; [reflexivity|].
    eapply ranks_players_rows; [|apply leaderboard_ranks].
    rewrite fmap_imap. rewrite <- imap_const. apply imap_ext.
    intros i p _. apply grantPower_row.
  - unfold endGame. simpl. destruct (timer room); simpl;
      (eexists; split; [reflexivity | apply leaderboard_ranks]).
Qed.

(** ** Registry and player lookup *)

Lemma commit_lookup key room sc s :
  rooms (commit key room sc s) !! key = Some room.
Proof. apply lookup_insert_eq. Qed.

Lemma finds_lookup room pid i p :
  finds room pid i p → players room !! i = Some p ∧ playerId p = pid.
Proof. intros (? & ? & _)%list_find_Some. done. Qed.

(** The position [find] returns depends on the players' ids only. *)
Lemma list_find_same_ids pid (l l' : list Player) i p :
  playerId <$> l' = playerId <$> l →
  list_find (λ p, playerId p = pid) l = Some (i, p) →
  ∃ p', list_find (λ p, playerId p = pid) l' = Some (i, p') ∧
        l' !! i = Some p'.
Proof.
  intros Hids (Hi & Hp & Hlt)%list_find_Some.
  assert (Hlk : ∀ j, playerId <$> l' !! j = playerId <$> l !! j).
  { intros j. by rewrite <- !list_lookup_fmap, Hids. }
  pose proof (Hlk i) as Hli. rewrite Hi in Hli.
  destruct (l' !! i) as [p'|] eqn:Hi'; [|done].
  exists p'. split; [|done]. apply list_find_Some. split_and!; [done|..].
  - simpl in Hli. congruence.
  - intros j y Hj Hji Hy. pose proof (Hlk j) as Hlj. rewrite Hj in Hlj.
    destruct (l !! j) as [y'|] eqn:Hj'; [|done].
    apply (Hlt j y'); [done..|]. simpl in Hlj. congruence.
Qed.

(** ** Joining *)

(** C10. A join whose [playerId] already has a player record in the room
    only rebinds the connection handle: whatever name and avatar the
    request carries, and whoever holds that avatar, the join succeeds,
    the player keeps its name, avatar, score, stun watermark, answers and
    powers, and nothing else in the room changes. *)
Theorem join_existing_rebinds socket roomCode reqName reqAvatarId pid
    s room i p :
  rooms s !! toUpperCase roomCode = Some room →
  finds room pid i p →
  ∃ room',
    on_join socket roomCode reqName reqAvatarId pid s =
      Done (commit (toUpperCase roomCode) room' (sched s) s)
           (broadcastRoom room') (Some (AckJoined (code room) pid)) ∧
    same_but_players room room' ∧
    length (players room') = length (players room) ∧
    ∀ j q, players room !! j = Some q →
      ∃ q', players room' !! j = Some q' ∧ same_but_socket q q' ∧
            socketId q' = if decide (j = i) then socket else socketId q.
Proof.
  intros Hroom Hfind. pose proof (finds_lookup _ _ _ _ Hfind) as [Hi Hid].
  unfold finds in Hfind. unfold on_join. rewrite Hroom, Hfind.
  eexists. split; [by rewrite Hid|]. split; [done|]. simpl.
  split; [apply length_insert|].
  intros j q Hj. destruct (decide (j = i)) as [->|Hne].
  - rewrite list_lookup_insert_eq by eauto using lookup_lt_Some.
    eexists; split; [done|]. simplify_eq. by repeat split.
  - rewrite list_lookup_insert_ne by done.
    exists q. by repeat split.
Qed.

(** ** Submitting an answer *)

Section Submitting.

Variable questions : list Question.

(** The handler once the room is found, the deadline check passed and
    the player found. *)
Lemma on_submitAnswer_in_time now c pid a s room i p :
  rooms s !! c = Some room → in_time now room → finds room pid i p →
  on_submitAnswer questions now c pid a s =
    let qIndex := currentQuestionIndex room in
    if (Z.of_nat qIndex <? stunnedUntil p)%Z
    then Done s [] (Some (AckError "You are stunned this question"))
    else if existsb (λ a, bool_decide (a_questionIndex a = qIndex))
              (answers p)
    then Done s [] (Some (AckError "Already answered"))
    else
      match getQuestion questions qIndex with
      | None => Done s [] (Some (AckError "No question"))
      | Some q =>
          match getEffectiveScore (Some q) a with
          | NotAnInteger => Unmodelled
          | Points gained =>
              let p' :=
                set_score (js_add (score p) gained)
                  (set_answers
                     (answers p ++
                        [ {| a_questionIndex := qIndex; a_answerIndex := a;
                             a_gained := gained |} ]) p) in
              let room' := set_players (<[i := p']> (players room)) room in
              Done (commit c room' (sched s) s) (broadcastRoom room')
                   (Some (AckGained gained))
          end
      end.
Proof.
  intros Hroom (e & He & He0 & Hnow) Hfind. unfold finds in Hfind.
  unfold on_submitAnswer. rewrite Hroom, He.
  destruct (Z.eqb_spec e 0); [done|].
  destruct (Z.ltb_spec e now); [lia|]. simpl. by rewrite Hfind.
Qed.

Lemma existsb_answered qIndex (l : list Answer) :
  existsb (λ a, bool_decide (a_questionIndex a = qIndex)) l = true
  ↔ ∃ a, a ∈ l ∧ a_questionIndex a = qIndex.
Proof.
  rewrite existsb_exists. split; intros (a & Ha & Hq); exists a.
  - apply list_elem_of_In in Ha. by apply bool_decide_eq_true in Hq.
  - apply list_elem_of_In in Ha. split; [done|]. by apply bool_decide_eq_true.
Qed.

Lemma existsb_not_answered qIndex (l : list Answer) :
  existsb (λ a, bool_decide (a_questionIndex a = qIndex)) l = false
  ↔ ∀ a, a ∈ l → a_questionIndex a ≠ qIndex.
Proof.
  rewrite <- not_true_iff_false, existsb_answered. split.
  - intros Hn a Ha Hq. apply Hn. eauto.
  - intros Hn (a & Ha & Hq). by apply (Hn a).
Qed.

Lemma array_get_no_option tbl a :
  names_no_option tbl a → array_get tbl a = PUndefined.
Proof.
  destruct a as [|z|str]; simpl; [done|..].
  - intros Hz. destruct (Z.leb_spec 0 z); [|done].
    rewrite lookup_ge_None_2; [done | lia].
  - intros (Hlen & Hinh & Hidx).
    destruct (array_index_of str) as [n|].
    + by rewrite lookup_ge_None_2 by auto.
    + rewrite Hinh. by destruct (String.eqb_spec str "length").
Qed.

Lemma getEffectiveScore_no_option q a :
  (∀ tbl, q_optionScores (qv_q q) = Some tbl → names_no_option tbl a) →
  getEffectiveScore (Some q) a = Points 0.
Proof.
  intros Ha. simpl. destruct (q_optionScores (qv_q q)) as [tbl|]; [|done].
  rewrite array_get_no_option by auto. by destruct (isLast q).
Qed.

(** C2, as the code has it.  A submission processed strictly after the
    question's deadline, or when no deadline is set, is rejected with
    "Time is up" and changes nothing, whatever the rest of the server
    state (pending timers included); a submission processed exactly at
    the deadline is not rejected as expired. *)
Theorem submitAnswer_after_deadline now c pid a s room :
  rooms s !! c = Some room →
  ((∀ e, questionEndsAt room = Some e → (e < now)%Z) →
   on_submitAnswer questions now c pid a s =
     Done s [] (Some (AckError "Time is up"))) ∧
  (questionEndsAt room = Some now → now ≠ 0%Z →
   on_submitAnswer questions now c pid a s ≠
     Done s [] (Some (AckError "Time is up"))).
Proof.
  intros Hroom. split.
  - intros Hlate. unfold on_submitAnswer. rewrite Hroom.
    destruct (questionEndsAt room) as [e|]; [|done].
    specialize (Hlate e eq_refl). destruct (Z.ltb_spec e now); [|lia].
    by rewrite orb_true_r.
  - intros He H0. unfold on_submitAnswer. rewrite Hroom, He.
    destruct (Z.eqb_spec now 0); [done|]. rewrite Z.ltb_irrefl. simpl.
    repeat case_match; discriminate.
Qed.

(** C9, as the code has it.  [answerIndex] is not validated: an otherwise
    valid submission whose [answerIndex] names no property of the score
    table (undefined, an integer below 0 or past the end, a string that
    is neither an index, nor "length", nor an inherited member) is
    accepted with [gained = 0], is recorded as the player's answer to the
    question, leaves the score as it was, and any further submission for
    that question is rejected as already answered. *)
Theorem submitAnswer_out_of_range now c pid a s room i p q :
  rooms s !! c = Some room →
  in_time now room →
  finds room pid i p →
  (stunnedUntil p ≤ Z.of_nat (currentQuestionIndex room))%Z →
  (∀ ans, ans ∈ answers p →
          a_questionIndex ans ≠ currentQuestionIndex room) →
  getQuestion questions (currentQuestionIndex room) = Some q →
  (∀ tbl, q_optionScores (qv_q q) = Some tbl → names_no_option tbl a) →
  ∃ s' room' p' out,
    on_submitAnswer questions now c pid a s =
      Done s' out (Some (AckGained 0)) ∧
    rooms s' !! c = Some room' ∧
    finds room' pid i p' ∧
    answers p' =
      answers p ++ [ {| a_questionIndex := currentQuestionIndex room;
                        a_answerIndex := a; a_gained := 0 |} ] ∧
    score p' = score p ∧
    ∀ now' a', in_time now' room' →
      on_submitAnswer questions now' c pid a' s' =
        Done s' [] (Some (AckError "Already answered")).
Proof.
  intros Hroom Htime Hfind Hstun Hfresh Hq Ha.
  pose proof (finds_lookup _ _ _ _ Hfind) as [Hi Hid].
  rewrite (on_submitAnswer_in_time _ _ _ _ _ _ _ _ Hroom Htime Hfind).
  cbv zeta. destruct (Z.ltb_spec (Z.of_nat (currentQuestionIndex room))
                        (stunnedUntil p)); [lia|].
  rewrite (proj2 (existsb_not_answered _ _) Hfresh), Hq.
  rewrite getEffectiveScore_no_option by done.
  set (ans := {| a_questionIndex := currentQuestionIndex room;
                 a_answerIndex := a; a_gained := 0 |}).
  set (p' := set_score (js_add (score p) 0)
               (set_answers (answers p ++ [ans]) p)).
  set (room' := set_players (<[i := p']> (players room)) room).
  assert (Hfind' : finds room' pid i p').
  { destruct (list_find_same_ids pid (players room) (players room') i p)
      as (p'' & Hf & Hl); [|done|].
    - simpl. rewrite list_fmap_insert. simpl.
      apply list_insert_id. by rewrite list_lookup_fmap, Hi.
    - simpl in Hl.
      rewrite list_lookup_insert_eq in Hl by eauto using lookup_lt_Some.
      by simplify_eq. }
  exists (commit c room' (sched s) s), room', p', (broadcastRoom room').
  split_and!; [done | apply commit_lookup | done | done | done |].
  intros now' a' Htime'.
  rewrite (on_submitAnswer_in_time _ _ _ _ _ _ _ _
             (commit_lookup _ _ _ _) Htime' Hfind').
  simpl. destruct (Z.ltb_spec (Z.of_nat (currentQuestionIndex room))
                     (stunnedUntil p)); [lia|].
  rewrite (proj2 (existsb_answered _ _)); [done|].
  exists ans. split; [|done]. apply elem_of_app. right. by apply list_elem_of_singleton.
Qed.

End Submitting.

(** ** How a turn of the event loop changes the registry *)

Section Evolution.

Variable questions : list Question.

Lemma commit_cases key room sc s c :
  rooms (commit key room sc s) !! c =
    if decide (key = c) then Some room else rooms s !! c.
Proof. unfold commit. simpl. apply lookup_insert. Qed.

(** Every turn leaves a room as it is, registers it, or changes it by one
    [room_step]; only [host:startGame] for that room restarts it. *)
Lemma step_rooms now i s s' out ack c :
  step questions now i s = Some (Done s' out ack) →
  rooms s' !! c = rooms s !! c ∨
  (rooms s !! c = None ∧
   ∃ socket, rooms s' !! c = Some (fresh_room c socket)) ∨
  (∃ op room room',
     rooms s !! c = Some room ∧ rooms s' !! c = Some room' ∧
     room_step questions op room room' ∧
     (op = OpStartGame → i = HostStartGame c)).
Proof.
  unfold step. destruct (now <? clock s)%Z; [done|].
  destruct i as [socket newCode | socket roomCode nm av pid | roomCode
                | roomCode pid a | rnd roomCode pid tid k | id rolls]; simpl.
  - (* host:createRoom *)
    destruct (rooms s !! newCode) eqn:Hnew; [done|].
    intros [= <- <- <-]. simpl. rewrite lookup_insert.
    destruct (decide (newCode = c)) as [->|]; [|rewrite lookup_insert_ne; auto].
    right; left. split; [done|]. by exists socket.
  - (* room:join *)
    unfold on_join. simpl.
    destruct (rooms s !! toUpperCase roomCode) as [room|] eqn:Hroom;
      [|intros [= <- <- <-]; auto].
    destruct (list_find _ (players room)) as [[j p]|] eqn:Hfind.
    + intros [= <- <- <-]. rewrite commit_cases. simpl.
      destruct (decide (toUpperCase roomCode = c)) as [<-|]; [|auto].
      right; right. eexists OpJoin, room, _. split_and!; [done..| |done].
      apply RS_rebind. by apply list_find_Some in Hfind as (? & _).
    + destruct (existsb _ (players room)); intros [= <- <- <-]; [auto|].
      rewrite commit_cases. simpl.
      destruct (decide (toUpperCase roomCode = c)) as [<-|]; [|auto].
      right; right. eexists OpJoin, room, _. split_and!; [done..| |done].
      apply RS_newPlayer.
  - (* host:startGame *)
    unfold on_startGame. simpl.
    destruct (rooms s !! roomCode) as [room|] eqn:Hroom;
      [|intros [= <- <- <-]; auto].
    destruct (startQuestion _ _ _ _) as [[room' sc'] out'] eqn:Hstart.
    intros [= <- <- <-]. rewrite commit_cases. simpl.
    destruct (decide (roomCode = c)) as [<-|]; [|auto].
    right; right. eexists OpStartGame, room, _. split_and!; [done..| |done].
    replace room' with (room', sc', out').1.1 by done. rewrite <- Hstart.
    apply RS_startGame.
  - (* player:submitAnswer *)
    unfold on_submitAnswer. cbn [rooms set_clock].
    destruct (rooms s !! roomCode) as [room|] eqn:Hroom;
      [|intros [= <- <- <-]; auto].
    destruct (match questionEndsAt room with Some _ => _ | None => _ end);
      [intros [= <- <- <-]; auto|].
    destruct (list_find _ (players room)) as [[j p]|] eqn:Hfind;
      [|intros [= <- <- <-]; auto].
    destruct (_ <? stunnedUntil p)%Z; [intros [= <- <- <-]; auto|].
    destruct (existsb _ (answers p)) eqn:Hans; [intros [= <- <- <-]; auto|].
    destruct (getQuestion _ _) as [q|]; [|intros [= <- <- <-]; auto].
    destruct (getEffectiveScore (Some q) a) as [gained|]; [|done].
    intros [= <- <- <-]. rewrite commit_cases. simpl.
    destruct (decide (roomCode = c)) as [<-|]; [|auto].
    right; right. eexists OpSubmit, room, _. split_and!; [done..| |done].
    apply RS_submit.
    + by apply list_find_Some in Hfind as (? & _).
    + by apply existsb_not_answered.
  - (* player:usePower *)
    unfold on_usePower. simpl.
    destruct (rooms s !! roomCode) as [room|] eqn:Hroom;
      [|intros [= <- <- <-]; auto].
    destruct (list_find _ (players room)) as [[j p]|] eqn:Hfind;
      [|intros [= <- <- <-]; auto].
    destruct (powers_get (powers p) k) as [|k' power|n|];
      [intros [= <- <- <-]; auto| |
       destruct (n =? 0)%Z; intros [= <- <- <-]; auto|done].
    destruct (p_used power); [intros [= <- <- <-]; auto|].
    intros [= <- <- <-]. rewrite commit_cases. simpl.
    destruct (decide (roomCode = c)) as [<-|]; [|auto].
    right; right. eexists OpUsePower, room, _. split_and!; [done..| |done].
    apply RS_usePower.
  - (* a timeout fires *)
    destruct (list_find _ (pending (sched s))) as [[j t]|]; [|done].
    destruct (now <? t_due t)%Z; [done|]. unfold fire. simpl.
    destruct (rooms s !! t_room t) as [room|] eqn:Hroom;
      [|intros [= <- <- <-]; auto].
    destruct (t_cb t).
    + destruct (finalizeQuestion _ _ _ _ _) as [[room' sc'] out'] eqn:Hfin.
      intros [= <- <- <-]. rewrite commit_cases. simpl.
      destruct (decide (t_room t = c)) as [<-|]; [|auto].
      right; right. eexists OpFinalize, room, _. split_and!; [done..| |done].
      replace room' with (room', sc', out').1.1 by done. rewrite <- Hfin.
      apply RS_finalize.
    + destruct (nextRound _ _ _ _) as [[room' sc'] out'] eqn:Hnext.
      intros [= <- <- <-]. rewrite commit_cases. simpl.
      destruct (decide (t_room t = c)) as [<-|]; [|auto].
      right; right. eexists OpNextRound, room, _. split_and!; [done..| |done].
      replace room' with (room', sc', out').1.1 by done. rewrite <- Hnext.
      apply RS_nextRound.
Qed.

(** *** What the room-level operations leave alone *)

Lemma endGame_room room sc :
  (endGame room sc).1.1 = set_timer None (set_state Ended room).
Proof.
  unfold endGame. simpl. destruct (timer room) eqn:Ht; simpl; [done|].
  unfold set_timer, set_state. simpl. by rewrite Ht.
Qed.

Lemma startQuestion_room now room sc :
  (startQuestion questions now room sc).1.1 =
    match getQuestion questions (currentQuestionIndex room) with
    | None => set_timer None (set_state Ended room)
    | Some _ =>
        set_timer (Some (next_id sc))
          (set_questionEndsAt (Some (now + durationMs)%Z)
             (set_state QuestionPhase room))
    end.
Proof.
  unfold startQuestion.
  destruct (timer room) eqn:Ht; simpl;
    (destruct (getQuestion questions (currentQuestionIndex room));
     [done | by rewrite endGame_room]).
Qed.

Lemma nextRound_room now room sc :
  (nextRound questions now room sc).1.1 =
    let room1 :=
      set_currentQuestionIndex (currentQuestionIndex room + 1) room in
    if bool_decide (length questions ≤ currentQuestionIndex room + 1)
    then set_timer None (set_state Ended room1)
    else (startQuestion questions now room1 sc).1.1.
Proof.
  unfold nextRound. simpl. case_bool_decide; [by rewrite endGame_room|].
  by destruct (startQuestion _ _ _ _) as [[? ?] ?].
Qed.

Lemma finalizeQuestion_room now rolls room sc :
  (finalizeQuestion questions now rolls room sc).1.1 =
    match getQuestion questions (currentQuestionIndex room) with
    | None => set_timer None room
    | Some q =>
        set_state Results
          (set_players
             (imap (λ i p, grantPower questions (currentQuestionIndex room)
                             q (rolls i) p) (players room))
             (set_timer None room))
    end.
Proof.
  unfold finalizeQuestion. simpl.
  by destruct (getQuestion questions (currentQuestionIndex room)).
Qed.

(** *** How players change *)

Lemma powers_grow_refl l : powers_grow l l.
Proof. intros k pw Hk. eauto. Qed.

Lemma powers_grow_app l more : powers_grow l (l ++ more).
Proof. intros k pw Hk. exists pw. by rewrite (lookup_app_l_Some _ _ _ _ Hk). Qed.

Lemma powers_grow_mark l l' k :
  powers_grow l l' → powers_grow l (alter (set_used true) k l').
Proof.
  intros Hg j pw Hj. destruct (Hg j pw Hj) as (pw' & Hj' & Ht & Hu).
  destruct (decide (k = j)) as [->|Hne].
  - exists (set_used true pw'). rewrite list_lookup_alter_eq, Hj'. done.
  - exists pw'. by rewrite list_lookup_alter_ne.
Qed.

Lemma player_step_refl qIndex p : player_step qIndex p p.
Proof. split_and!; [done | apply powers_grow_refl | by left]. Qed.

Lemma players_step_refl qIndex l : Forall2 (player_step qIndex) l l.
Proof. apply Forall_Forall2_diag, Forall_forall. intros. apply player_step_refl. Qed.

(** An update of a player that touches neither its id, nor its answers,
    nor its powers. *)
Lemma players_step_alter qIndex (f : Player → Player) i l l' :
  (∀ y, playerId (f y) = playerId y ∧ powers (f y) = powers y ∧
        answers (f y) = answers y) →
  Forall2 (player_step qIndex) l l' →
  Forall2 (player_step qIndex) l (alter f i l').
Proof.
  intros Hf Hl. apply Forall2_alter_r; [done|].
  intros x y _ _ (Hid & Hp & Ha). unfold player_step.
  destruct (Hf y) as (-> & -> & ->). done.
Qed.

Lemma players_step_mark qIndex k i l l' :
  Forall2 (player_step qIndex) l l' →
  Forall2 (player_step qIndex) l (alter (mark_used k) i l').
Proof.
  intros Hl. apply Forall2_alter_r; [done|].
  intros x y _ _ (Hid & Hp & Ha). split_and!; [done | | done].
  by apply powers_grow_mark.
Qed.

Lemma applyPower_players rnd room type actor target :
  Forall2 (player_step (currentQuestionIndex room)) (players room)
    (players (applyPower questions rnd room type actor target)).
Proof.
  unfold applyPower.
  destruct type; simpl; repeat case_match; simpl;
    repeat (apply players_step_alter; [done|]);
    apply players_step_refl.
Qed.

Lemma applyPower_room rnd room type actor target :
  same_but_players room (applyPower questions rnd room type actor target).
Proof.
  unfold applyPower. destruct type; simpl; repeat case_match; done.
Qed.

Lemma grantPower_step qIndex q roll p :
  player_step qIndex p (grantPower questions qIndex q roll p).
Proof.
  unfold grantPower. repeat case_match; try apply player_step_refl.
  split_and!; [done | apply powers_grow_app | by left].
Qed.

(** In a turn that is not a restart, the players already in the room
    change by [player_step]; a join may add one new player behind
    them. *)
Lemma room_step_players op room room' :
  room_step questions op room room' → op ≠ OpStartGame →
  ∃ front extra,
    players room' = front ++ extra ∧
    Forall2 (player_step (currentQuestionIndex room)) (players room) front ∧
    Forall (λ p, answers p = [] ∧ powers p = []) extra.
Proof.
  destruct 1 as [room socket i p Hi | room socket nm av pid | room now sc
                | room i p a gained Hi Hfresh | room rnd type actor target k
                | room now rolls sc | room now sc]; intros Hop; try done.
  - eexists _, []. rewrite app_nil_r. split_and!; [done| |done]. simpl.
    rewrite list_insert_alter. apply Forall2_alter_r; [apply players_step_refl|].
    intros x y Hx Hy _. rewrite Hi in Hx, Hy. simplify_eq.
    split_and!; [done | apply powers_grow_refl | by left].
  - eexists _, [_]. split_and!; [done | apply players_step_refl|].
    by repeat constructor.
  - eexists _, []. rewrite app_nil_r. split_and!; [done| |done]. simpl.
    rewrite list_insert_alter. apply Forall2_alter_r; [apply players_step_refl|].
    intros x y Hx Hy _. rewrite Hi in Hy. simplify_eq.
    split_and!; [done | apply powers_grow_refl|]. right. eauto.
  - eexists _, []. rewrite app_nil_r. split_and!; [done| |done]. simpl.
    apply players_step_mark, applyPower_players.
  - eexists _, []. rewrite app_nil_r. split_and!; [done| |done].
    rewrite finalizeQuestion_room. case_match; [|apply players_step_refl].
    simpl. apply Forall2_same_length_lookup_2; [by rewrite length_imap|].
    intros j x y Hx Hy. rewrite list_lookup_imap, Hx in Hy. simplify_eq/=.
    apply grantPower_step.
  - eexists _, []. rewrite app_nil_r. split_and!; [done| |done].
    rewrite nextRound_room. simpl. case_bool_decide; simpl.
    + apply players_step_refl.
    + rewrite startQuestion_room. simpl. case_match; apply players_step_refl.
Qed.

End Evolution.

(** ** Invariants of the reachable states *)

Section Reachability.

Variable questions : list Question.

Lemma run_preserves (P : Server → Prop) :
  (∀ now i s s' out ack,
     P s → step questions now i s = Some (Done s' out ack) → P s') →
  ∀ tr s s', P s → run questions tr s = Some s' → P s'.
Proof.
  intros Hstep tr. induction tr as [|[now i] tr IH]; simpl; intros s s' HP.
  - by intros [= <-].
  - destruct (step questions now i s) as [[s1 out ack|]|] eqn:Hs; try done.
    apply IH. eauto.
Qed.

(** A property of rooms that fresh rooms have and every [room_step]
    preserves holds of every room of every reachable state. *)
Lemma reachable_rooms (R : Room → Prop) :
  (∀ c socket, R (fresh_room c socket)) →
  (∀ op room room', R room → room_step questions op room room' → R room') →
  ∀ s, reachable questions s →
  ∀ c room, rooms s !! c = Some room → R room.
Proof.
  intros Hfresh Hstep s [tr Hrun].
  eapply (run_preserves (λ s, ∀ c room, rooms s !! c = Some room → R room));
    [| |exact Hrun].
  - intros now i s0 s1 out ack HP Hs c room Hc.
    destruct (step_rooms questions _ _ _ _ _ _ c Hs)
      as [Heq|[(_ & socket & Hsome)|(op & r & r' & H1 & H2 & H3 & _)]].
    + rewrite Heq in Hc. eauto.
    + rewrite Hsome in Hc. simplify_eq. apply Hfresh.
    + rewrite H2 in Hc. simplify_eq. eauto.
  - intros c room. unfold init. simpl. by rewrite lookup_empty.
Qed.

Lemma room_step_restart room room' :
  room_step questions OpStartGame room room' →
  Forall (λ p, answers p = [] ∧ powers p = []) (players room').
Proof.
  inversion 1; subst. rewrite startQuestion_room. simpl.
  case_match; simpl; by apply Forall_fmap, Forall_forall.
Qed.

Lemma room_step_answers op room room' :
  (∀ p, p ∈ players room → NoDup (a_questionIndex <$> answers p)) →
  room_step questions op room room' →
  ∀ p, p ∈ players room' → NoDup (a_questionIndex <$> answers p).
Proof.
  intros HR Hstep p' Hp'. destruct (decide (op = OpStartGame)) as [->|Hop].
  - apply room_step_restart in Hstep.
    rewrite Forall_forall in Hstep. destruct (Hstep p' Hp') as [-> _].
    constructor.
  - destruct (room_step_players questions _ _ _ Hstep Hop)
      as (front & extra & Hps & Hfront & Hextra).
    rewrite Hps in Hp'. apply elem_of_app in Hp' as [Hin|Hin].
    + apply list_elem_of_lookup in Hin as [j Hj].
      destruct (Forall2_lookup_r _ _ _ _ _ Hfront Hj) as (p & Hp & Hpp').
      assert (Hnd : NoDup (a_questionIndex <$> answers p))
        by eauto using list_elem_of_lookup_2.
      destruct Hpp' as (_ & _ & [-> | (a & g & Hfresh & ->)]); [done|].
      rewrite fmap_app. apply NoDup_app. split_and!; [done| |].
      * intros q Hq. simpl. rewrite list_elem_of_singleton. intros ->.
        apply list_elem_of_fmap in Hq as (ans & Hq & Hans).
        by apply (Hfresh ans).
      * simpl. apply NoDup_singleton.
    + rewrite Forall_forall in Hextra. destruct (Hextra p' Hin) as [-> _].
      constructor.
Qed.

(** C6. A player has at most one answer per question index, and a
    submission by a player who already answered the current question is
    rejected and changes nothing (score and recorded answer included);
    when the submission is in time and the player is not stunned, the
    error is "Already answered". *)
Theorem one_answer_per_question :
  (∀ s c room p,
     reachable questions s → rooms s !! c = Some room → p ∈ players room →
     NoDup (a_questionIndex <$> answers p)) ∧
  (∀ s c room pid i p now a,
     rooms s !! c = Some room → finds room pid i p →
     (∃ ans, ans ∈ answers p ∧
             a_questionIndex ans = currentQuestionIndex room) →
     (∃ err, on_submitAnswer questions now c pid a s =
               Done s [] (Some (AckError err))) ∧
     (in_time now room →
      (stunnedUntil p ≤ Z.of_nat (currentQuestionIndex room))%Z →
      on_submitAnswer questions now c pid a s =
        Done s [] (Some (AckError "Already answered")))).
Proof.
  split.
  - intros s c room p Hreach Hroom Hp. revert p Hp.
    eapply (reachable_rooms
              (λ room, ∀ p, p ∈ players room →
                            NoDup (a_questionIndex <$> answers p)));
      [| |exact Hreach|exact Hroom].
    + intros c' socket p. simpl. by intros ?%elem_of_nil.
    + intros op r r'. apply room_step_answers.
  - intros s c room pid i p now a Hroom Hfind Hans.
    apply existsb_answered in Hans. split.
    + unfold finds in Hfind. unfold on_submitAnswer. rewrite Hroom.
      destruct (match questionEndsAt room with Some _ => _ | None => _ end);
        [eauto|].
      rewrite Hfind. rewrite Hans. destruct (_ <? _)%Z; eauto.
    + intros Htime Hstun.
      rewrite (on_submitAnswer_in_time _ _ _ _ _ _ _ _ _ Hroom Htime Hfind).
      cbv zeta. destruct (Z.ltb_spec (Z.of_nat (currentQuestionIndex room))
                            (stunnedUntil p)); [lia|].
      by rewrite Hans.
Qed.

(** *** The deadline field and the phase *)

Lemma room_step_phase op room room' :
  room_step questions op room room' →
  (state room' = state room ∧ questionEndsAt room' = questionEndsAt room) ∨
  (state room' = QuestionPhase ∧ is_Some (questionEndsAt room')) ∨
  state room' = Results ∨ state room' = Ended.
Proof.
  destruct 1 as [room socket i p Hi | room socket nm av pid | room now sc
                | room i p a gained Hi Hfresh | room rnd type actor target k
                | room now rolls sc | room now sc].
  - by left.
  - by left.
  - rewrite startQuestion_room. simpl. case_match; simpl; eauto.
  - by left.
  - left. simpl.
    by destruct (applyPower_room questions rnd room type actor target)
      as (_ & _ & -> & _ & -> & _).
  - rewrite finalizeQuestion_room. case_match; simpl; eauto.
  - rewrite nextRound_room. simpl. case_bool_decide; simpl; [eauto|].
    rewrite startQuestion_room. simpl. case_match; simpl; eauto.
Qed.

(** C8, as the code has it.  [questionEndsAt] is null while the room is
    in the lobby and set while a question is open; nothing ever clears
    it: [finalizeQuestion] and [endGame], which move the room to the
    results and ended phases, leave the last deadline in place. *)
Theorem questionEndsAt_by_phase :
  (∀ s c room,
     reachable questions s → rooms s !! c = Some room →
     (state room = Lobby → questionEndsAt room = None) ∧
     (state room = QuestionPhase → is_Some (questionEndsAt room))) ∧
  (∀ now rolls room sc,
     questionEndsAt (finalizeQuestion questions now rolls room sc).1.1
     = questionEndsAt room) ∧
  (∀ room sc, questionEndsAt (endGame room sc).1.1 = questionEndsAt room).
Proof.
  split_and!.
  - intros s c room Hreach Hroom.
    eapply (reachable_rooms
              (λ room, (state room = Lobby → questionEndsAt room = None) ∧
                       (state room = QuestionPhase →
                        is_Some (questionEndsAt room))));
      [| |exact Hreach|exact Hroom].
    + intros c' socket. simpl. by split.
    + intros op r r' [HL HQ] Hstep.
      destruct (room_step_phase _ _ _ Hstep)
        as [[-> ->]|[[-> ?]|[-> | ->]]]; by split.
  - intros now rolls room sc. rewrite finalizeQuestion_room.
    by case_match.
  - intros room sc. by rewrite endGame_room.
Qed.

End Reachability.

(** ** Powers *)

Section Powers.

Variable questions : list Question.

Lemma players_step_ids qIndex l l' :
  Forall2 (player_step qIndex) l l' → playerId <$> l' = playerId <$> l.
Proof.
  induction 1 as [|p p' l l' (Hid & _) _ IH]; [done|].
  rewrite !fmap_cons. by f_equal.
Qed.

(** [find] returns the same position after a turn that is not a
    restart. *)
Lemma finds_step qIndex l front extra pid i p :
  Forall2 (player_step qIndex) l front →
  list_find (λ p, playerId p = pid) l = Some (i, p) →
  ∃ p', list_find (λ p, playerId p = pid) (front ++ extra) = Some (i, p') ∧
        front !! i = Some p' ∧ player_step qIndex p p'.
Proof.
  intros Hfront Hfind.
  destruct (list_find_same_ids pid l front i p) as (p' & Hf & Hl);
    [by eapply players_step_ids | done |].
  exists p'. split_and!; [|done|].
  - apply list_find_app_Some. by left.
  - apply list_find_Some in Hfind as (Hi & _).
    destruct (Forall2_lookup_l _ _ _ _ _ Hfront Hi) as (p'' & Hi' & Hstep).
    by simplify_eq.
Qed.

(** Reading a power by a key that denotes a position. *)
Lemma slot_of_nat k : slot_of (JNum (Z.of_nat k)) = Some k.
Proof.
  unfold slot_of. destruct (Z.leb_spec 0 (Z.of_nat k)); [|lia].
  by rewrite Nat2Z.id.
Qed.


Lemma powers_get_at arr i k pw :
  slot_of i = Some k → arr !! k = Some pw → powers_get arr i = PwSlot k pw.
Proof.
  destruct i as [|z|str]; simpl; [done| |].
  - destruct (0 <=? z)%Z; [|done]. intros [= ->] Hk. by rewrite Hk.
  - intros -> Hk. by rewrite Hk.
Qed.


(** The handler on a power that is available. *)
Lemma on_usePower_slot rnd c pid tid powerIndex k s room actor a power :
  rooms s !! c = Some room → finds room pid actor a →
  slot_of powerIndex = Some k →
  powers a !! k = Some power → p_used power = false →
  ∃ room2 out,
    room2 =
      (let room1 := applyPower questions rnd room (p_type power) actor
                      (resolve_target room tid actor) in
       set_players (alter (mark_used k) actor (players room1)) room1) ∧
    on_usePower questions rnd c pid tid powerIndex s =
      Done (commit c room2 (sched s) s) out (Some AckOk) ∧
    length (filter (λ e, is_PowerUsed e = true) out) = 1.
Proof.
  intros Hroom Hfind Hslot Hk Hu. unfold finds in Hfind.
  unfold on_usePower. rewrite Hroom, Hfind.
  rewrite (powers_get_at _ _ _ _ Hslot Hk), Hu.
  eexists _, _. split_and!; reflexivity.
Qed.

Lemma on_usePower_available rnd c pid tid k s room actor a power :
  rooms s !! c = Some room → finds room pid actor a →
  powers a !! k = Some power → p_used power = false →
  ∃ room2 out,
    room2 =
      (let room1 := applyPower questions rnd room (p_type power) actor
                      (resolve_target room tid actor) in
       set_players (alter (mark_used k) actor (players room1)) room1) ∧
    on_usePower questions rnd c pid tid (JNum (Z.of_nat k)) s =
      Done (commit c room2 (sched s) s) out (Some AckOk) ∧
    length (filter (λ e, is_PowerUsed e = true) out) = 1.
Proof.
  intros Hroom Hfind Hk Hu.
  by apply (on_usePower_slot _ _ _ _ _ k _ room actor a power);
    [| |apply slot_of_nat| |].
Qed.







(** C1, as the code has it.  Activating STUN while question [k] is current
    sets the target's [stunnedUntil] to [k + 1].  A player is stunned for
    the question indices strictly below the watermark: the target's
    in-time submissions are rejected as stunned while question [k] is
    still current, and a submission for question [k + 1] is not rejected
    as stunned. *)
Theorem stun_blocks_current_question rnd c pid tid k s room actor a
    target t :
  rooms s !! c = Some room →
  finds room pid actor a → finds room tid target t →
  powers a !! k = Some {| p_type := STUN; p_used := false |} →
  ∃ s1 out room1 t1,
    on_usePower questions rnd c pid (Some tid) (JNum (Z.of_nat k)) s =
      Done s1 out (Some AckOk) ∧
    rooms s1 !! c = Some room1 ∧
    currentQuestionIndex room1 = currentQuestionIndex room ∧
    finds room1 tid target t1 ∧
    stunnedUntil t1 = (Z.of_nat (currentQuestionIndex room) + 1)%Z ∧
    (∀ now ans, in_time now room1 →
       on_submitAnswer questions now c tid ans s1 =
         Done s1 [] (Some (AckError "You are stunned this question"))) ∧
    (∀ now ans s2 room2 j t2,
       rooms s2 !! c = Some room2 → finds room2 tid j t2 →
       stunnedUntil t2 = stunnedUntil t1 →
       currentQuestionIndex room2 = currentQuestionIndex room + 1 →
       on_submitAnswer questions now c tid ans s2 ≠
         Done s2 [] (Some (AckError "You are stunned this question"))).
Proof.
  intros Hroom Hactor Htarget Hk.
  destruct (on_usePower_available rnd c pid (Some tid) k s room actor a _
              Hroom Hactor Hk eq_refl) as (room2 & out & Hroom2 & Hok & _).
  assert (Hres : resolve_target room (Some tid) actor = target).
  { unfold resolve_target. unfold finds in Htarget. by rewrite Htarget. }
  rewrite Hres in Hroom2. simpl in Hroom2.
  set (ps1 := alter (set_stunnedUntil (Z.of_nat (currentQuestionIndex room) + 1))
                target (players room)) in Hroom2.
  assert (Hsteps : Forall2 (player_step (currentQuestionIndex room))
                     (players room) (players room2)).
  { rewrite Hroom2. simpl. apply players_step_mark.
    by apply players_step_alter, players_step_refl. }
  destruct (finds_step _ _ _ [] _ _ _ Hsteps Htarget) as (t1 & Hf1 & Hl1 & _).
  rewrite app_nil_r in Hf1.
  assert (Hstun : stunnedUntil t1 = (Z.of_nat (currentQuestionIndex room) + 1)%Z).
  { apply list_find_Some in Htarget as (Ht & _).
    rewrite Hroom2 in Hl1. simpl in Hl1. unfold ps1 in Hl1.
    destruct (decide (actor = target)) as [->|Hne].
    - rewrite !list_lookup_alter_eq, Ht in Hl1. by simplify_eq/=.
    - rewrite list_lookup_alter_ne, list_lookup_alter_eq, Ht in Hl1 by done.
      by simplify_eq/=. }
  assert (Hidx : currentQuestionIndex room2 = currentQuestionIndex room)
    by by rewrite Hroom2.
  exists (commit c room2 (sched s) s), out, room2, t1.
  split_and!; [done | apply commit_lookup | done | done | done | |].
  - intros now ans Htime.
    rewrite (on_submitAnswer_in_time _ _ _ _ _ _ _ _ _
               (commit_lookup _ _ _ _) Htime Hf1).
    cbv zeta. rewrite Hidx, Hstun.
    destruct (Z.ltb_spec (Z.of_nat (currentQuestionIndex room))
                (Z.of_nat (currentQuestionIndex room) + 1)); [done | lia].
  - intros now ans s2 room' j t2 Hroom' Hf2 Hst2 Hidx2.
    unfold finds in Hf2. unfold on_submitAnswer. rewrite Hroom'.
    destruct (match questionEndsAt room' with Some _ => _ | None => _ end);
      [discriminate|].
    rewrite Hf2, Hst2, Hstun, Hidx2.
    destruct (Z.ltb_spec (Z.of_nat (currentQuestionIndex room + 1))
                (Z.of_nat (currentQuestionIndex room) + 1)); [lia|].
    repeat case_match; discriminate.
Qed.

End Powers.

(** * The code on concrete runs *)

(** C1, as stated, fails.  Ann activates STUN on Bob while question 0 is
    current: Bob's [stunnedUntil] becomes 1.  When question 1, the
    immediately following one, is open, Bob's submission is accepted and
    scores 800; it is not rejected as stunned. *)
Lemma stun_does_not_block_next_question :
  currentQuestionIndex (room_after tr_results) = 0 ∧
  ack_of (step demo_questions 32000
            (PlayerUsePower 0 "ABCD" "p1" (Some "p2") (JNum 0))
            (after tr_results))
    = Some AckOk ∧
  stunnedUntil (player_after tr_stunned 1) = 1%Z ∧
  currentQuestionIndex (room_after tr_next) = 1 ∧
  stunnedUntil (player_after tr_next 1) = 1%Z ∧
  ack_of (step demo_questions 36000
            (PlayerSubmitAnswer "ABCD" "p2" (JNum 0)) (after tr_next))
    = Some (AckGained 800) ∧
  ack_of (step demo_questions 36000
            (PlayerSubmitAnswer "ABCD" "p2" (JNum 0)) (after tr_next))
    ≠ Some (AckError "You are stunned this question").
Proof. split_and!; by_eval. Qed.

(** C2, as stated, fails.  Question 0 is open until 30010; a submission
    processed at exactly 30010 is accepted and changes the score. *)
Lemma submitAnswer_at_deadline_accepted :
  questionEndsAt (room_after tr_started) = Some 30010%Z ∧
  scores_of (after tr_started) = [ ("p1", 0%Z); ("p2", 0%Z) ] ∧
  ack_of (step demo_questions 30010
            (PlayerSubmitAnswer "ABCD" "p1" (JNum 1)) (after tr_started))
    = Some (AckGained 500) ∧
  scores_of (state_of (step demo_questions 30010
                         (PlayerSubmitAnswer "ABCD" "p1" (JNum 1))
                         (after tr_started)))
    = [ ("p1", 500%Z); ("p2", 0%Z) ].
Proof. split_and!; by_eval. Qed.

(** C3.  The handle of the inter-round timeout is not stored in
    [room.timer], so nothing can cancel it.  When the host restarts the
    game while results are shown, [startQuestion] finds no handle to
    clear and schedules a deadline callback next to the inter-round one:
    the room has two pending timeouts.  When the stale inter-round
    callback then fires, it moves the restarted game on to question 1. *)
Theorem restart_leaves_two_timers :
  run demo_questions tr_restarted init = Some (after tr_restarted) ∧
  pending (sched (after tr_restarted)) =
    [ {| t_id := 1; t_room := "ABCD"; t_due := 35010; t_cb := CbNextRound |};
      {| t_id := 2; t_room := "ABCD"; t_due := 63000; t_cb := CbFinalize |} ] ∧
  timer (room_after tr_restarted) = Some 2 ∧
  currentQuestionIndex (room_after tr_restarted) = 0 ∧
  currentQuestionIndex
    (room_after (tr_restarted ++ [ (35010%Z, TimerFires 1 (λ _, 0)) ])) = 1.
Proof. split_and!; by_eval. Qed.

(** C8, as stated, fails.  After the deadline callback of question 0 the
    room is in the results phase and [questionEndsAt] still holds the
    deadline of question 0. *)
Lemma questionEndsAt_kept_in_results :
  run demo_questions tr_results init = Some (after tr_results) ∧
  state (room_after tr_results) = Results ∧
  questionEndsAt (room_after tr_results) = Some 30010%Z ∧
  questionEndsAt (room_after tr_results) ≠ None.
Proof. split_and!; by_eval. Qed.

(** C9, as stated, fails.  The string "length" is not a number and is not
    an option of the question, yet it names a property of the score
    table: the submission gains 2, the number of options. *)
Lemma submitAnswer_length_gains :
  getEffectiveScore (getQuestion demo_questions 0) (JStr "length")
    = Points 2 ∧
  ack_of (step demo_questions 20
            (PlayerSubmitAnswer "ABCD" "p1" (JStr "length"))
            (after tr_started))
    = Some (AckGained 2) ∧
  scores_of (state_of (step demo_questions 20
                         (PlayerSubmitAnswer "ABCD" "p1" (JStr "length"))
                         (after tr_started)))
    = [ ("p1", 2%Z); ("p2", 0%Z) ].
Proof. split_and!; by_eval. Qed.


(** * The theorems at concrete inputs *)


Lemma leaderboard_ranks_players_witness :
  ∃ lb pp,
    (finalizeQuestion demo_questions 31000 (λ _, 0) (demo_room demo_players)
       {| pending := []; next_id := 0 |}).2 =
      [ ("ABCD"%string, QuestionResults 0 (JNum 1) lb pp) ] ∧
    ranks_players demo_players lb.
Proof.
  apply (proj1 (leaderboard_ranks_players demo_questions 31000 (λ _, 0)
                  (demo_room demo_players)
                  {| pending := []; next_id := 0 |}) demo_q0).
  reflexivity.
Defined.

Lemma join_existing_rebinds_witness :
  avatarId (player_after tr_started 1) = "B"%string ∧
  ∃ room',
    on_join "s9" "abcd" "Zed" "B" "p1" (after tr_started) =
      Done (commit (toUpperCase "abcd") room' (sched (after tr_started))
              (after tr_started))
           (broadcastRoom room')
           (Some (AckJoined (code (room_after tr_started)) "p1")) ∧
    same_but_players (room_after tr_started) room' ∧
    length (players room') = length (players (room_after tr_started)) ∧
    ∀ j q, players (room_after tr_started) !! j = Some q →
      ∃ q', players room' !! j = Some q' ∧ same_but_socket q q' ∧
            socketId q' = if decide (j = 0) then "s9"%string else socketId q.
Proof.
  split; [reflexivity|].
  apply (join_existing_rebinds "s9" "abcd" "Zed" "B" "p1" (after tr_started)
           (room_after tr_started) 0 (player_after tr_started 0)); by_eval.
Defined.

Lemma submitAnswer_after_deadline_witness :
  on_submitAnswer demo_questions 30011 "ABCD" "p1" (JNum 1)
    (after tr_started)
    = Done (after tr_started) [] (Some (AckError "Time is up")) ∧
  on_submitAnswer demo_questions 30010 "ABCD" "p1" (JNum 1)
    (after tr_started)
    ≠ Done (after tr_started) [] (Some (AckError "Time is up")).
Proof.
  split.
  - apply (proj1 (submitAnswer_after_deadline demo_questions 30011 "ABCD"
                    "p1" (JNum 1) (after tr_started) (room_after tr_started)
                    ltac:(by_eval))).
    intros e He. vm_compute in He. injection He as <-. lia.
  - apply (proj2 (submitAnswer_after_deadline demo_questions 30010 "ABCD"
                    "p1" (JNum 1) (after tr_started) (room_after tr_started)
                    ltac:(by_eval))); by_eval.
Defined.

Lemma submitAnswer_out_of_range_witness :
  ∃ s' room' p' out,
    on_submitAnswer demo_questions 20 "ABCD" "p2" (JNum 7)
      (after tr_started) = Done s' out (Some (AckGained 0)) ∧
    rooms s' !! "ABCD"%string = Some room' ∧
    finds room' "p2" 1 p' ∧
    answers p' =
      answers (player_after tr_started 1) ++
        [ {| a_questionIndex := currentQuestionIndex (room_after tr_started);
             a_answerIndex := JNum 7; a_gained := 0 |} ] ∧
    score p' = score (player_after tr_started 1) ∧
    ∀ now' a', in_time now' room' →
      on_submitAnswer demo_questions now' "ABCD" "p2" a' s' =
        Done s' [] (Some (AckError "Already answered")).
Proof.
  apply (submitAnswer_out_of_range demo_questions 20 "ABCD" "p2" (JNum 7)
           (after tr_started) (room_after tr_started) 1
           (player_after tr_started 1) demo_q0).
  - by_eval.
  - exists 30010%Z. split_and!; by_eval.
  - by_eval.
  - by_eval.
  - intros ans Hans. vm_compute in Hans. inversion Hans.
  - by_eval.
  - intros tbl [= <-]. right. simpl. lia.
Defined.

Lemma one_answer_per_question_witness :
  NoDup (a_questionIndex <$> answers (player_after tr_answered 0)) ∧
  on_submitAnswer demo_questions 25 "ABCD" "p1" (JNum 0) (after tr_answered)
    = Done (after tr_answered) [] (Some (AckError "Already answered")).
Proof.
  pose proof (one_answer_per_question demo_questions) as [H1 H2]. split.
  - apply (H1 (after tr_answered) "ABCD"%string (room_after tr_answered)).
    + exists tr_answered. by_eval.
    + by_eval.
    + vm_compute. apply list_elem_of_here.
  - apply (H2 (after tr_answered) "ABCD"%string (room_after tr_answered) "p1"%string
             0 (player_after tr_answered 0) 25%Z (JNum 0)).
    + by_eval.
    + by_eval.
    + eexists. split; [vm_compute; apply list_elem_of_here | reflexivity].
    + exists 30010%Z. split_and!; by_eval.
    + by_eval.
Defined.


Lemma questionEndsAt_by_phase_witness :
  (state (room_after tr_started) = Lobby →
   questionEndsAt (room_after tr_started) = None) ∧
  (state (room_after tr_started) = QuestionPhase →
   is_Some (questionEndsAt (room_after tr_started))).
Proof.
  apply (proj1 (questionEndsAt_by_phase demo_questions) (after tr_started)
           "ABCD"%string (room_after tr_started)).
  - exists tr_started. by_eval.
  - by_eval.
Defined.

Lemma stun_blocks_current_question_witness :
  ∃ s1 out room1 t1,
    on_usePower demo_questions 0 "ABCD" "p1" (Some "p2"%string)
      (JNum (Z.of_nat 0)) (after tr_results) = Done s1 out (Some AckOk) ∧
    rooms s1 !! "ABCD"%string = Some room1 ∧
    currentQuestionIndex room1 = currentQuestionIndex (room_after tr_results) ∧
    finds room1 "p2" 1 t1 ∧
    stunnedUntil t1 =
      (Z.of_nat (currentQuestionIndex (room_after tr_results)) + 1)%Z ∧
    (∀ now ans, in_time now room1 →
       on_submitAnswer demo_questions now "ABCD" "p2" ans s1 =
         Done s1 [] (Some (AckError "You are stunned this question"))) ∧
    (∀ now ans s2 room2 j t2,
       rooms s2 !! "ABCD"%string = Some room2 → finds room2 "p2" j t2 →
       stunnedUntil t2 = stunnedUntil t1 →
       currentQuestionIndex room2 =
         currentQuestionIndex (room_after tr_results) + 1 →
       on_submitAnswer demo_questions now "ABCD" "p2" ans s2 ≠
         Done s2 [] (Some (AckError "You are stunned this question"))).
Proof.
  apply (stun_blocks_current_question demo_questions 0 "ABCD" "p1" "p2" 0
           (after tr_results) (room_after tr_results) 0
           (player_after tr_results 0) 1 (player_after tr_results 1));
    by_eval.
Defined.

(** * Further properties of the server *)

(** ** Numbers *)

Section Numbers.
Open Scope Z_scope.

Lemma round_double_exact z : Z.abs z ≤ 2 ^ 53 → round_double z = z.
Proof.
  intros Hz. unfold round_double.
  destruct (Z.ltb_spec (Z.abs z) (2 ^ 53)); [done|].
  assert (z = 2 ^ 53 ∨ z = - 2 ^ 53) as [-> | ->] by lia; reflexivity.
Qed.

Lemma js_add_exact a b : Z.abs (a + b) ≤ 2 ^ 53 → js_add a b = a + b.
Proof.
  intros Hab. unfold js_add.
  destruct (Z.eqb_spec b 0) as [->|_]; [lia|].
  destruct (Z.eqb_spec a 0) as [->|_]; [lia|].
  by apply round_double_exact.
Qed.

Lemma js_sub_exact a b : Z.abs (a - b) ≤ 2 ^ 53 → js_sub a b = a - b.
Proof. intros Hab. unfold js_sub. rewrite js_add_exact; lia. Qed.

(** Beyond [2^53] the result is a multiple of the spacing [2^e] of the
    doubles around [z], at most half a spacing away from [z]. *)
Lemma round_double_nearest z :
  2 ^ 53 ≤ Z.abs z →
  let e := Z.log2 (Z.abs z) - 52 in
  (2 ^ e | round_double z) ∧ 2 * Z.abs (round_double z - z) ≤ 2 ^ e.
Proof.
  intros Hz e. unfold round_double.
  destruct (Z.ltb_spec (Z.abs z) (2 ^ 53)); [lia|]. fold e.
  assert (He : 1 ≤ e).
  { unfold e. assert (53 ≤ Z.log2 (Z.abs z)); [|lia].
    apply Z.log2_le_pow2; lia. }
  assert (Hpos : 0 < 2 ^ e) by (apply Z.pow_pos_nonneg; lia).
  assert (Hhalf : 2 ^ e = 2 * 2 ^ (e - 1)).
  { rewrite <- Z.pow_succ_r by lia. f_equal. lia. }
  set (n := Z.abs z) in *.
  pose proof (Z.div_mod n (2 ^ e) ltac:(lia)) as Hdm.
  pose proof (Z.mod_pos_bound n (2 ^ e) Hpos) as Hr.
  set (q := n / 2 ^ e) in *. set (r := n mod 2 ^ e) in *.
  set (h := 2 ^ (e - 1)) in *.
  set (q' := if r <? h then q else if h <? r then q + 1
             else if Z.even q then q else q + 1).
  assert (Hq' : 2 * Z.abs (q' * 2 ^ e - n) ≤ 2 ^ e).
  { unfold q'. destruct (Z.ltb_spec r h); [nia|].
    destruct (Z.ltb_spec h r); [nia|]. destruct (Z.even q); nia. }
  split.
  - exists (Z.sgn z * q'). ring.
  - destruct (Z.abs_spec z) as [[Hz0 Hn]|[Hz0 Hn]]; fold n in Hn.
    + assert (Z.sgn z = 1) as -> by (apply Z.sgn_pos; lia).
      rewrite Z.mul_1_l. rewrite <- Hn. exact Hq'.
    + assert (Z.sgn z = -1) as -> by (apply Z.sgn_neg; lia).
      replace (-1 * (q' * 2 ^ e) - z) with (- (q' * 2 ^ e - n)) by lia.
      by rewrite Z.abs_opp.
Qed.

Lemma js_add_nearest a b :
  b ≠ 0 → 2 ^ 53 ≤ Z.abs (a + b) →
  2 * Z.abs (js_add a b - (a + b)) ≤ 2 ^ (Z.log2 (Z.abs (a + b)) - 52).
Proof.
  intros Hb Hbig. unfold js_add.
  destruct (Z.eqb_spec b 0); [done|].
  destruct (Z.eqb_spec a 0) as [->|_].
  { rewrite Z.add_0_l, Z.sub_diag. simpl.
    assert (0 < 2 ^ (Z.log2 (Z.abs b) - 52)); [|lia].
    apply Z.pow_pos_nonneg; [lia|].
    assert (53 ≤ Z.log2 (Z.abs b)); [apply Z.log2_le_pow2; lia | lia]. }
  by apply round_double_nearest.
Qed.

Lemma round_double_nonneg z : 0 ≤ z → 0 ≤ round_double z.
Proof.
  intros Hz. unfold round_double.
  destruct (Z.ltb_spec (Z.abs z) (2 ^ 53)) as [|Hge]; [done|].
  assert (0 ≤ Z.sgn z) by (destruct z; simpl; lia).
  apply Z.mul_nonneg_nonneg; [done|].
  apply Z.mul_nonneg_nonneg; [|apply Z.pow_nonneg; lia].
  assert (53 ≤ Z.log2 (Z.abs z)) by (apply Z.log2_le_pow2; lia).
  assert (0 ≤ Z.abs z / 2 ^ (Z.log2 (Z.abs z) - 52)).
  { apply Z.div_pos; [lia|]. apply Z.pow_pos_nonneg; lia. }
  repeat case_match; lia.
Qed.

Lemma js_add_nonneg a b : 0 ≤ a → 0 ≤ b → 0 ≤ js_add a b.
Proof.
  intros Ha Hb. unfold js_add. repeat case_match; try done.
  apply round_double_nonneg. lia.
Qed.

End Numbers.

(** ** One turn of the event loop, inverted *)

Section Turns.

Variable questions : list Question.

Lemma expired_false now room :
  match questionEndsAt room with
  | Some endsAt => (endsAt =? 0)%Z || (endsAt <? now)%Z
  | None => true
  end = false →
  in_time now room.
Proof.
  destruct (questionEndsAt room) as [e|] eqn:He; [|done].
  intros [H0 Hlt]%orb_false_iff. exists e.
  apply Z.eqb_neq in H0. apply Z.ltb_ge in Hlt. done.
Qed.

Lemma existsb_avatar_free av (l : list Player) :
  existsb (λ p, bool_decide (avatarId p = av)) l = false →
  ∀ p, p ∈ l → avatarId p ≠ av.
Proof.
  intros Hex p Hp Hav. apply not_true_iff_false in Hex. apply Hex.
  apply existsb_exists. exists p. split; [by apply list_elem_of_In|].
  by apply bool_decide_eq_true.
Qed.

(** What a turn does to the registry and to the timer table: nothing (a
    rejected request), the removal of a timeout whose room is not
    registered, the registration of a new room, or one [turn] of one
    room. *)
Lemma step_turn now i s s' out ack :
  step questions now i s = Some (Done s' out ack) →
  (clock s ≤ now)%Z ∧ clock s' = now ∧
  ((rooms s' = rooms s ∧
    (sched s' = sched s ∨
     ∃ t, t ∈ pending (sched s) ∧ rooms s !! t_room t = None)) ∨
   (∃ socket c,
      i = HostCreateRoom socket c ∧ rooms s !! c = None ∧
      rooms s' = <[c := fresh_room c socket]> (rooms s) ∧
      sched s' = sched s) ∨
   (∃ c room room' sc',
      rooms s !! c = Some room ∧ rooms s' = <[c := room']> (rooms s) ∧
      sched s' = sc' ∧ turn questions now (sched s) c i room room' sc')).
Proof.
  unfold step. destruct (Z.ltb_spec now (clock s)) as [|Hclock]; [done|].
  intros Hstep. split; [done|]. revert Hstep.
  destruct i as [socket newCode | socket roomCode nm av pid | roomCode
                | roomCode pid a | rnd roomCode pid tid k | id rolls];
    cbn [rooms set_clock sched clock].
  - (* host:createRoom *)
    destruct (rooms s !! newCode) eqn:Hnew; [done|].
    intros [= <- <- <-]. split; [done|]. right; left.
    exists socket, newCode. split_and!; [done..| |done].
    simpl. apply insert_insert_eq.
  - (* room:join *)
    unfold on_join. cbn [rooms set_clock sched clock].
    destruct (rooms s !! toUpperCase roomCode) as [room|] eqn:Hroom;
      [|intros [= <- <- <-]; auto].
    destruct (list_find _ (players room)) as [[j p]|] eqn:Hfind.
    + intros [= <- <- <-]. split; [done|]. right; right.
      eexists _, room, _, _. split_and!; [done..|]. by apply T_rebind.
    + destruct (existsb _ (players room)) eqn:Hav;
        intros [= <- <- <-]; [auto|]. split; [done|]. right; right.
      eexists _, room, _, _. split_and!; [done..|].
      apply T_newPlayer; [done..|]. by apply existsb_avatar_free.
  - (* host:startGame *)
    unfold on_startGame. cbn [rooms set_clock sched clock].
    destruct (rooms s !! roomCode) as [room|] eqn:Hroom;
      [|intros [= <- <- <-]; auto].
    destruct (startQuestion _ _ _ _) as [[room' sc'] out'] eqn:Hstart.
    change (players (set_currentQuestionIndex 0 room)) with (players room)
      in Hstart.
    intros [= <- <- <-]. split; [done|]. right; right.
    exists roomCode, room, room', sc'. split_and!; [done..|].
    rewrite (eq_sym (f_equal (λ x, x.1.1) Hstart : _ = room')).
    rewrite (eq_sym (f_equal (λ x, x.1.2) Hstart : _ = sc')).
    apply T_startGame.
  - (* player:submitAnswer *)
    unfold on_submitAnswer. cbn [rooms set_clock sched clock].
    destruct (rooms s !! roomCode) as [room|] eqn:Hroom;
      [|intros [= <- <- <-]; auto].
    destruct (match questionEndsAt room with Some _ => _ | None => _ end)
      eqn:Hexp; [intros [= <- <- <-]; auto|].
    destruct (list_find _ (players room)) as [[j p]|] eqn:Hfind;
      [|intros [= <- <- <-]; auto].
    destruct (Z.ltb_spec (Z.of_nat (currentQuestionIndex room))
                (stunnedUntil p)); [intros [= <- <- <-]; auto|].
    destruct (existsb _ (answers p)) eqn:Hans; [intros [= <- <- <-]; auto|].
    destruct (getQuestion _ _) as [q|] eqn:Hq; [|intros [= <- <- <-]; auto].
    destruct (getEffectiveScore (Some q) a) as [gained|] eqn:Hg; [|done].
    intros [= <- <- <-]. split; [done|]. right; right.
    eexists roomCode, room, _, _. split_and!; [done..|].
    eapply T_submit; [by apply expired_false | done | done | | done | done].
    by apply existsb_not_answered.
  - (* player:usePower *)
    unfold on_usePower. cbn [rooms set_clock sched clock].
    destruct (rooms s !! roomCode) as [room|] eqn:Hroom;
      [|intros [= <- <- <-]; auto].
    destruct (list_find _ (players room)) as [[actor a]|] eqn:Hfind;
      [|intros [= <- <- <-]; auto].
    destruct (powers_get (powers a) k) as [|k' power|n|] eqn:Hk;
      [intros [= <- <- <-]; auto| |
       destruct (n =? 0)%Z; intros [= <- <- <-]; auto|done].
    destruct (p_used power) eqn:Hu; [intros [= <- <- <-]; auto|].
    intros [= <- <- <-]. split; [done|]. right; right.
    eexists roomCode, room, _, _. split_and!; [done..|].
    by eapply T_usePower.
  - (* a timeout fires *)
    destruct (list_find _ (pending (sched s))) as [[j t]|] eqn:Hfind;
      [|done].
    destruct (Z.ltb_spec now (t_due t)); [done|]. unfold fire.
    cbn [rooms set_sched set_clock sched clock].
    destruct (rooms s !! t_room t) as [room|] eqn:Hroom;
      [|intros [= <- <- <-]; split; [done|]; left; split; [done|]; right;
        apply list_find_Some in Hfind as (Hj & _);
        eauto using list_elem_of_lookup_2].
    destruct (t_cb t) eqn:Hcb.
    + destruct (finalizeQuestion _ _ _ _ _) as [[room' sc'] out'] eqn:Hfin.
      intros [= <- <- <-]. split; [done|]. right; right.
      exists (t_room t), room, room', sc'. split_and!; [done..|].
      rewrite (eq_sym (f_equal (λ x, x.1.1) Hfin : _ = room')).
      rewrite (eq_sym (f_equal (λ x, x.1.2) Hfin : _ = sc')).
      by eapply T_finalize.
    + destruct (nextRound _ _ _ _) as [[room' sc'] out'] eqn:Hnext.
      intros [= <- <- <-]. split; [done|]. right; right.
      exists (t_room t), room, room', sc'. split_and!; [done..|].
      rewrite (eq_sym (f_equal (λ x, x.1.1) Hnext : _ = room')).
      rewrite (eq_sym (f_equal (λ x, x.1.2) Hnext : _ = sc')).
      by eapply T_nextRound.
Qed.

End Turns.

(** ** Timers and phases *)

Section Timing.

Variable questions : list Question.

Lemma elem_of_clearTimeout t h sc :
  t ∈ pending (clearTimeout h sc) ↔ t ∈ pending sc ∧ t_id t ≠ h.
Proof. unfold clearTimeout. simpl. rewrite list_elem_of_filter. tauto. Qed.

Lemma elem_of_setTimeout t c cb now d sc :
  t ∈ pending (setTimeout c cb now d sc).2 ↔
  t ∈ pending sc ∨
  t = {| t_id := next_id sc; t_room := c; t_due := (now + d)%Z;
         t_cb := cb |}.
Proof.
  unfold setTimeout. simpl. rewrite elem_of_app, list_elem_of_singleton. tauto.
Qed.

Lemma table_ok_clear h sc : table_ok sc → table_ok (clearTimeout h sc).
Proof.
  intros [Hlt Hnd]. split.
  - intros t [Ht _]%elem_of_clearTimeout. simpl. auto.
  - unfold clearTimeout. simpl. clear Hlt.
    induction (pending sc) as [|t l IH]; [constructor|].
    rewrite fmap_cons in Hnd. apply NoDup_cons in Hnd as [Hnin Hnd].
    rewrite filter_cons. case_decide; [|auto].
    rewrite fmap_cons. apply NoDup_cons. split; [|auto].
    intros (t' & Heq & Hin%list_elem_of_filter)%list_elem_of_fmap.
    apply Hnin. apply list_elem_of_fmap. exists t'. tauto.
Qed.

Lemma table_ok_set c cb now d sc :
  table_ok sc → table_ok (setTimeout c cb now d sc).2.
Proof.
  intros [Hlt Hnd]. split.
  - intros t [Ht| ->]%elem_of_setTimeout; simpl; [|lia].
    specialize (Hlt t Ht). lia.
  - unfold setTimeout. simpl. rewrite fmap_app. apply NoDup_app.
    split_and!; [done| |apply NoDup_singleton].
    intros id (t & -> & Ht)%list_elem_of_fmap. simpl.
    rewrite list_elem_of_singleton. specialize (Hlt t Ht). lia.
Qed.

(** Two pending timeouts with the same handle are the same timeout. *)
Lemma table_ok_inj sc t1 t2 :
  table_ok sc → t1 ∈ pending sc → t2 ∈ pending sc → t_id t1 = t_id t2 →
  t1 = t2.
Proof.
  intros [_ Hnd] [i1 H1]%list_elem_of_lookup [i2 H2]%list_elem_of_lookup Hid.
  assert (i1 = i2).
  { eapply NoDup_lookup; [exact Hnd|..].
    - by rewrite list_lookup_fmap, H1.
    - rewrite list_lookup_fmap, H2. simpl. by rewrite Hid. }
  subst. congruence.
Qed.

(** *** The timer table after the room-level operations *)

Lemma endGame_sched room sc :
  (endGame room sc).1.2 =
    match timer room with Some h => clearTimeout h sc | None => sc end.
Proof. unfold endGame. simpl. destruct (timer room); reflexivity. Qed.

Lemma startQuestion_sched now room sc :
  (startQuestion questions now room sc).1.2 =
    let sc1 :=
      match timer room with Some h => clearTimeout h sc | None => sc end in
    match getQuestion questions (currentQuestionIndex room) with
    | None => sc1
    | Some _ =>
        (setTimeout (code room) CbFinalize now (durationMs + 1000) sc1).2
    end.
Proof.
  unfold startQuestion.
  destruct (timer room) eqn:Ht; simpl;
    (destruct (getQuestion questions (currentQuestionIndex room));
     [reflexivity | rewrite endGame_sched; simpl; by rewrite ?Ht]).
Qed.

Lemma finalizeQuestion_sched now rolls room sc :
  (finalizeQuestion questions now rolls room sc).1.2 =
    match getQuestion questions (currentQuestionIndex room) with
    | None => sc
    | Some _ => (setTimeout (code room) CbNextRound now 4000 sc).2
    end.
Proof.
  unfold finalizeQuestion. simpl.
  by destruct (getQuestion questions (currentQuestionIndex room)).
Qed.

Lemma nextRound_sched now room sc :
  (nextRound questions now room sc).1.2 =
    if bool_decide (length questions ≤ currentQuestionIndex room + 1)
    then match timer room with Some h => clearTimeout h sc | None => sc end
    else (startQuestion questions now
            (set_currentQuestionIndex (currentQuestionIndex room + 1) room)
            sc).1.2.
Proof.
  unfold nextRound. simpl. case_bool_decide; [by rewrite endGame_sched|].
  by destruct (startQuestion _ _ _ _) as [[? ?] ?].
Qed.

(** *** Preservation of [well_timed] *)

(** The registry reasoning, once: a turn that replaces the room under
    [c] and touches only that room's timeouts keeps the server well
    timed when the new room and its timeouts are consistent. *)
Lemma well_timed_update s s' c room room' now :
  well_timed questions s →
  rooms s !! c = Some room → (clock s ≤ now)%Z →
  rooms s' = <[c := room']> (rooms s) → clock s' = now →
  code room' = c →
  table_ok (sched s') →
  (∀ t, t_room t ≠ c → (t ∈ pending (sched s') ↔ t ∈ pending (sched s))) →
  (∀ t, t ∈ pending (sched s') → t_room t = c → t_cb t = CbFinalize →
     timer room' = Some (t_id t) ∧ state room' = QuestionPhase ∧
     questionEndsAt room' = Some (t_due t - 1000)%Z) →
  (∀ h, timer room' = Some h →
     ∃ t, t ∈ pending (sched s') ∧ t_id t = h ∧ t_room t = c ∧
          t_cb t = CbFinalize) →
  (state room' = QuestionPhase →
     currentQuestionIndex room' < length questions ∧
     is_Some (timer room')) →
  (state room' = Results →
     currentQuestionIndex room' < length questions ∧
     (∃ e, questionEndsAt room' = Some e ∧ (e + 1000 ≤ now)%Z) ∧
     ∃ t, t ∈ pending (sched s') ∧ t_room t = c ∧ t_cb t = CbNextRound) →
  well_timed questions s'.
Proof.
  intros (W1 & W2 & W3 & W7 & W4 & W8 & W5 & W6) Hroom Hclock Hrooms Hnow
    Hcode [T1 T2] Hother Hown Hheld Hq Hr.
  unfold well_timed. rewrite Hrooms, Hnow. split_and!; try done.
  - intros c' r. rewrite lookup_insert. case_decide; [|by apply W1].
    intros [= <-]. by subst.
  - intros t Ht. destruct (decide (t_room t = c)) as [->|Hne].
    + rewrite lookup_insert_eq. eauto.
    + rewrite lookup_insert_ne by done. apply W7. by apply Hother.
  - intros t r Ht Hcb. destruct (decide (t_room t = c)) as [Heq|Hne].
    + rewrite Heq, lookup_insert_eq. intros [= <-]. by apply Hown.
    + rewrite lookup_insert_ne by done. apply W4; [|done]. by apply Hother.
  - intros c' r h. rewrite lookup_insert. case_decide as Hc.
    + intros [= <-]. subst c'. apply Hheld.
    + intros Hr' Hh. destruct (W8 c' r h Hr' Hh) as (t & Ht & ? & Htc & ?).
      exists t. split_and!; try done. apply Hother; [|done]. congruence.
  - intros c' r. rewrite lookup_insert. case_decide as Hc.
    + intros [= <-]. apply Hq.
    + apply (W5 c').
  - intros c' r. rewrite lookup_insert. case_decide as Hc.
    + intros [= <-]. subst c'. apply Hr.
    + intros Hr' Hst.
      destruct (W6 c' r Hr' Hst) as (? & (e & ? & ?) & t & Ht & Htc & ?).
      split_and!; [done | exists e; split; [done | lia] |].
      exists t. split_and!; try done. apply Hother; [|done]. congruence.
Qed.

(** A turn that changes only the players of the room. *)
Lemma well_timed_players s s' c room room' now :
  well_timed questions s →
  rooms s !! c = Some room → (clock s ≤ now)%Z →
  rooms s' = <[c := room']> (rooms s) → clock s' = now →
  sched s' = sched s →
  same_but_players room room' →
  well_timed questions s'.
Proof.
  intros HW Hroom Hclock Hrooms Hnow Hsched (Ec & _ & Es & Ei & Ee & Et).
  pose proof HW as (W1 & W2 & W3 & W7 & W4 & W8 & W5 & W6).
  apply (well_timed_update s s' c room room' now);
    [done | done | done | done | done | ..]; rewrite ?Hsched.
  - rewrite Ec. exact (W1 c room Hroom).
  - by split.
  - done.
  - intros t Ht Htc Hcb. rewrite Et, Es, Ee. apply W4; [done..|].
    by rewrite Htc.
  - intros h. rewrite Et. by apply W8.
  - rewrite Es, Ei, Et. by apply (W5 c).
  - rewrite Es, Ei, Ee. intros Hst.
    destruct (W6 c room Hroom Hst) as (? & (e & ? & ?) & ?).
    split_and!; [done | exists e; split; [done | lia] | done].
Qed.

(** Clearing the handle a room holds removes the pending deadline
    callback of that room and nothing else. *)
Lemma clear_room_timer s c room sc0 :
  well_timed questions s → rooms s !! c = Some room →
  table_ok sc0 →
  (∀ t, t ∈ pending sc0 → t ∈ pending (sched s)) →
  (∀ t, t_room t ≠ c → t ∈ pending (sched s) → t ∈ pending sc0) →
  let sc1 :=
    match timer room with Some h => clearTimeout h sc0 | None => sc0 end in
  table_ok sc1 ∧ next_id sc1 = next_id sc0 ∧
  (∀ t, t ∈ pending sc1 → t ∈ pending (sched s)) ∧
  (∀ t, t_room t ≠ c → t ∈ pending (sched s) → t ∈ pending sc1) ∧
  (∀ t, t ∈ pending sc1 → t_room t = c → t_cb t ≠ CbFinalize).
Proof.
  intros (W1 & W2 & W3 & W7 & W4 & W8 & W5 & W6) Hroom Htab Hsub Hoth.
  destruct (timer room) as [h|] eqn:Hh; simpl.
  - split_and!; [by apply table_ok_clear | done | ..].
    + intros t [Ht _]%elem_of_clearTimeout. auto.
    + intros t Hne Ht. apply elem_of_clearTimeout. split; [auto|].
      intros Hid. destruct (W8 c room h Hroom Hh) as (tc & Htc & Hidc & Hrc & _).
      assert (t = tc) by (eapply (table_ok_inj (sched s)); [done..|congruence]).
      congruence.
    + intros t [Ht Hid]%elem_of_clearTimeout Htc Hcb.
      destruct (W4 t room (Hsub t Ht) Hcb) as (Hti & _); [by rewrite Htc|].
      congruence.
  - split_and!; try done.
    intros t Ht Htc Hcb.
    destruct (W4 t room (Hsub t Ht) Hcb) as (Hti & _); [by rewrite Htc|].
    congruence.
Qed.

(** The game of the room ends: [endGame], or [startQuestion] past the
    end of the catalog. *)
Lemma well_timed_end s s' c room room0 sc0 now :
  well_timed questions s → rooms s !! c = Some room → (clock s ≤ now)%Z →
  table_ok sc0 →
  (∀ t, t ∈ pending sc0 → t ∈ pending (sched s)) →
  (∀ t, t_room t ≠ c → t ∈ pending (sched s) → t ∈ pending sc0) →
  code room0 = code room → timer room0 = timer room →
  rooms s' = <[c := set_timer None (set_state Ended room0)]> (rooms s) →
  clock s' = now →
  sched s' =
    match timer room0 with Some h => clearTimeout h sc0 | None => sc0 end →
  well_timed questions s'.
Proof.
  intros HW Hroom Hclock Htab Hsub Hoth Hcode Htimer Hrooms Hnow Hsched.
  destruct (clear_room_timer s c room sc0 HW Hroom Htab Hsub Hoth)
    as (Htab1 & _ & Hsub1 & Hoth1 & Hown1).
  rewrite <- Htimer, <- Hsched in Htab1, Hsub1, Hoth1, Hown1.
  pose proof HW as (W1 & _).
  eapply (well_timed_update s s' c room _ now);
    [done | done | done | exact Hrooms | done | ..].
  - simpl. rewrite Hcode. exact (W1 c room Hroom).
  - done.
  - intros t Hne. split; [apply Hsub1 | by apply Hoth1].
  - intros t Ht Htc Hcb. by destruct (Hown1 t Ht Htc).
  - done.
  - done.
  - done.
Qed.

(** A question starts in the room: [startQuestion]. *)
Lemma well_timed_start s s' c room room0 sc0 now :
  well_timed questions s → rooms s !! c = Some room → (clock s ≤ now)%Z →
  table_ok sc0 →
  (∀ t, t ∈ pending sc0 → t ∈ pending (sched s)) →
  (∀ t, t_room t ≠ c → t ∈ pending (sched s) → t ∈ pending sc0) →
  code room0 = code room → timer room0 = timer room →
  rooms s' = <[c := (startQuestion questions now room0 sc0).1.1]> (rooms s) →
  clock s' = now →
  sched s' = (startQuestion questions now room0 sc0).1.2 →
  well_timed questions s'.
Proof.
  intros HW Hroom Hclock Htab Hsub Hoth Hcode Htimer Hrooms Hnow Hsched.
  rewrite startQuestion_room in Hrooms. rewrite startQuestion_sched in Hsched.
  cbv zeta in Hsched.
  destruct (getQuestion questions (currentQuestionIndex room0)) as [q|] eqn:Hq;
    [|by eapply well_timed_end].
  destruct (clear_room_timer s c room sc0 HW Hroom Htab Hsub Hoth)
    as (Htab1 & Hn1 & Hsub1 & Hoth1 & Hown1).
  rewrite <- Htimer in Htab1, Hn1, Hsub1, Hoth1, Hown1.
  pose proof HW as (W1 & _).
  assert (Hc0 : code room0 = c) by (rewrite Hcode; exact (W1 c room Hroom)).
  eapply (well_timed_update s s' c room _ now);
    [done | done | done | exact Hrooms | done | ..]; rewrite ?Hsched.
  - done.
  - by apply table_ok_set.
  - intros t Hne. rewrite elem_of_setTimeout. split.
    + intros [Ht| ->]; [auto|]. simpl in Hne. congruence.
    + intros Ht. left. by apply Hoth1.
  - intros t [Ht| ->]%elem_of_setTimeout Htc Hcb.
    + by destruct (Hown1 t Ht Htc).
    + simpl. rewrite Hn1. split_and!; [done..|].
      f_equal. unfold durationMs. lia.
  - simpl. intros h [= <-]. eexists. split; [apply elem_of_setTimeout; by right|].
    simpl. by rewrite Hn1.
  - simpl. intros _. split; [|eauto].
    unfold getQuestion in Hq.
    destruct (questions !! currentQuestionIndex room0) eqn:Hl; [|done].
    by eapply lookup_lt_Some.
  - done.
Qed.

(** The deadline callback of the room runs: [finalizeQuestion]. *)
Lemma well_timed_finalize s s' c room t0 rolls now :
  well_timed questions s → rooms s !! c = Some room → (clock s ≤ now)%Z →
  t0 ∈ pending (sched s) → t_room t0 = c → t_cb t0 = CbFinalize →
  (t_due t0 ≤ now)%Z →
  rooms s' =
    <[c := (finalizeQuestion questions now rolls room
              (clearTimeout (t_id t0) (sched s))).1.1]> (rooms s) →
  clock s' = now →
  sched s' =
    (finalizeQuestion questions now rolls room
       (clearTimeout (t_id t0) (sched s))).1.2 →
  well_timed questions s'.
Proof.
  intros HW Hroom Hclock Ht0 Hc0 Hcb0 Hdue Hrooms Hnow Hsched.
  pose proof HW as (W1 & W2 & W3 & W7 & W4 & W8 & W5 & W6).
  assert (Htab : table_ok (sched s)) by by split.
  destruct (W4 t0 room Ht0 Hcb0) as (Htimer & Hstate & Hends);
    [by rewrite Hc0|].
  destruct (W5 c room Hroom Hstate) as (Hidx & _).
  rewrite finalizeQuestion_room in Hrooms.
  rewrite finalizeQuestion_sched in Hsched.
  destruct (lookup_lt_is_Some_2 _ _ Hidx) as [q0 Hq0].
  rewrite (getQuestion_Some _ _ _ Hq0) in Hrooms, Hsched.
  eapply (well_timed_update s s' c room _ now);
    [done | done | done | exact Hrooms | done | ..]; rewrite ?Hsched.
  - simpl. exact (W1 c room Hroom).
  - by apply table_ok_set, table_ok_clear.
  - intros t Hne. rewrite elem_of_setTimeout, elem_of_clearTimeout. split.
    + intros [[Ht _]| ->]; [done|]. simpl in Hne.
      by rewrite (W1 c room Hroom) in Hne.
    + intros Ht. left. split; [done|]. intros Hid.
      assert (t = t0) by by eapply (table_ok_inj (sched s)).
      congruence.
  - intros t [Ht| ->]%elem_of_setTimeout Htc Hcb; [|done].
    apply elem_of_clearTimeout in Ht as [Ht Hid'].
    destruct (W4 t room Ht Hcb) as (Hti & _); [by rewrite Htc|]. congruence.
  - done.
  - done.
  - intros _. split_and!; [exact Hidx | |].
    + eexists. split; [exact Hends | lia].
    + eexists. split; [apply elem_of_setTimeout; by right|]. simpl.
      split; [exact (W1 c room Hroom) | done].
Qed.

Lemma well_timed_clock s s' :
  well_timed questions s →
  rooms s' = rooms s → sched s' = sched s → (clock s ≤ clock s')%Z →
  well_timed questions s'.
Proof.
  intros (W1 & W2 & W3 & W7 & W4 & W8 & W5 & W6) Hr Hs Hc.
  unfold well_timed. rewrite Hr, Hs. split_and!; try done.
  intros c room Hroom Hst.
  destruct (W6 c room Hroom Hst) as (? & (e & ? & ?) & ?).
  split_and!; [done | exists e; split; [done | lia] | done].
Qed.

Lemma well_timed_create s s' c socket :
  well_timed questions s → rooms s !! c = None →
  rooms s' = <[c := fresh_room c socket]> (rooms s) →
  sched s' = sched s → (clock s ≤ clock s')%Z →
  well_timed questions s'.
Proof.
  intros (W1 & W2 & W3 & W7 & W4 & W8 & W5 & W6) Hnew Hr Hs Hc.
  assert (Hpend : ∀ t, t ∈ pending (sched s) → t_room t ≠ c).
  { intros t Ht Htc. destruct (W7 t Ht) as [r Hr']. congruence. }
  unfold well_timed. rewrite Hr, Hs. split_and!; try done.
  - intros c' r. rewrite lookup_insert. case_decide; [|by apply W1].
    by intros [= <-].
  - intros t Ht. rewrite lookup_insert_ne by (by apply not_eq_sym, Hpend).
    by apply W7.
  - intros t r Ht Hcb.
    rewrite lookup_insert_ne by (by apply not_eq_sym, Hpend). by apply W4.
  - intros c' r h. rewrite lookup_insert. case_decide; [|by apply W8].
    by intros [= <-].
  - intros c' r. rewrite lookup_insert. case_decide; [|by apply W5].
    by intros [= <-].
  - intros c' r. rewrite lookup_insert. case_decide; [by intros [= <-]|].
    intros Hroom Hst.
    destruct (W6 c' r Hroom Hst) as (? & (e & ? & ?) & ?).
    split_and!; [done | exists e; split; [done | lia] | done].
Qed.

(** Every turn keeps the server well timed. *)
Lemma step_well_timed now i s s' out ack :
  well_timed questions s →
  step questions now i s = Some (Done s' out ack) →
  well_timed questions s'.
Proof.
  intros HW Hstep.
  destruct (step_turn questions _ _ _ _ _ _ Hstep) as (Hclock & Hnow & Hcase).
  pose proof HW as (W1 & W2 & W3 & W7 & W4 & W8 & W5 & W6).
  assert (Htab : table_ok (sched s)) by by split.
  destruct Hcase as [[Hr [Hs|(t & Ht & Hnone)]]
                    |[(socket & c & _ & Hnew & Hr & Hs)
                     |(c & room & room' & sc' & Hroom & Hr & Hs & Hturn)]].
  - apply (well_timed_clock s); [done..|lia].
  - destruct (W7 t Ht) as [r Hr']. congruence.
  - apply (well_timed_create s s' c socket); [done..|lia].
  - destruct Hturn as [socket roomCode nm av pid room i p Hc Hfind
                      | socket roomCode nm av pid room Hc Hfind Hav
                      | room
                      | pid a room i p q gained Htime Hfind Hstun Hfresh Hq Hg
                      | rnd pid tid powerIndex k room actor a power Hfind Hk Hu
                      | id rolls j t room Hfind Hdue Hc Hcb
                      | id rolls j t room Hfind Hdue Hc Hcb].
    + eapply (well_timed_players s s' c room _ now);
        [done | done | done | exact Hr | done | done | by repeat split].
    + eapply (well_timed_players s s' c room _ now);
        [done | done | done | exact Hr | done | done | by repeat split].
    + eapply (well_timed_start s s' c room _ (sched s) now);
        [done | done | done | done | done | done | | | exact Hr | done
        | exact Hs]; done.
    + eapply (well_timed_players s s' c room _ now);
        [done | done | done | exact Hr | done | done | by repeat split].
    + eapply (well_timed_players s s' c room _ now);
        [done | done | done | exact Hr | done | done |].
      destruct (applyPower_room questions rnd room (p_type power) actor
                  (resolve_target room tid actor)) as (? & ? & ? & ? & ? & ?).
      by repeat split.
    + apply list_find_Some in Hfind as (Hj & <- & _).
      apply list_elem_of_lookup_2 in Hj.
      by apply (well_timed_finalize s s' c room t rolls now).
    + apply list_find_Some in Hfind as (Hj & <- & _).
      apply list_elem_of_lookup_2 in Hj.
      rewrite nextRound_room in Hr. rewrite nextRound_sched in Hs.
      cbv zeta in Hr.
      assert (Hsub : ∀ t', t' ∈ pending (clearTimeout (t_id t) (sched s)) →
                           t' ∈ pending (sched s))
        by (by intros t' [? _]%elem_of_clearTimeout).
      assert (Hoth : ∀ t', t_room t' ≠ c → t' ∈ pending (sched s) →
                           t' ∈ pending (clearTimeout (t_id t) (sched s))).
      { intros t' Hne Ht'. apply elem_of_clearTimeout. split; [done|].
        intros Hid. assert (t' = t) by by eapply (table_ok_inj (sched s)).
        congruence. }
      case_bool_decide.
      * eapply (well_timed_end s s' c room _ _ now);
          [done | done | done | by apply table_ok_clear | exact Hsub
          | exact Hoth | | | exact Hr | done | exact Hs]; done.
      * eapply (well_timed_start s s' c room _ _ now);
          [done | done | done | by apply table_ok_clear | exact Hsub
          | exact Hoth | | | exact Hr | done | exact Hs]; done.
Qed.

Lemma reachable_well_timed s :
  reachable questions s → well_timed questions s.
Proof.
  intros [tr Hrun].
  eapply (run_preserves questions (well_timed questions)); [| |exact Hrun].
  - intros. by eapply step_well_timed.
  - unfold well_timed, init. simpl. split_and!; try done.
    all: try constructor.
    all: intros t; intros; by match goal with
                              | H : _ ∈ [] |- _ => apply elem_of_nil in H
                              end.
Qed.

(** Timeouts with pairwise distinct handles that all carry the same
    handle are at most one. *)
Lemma same_handle_length (l : list Timeout) h :
  NoDup (t_id <$> l) → (∀ t, t ∈ l → t_id t = h) → length l ≤ 1.
Proof.
  destruct l as [|t1 [|t2 l]]; [simpl; lia | simpl; lia |].
  intros Hnd Hall. exfalso.
  rewrite !fmap_cons in Hnd. apply NoDup_cons in Hnd as [Hnin _].
  apply Hnin. rewrite (Hall t1), <- (Hall t2).
  - apply list_elem_of_here.
  - apply list_elem_of_further, list_elem_of_here.
  - apply list_elem_of_here.
Qed.

Lemma NoDup_fmap_filter (P : Timeout → Prop) `{!∀ t, Decision (P t)}
    (l : list Timeout) :
  NoDup (t_id <$> l) → NoDup (t_id <$> filter P l).
Proof.
  induction l as [|t l IH]; [done|].
  rewrite fmap_cons. intros [Hnin Hnd]%NoDup_cons.
  rewrite filter_cons. case_decide; [|auto].
  rewrite fmap_cons. apply NoDup_cons. split; [|auto].
  intros (t' & Heq & Hin%list_elem_of_filter)%list_elem_of_fmap.
  apply Hnin. apply list_elem_of_fmap. exists t'. tauto.
Qed.

(** The deadline callbacks of a room in a well-timed state. *)
Lemma deadline_timers_facts s c room :
  well_timed questions s → rooms s !! c = Some room →
  length (deadline_timers s c) ≤ 1 ∧
  ∀ t, t ∈ deadline_timers s c →
    timer room = Some (t_id t) ∧ state room = QuestionPhase ∧
    questionEndsAt room = Some (t_due t - 1000)%Z.
Proof.
  intros (W1 & W2 & W3 & W7 & W4 & W8 & W5 & W6) Hroom.
  assert (Hall : ∀ t, t ∈ deadline_timers s c →
            timer room = Some (t_id t) ∧ state room = QuestionPhase ∧
            questionEndsAt room = Some (t_due t - 1000)%Z).
  { intros t (Ht & Hin)%list_elem_of_filter. destruct Ht as [Htc Hcb].
    apply W4; [done..|]. by rewrite Htc. }
  split; [|done].
  destruct (timer room) as [h|] eqn:Hh.
  - apply (same_handle_length _ h).
    + by apply NoDup_fmap_filter.
    + intros t Ht. destruct (Hall t Ht) as [Hid _]. congruence.
  - destruct (deadline_timers s c) as [|t l] eqn:Hl; simpl; [lia|].
    destruct (Hall t) as [Hid _]; [apply list_elem_of_here | done].
Qed.

(** X1.  In every reachable state a room has at most one pending deadline
    callback; the room holds its handle, is in the question phase, and
    the callback is due exactly one second after the question's
    deadline. *)
Theorem one_deadline_timer s c room :
  reachable questions s → rooms s !! c = Some room →
  length (deadline_timers s c) ≤ 1 ∧
  ∀ t, t ∈ deadline_timers s c →
    timer room = Some (t_id t) ∧ state room = QuestionPhase ∧
    questionEndsAt room = Some (t_due t - 1000)%Z.
Proof.
  intros Hreach Hroom.
  by apply deadline_timers_facts; [apply reachable_well_timed|].
Qed.

(** X2.  The game of a room never stalls: in every reachable state a room
    in the question phase has its deadline callback pending, due one
    second after the deadline, and a room showing results has an
    inter-round callback pending. *)
Theorem game_never_stalls s c room :
  reachable questions s → rooms s !! c = Some room →
  (state room = QuestionPhase →
     ∃ t, deadline_timers s c = [t] ∧ timer room = Some (t_id t) ∧
          questionEndsAt room = Some (t_due t - 1000)%Z) ∧
  (state room = Results → round_timers s c ≠ []).
Proof.
  intros Hreach Hroom.
  pose proof (reachable_well_timed s Hreach) as Hwt.
  destruct (deadline_timers_facts s c room Hwt Hroom) as [Hlen Hall].
  destruct Hwt as (W1 & W2 & W3 & W7 & W4 & W8 & W5 & W6).
  split.
  - intros Hst. destruct (W5 c room Hroom Hst) as (_ & h & Hh).
    destruct (W8 c room h Hroom Hh) as (t & Ht & Hid & Htc & Hcb).
    assert (Hin : t ∈ deadline_timers s c)
      by (apply list_elem_of_filter; by repeat split).
    destruct (deadline_timers s c) as [|t1 [|t2 l]] eqn:Hl.
    + by apply elem_of_nil in Hin.
    + apply list_elem_of_singleton in Hin as ->. exists t1.
      destruct (Hall t1) as (? & _ & ?); [apply list_elem_of_here | done].
    + simpl in Hlen. lia.
  - intros Hst Hnil. destruct (W6 c room Hroom Hst) as (_ & _ & t & Ht & Htc & Hcb).
    assert (Hin : t ∈ round_timers s c)
      by (apply list_elem_of_filter; by repeat split).
    rewrite Hnil in Hin. by apply elem_of_nil in Hin.
Qed.

(** X3.  Rooms are registered under their own code, and every pending
    timeout closes over a registered room. *)
Theorem registry_keys_are_codes s :
  reachable questions s →
  (∀ c room, rooms s !! c = Some room → code room = c) ∧
  (∀ t, t ∈ pending (sched s) → is_Some (rooms s !! t_room t)).
Proof.
  intros Hreach.
  destruct (reachable_well_timed s Hreach) as (W1 & _ & _ & W7 & _). done.
Qed.

End Timing.

(** ** Invariants of the rooms *)

Section RoomInvariants.

Variable questions : list Question.

(** A property of rooms that fresh rooms have and every [turn] preserves
    holds of every room of every reachable state. *)
Lemma reachable_turns (R : Room → Prop) :
  (∀ c socket, R (fresh_room c socket)) →
  (∀ now sc c i room room' sc',
     R room → turn questions now sc c i room room' sc' → R room') →
  ∀ s, reachable questions s →
  ∀ c room, rooms s !! c = Some room → R room.
Proof.
  intros Hfresh Hturn s [tr Hrun].
  eapply (run_preserves questions
            (λ s, ∀ c room, rooms s !! c = Some room → R room));
    [| |exact Hrun].
  - intros now i s0 s1 out ack HP Hs c room.
    destruct (step_turn questions _ _ _ _ _ _ Hs)
      as (_ & _ & [[Hr _]|[(socket & c' & _ & _ & Hr & _)
                          |(c' & r & r' & sc' & Hr0 & Hr & _ & Ht)]]);
      rewrite Hr.
    + apply HP.
    + rewrite lookup_insert. case_decide; [|apply HP].
      intros [= <-]. apply Hfresh.
    + rewrite lookup_insert. case_decide; [|apply HP].
      intros [= <-]. eauto.
  - intros c room. unfold init. simpl. by rewrite lookup_empty.
Qed.

(** *** What the operations keep of the players *)

Lemma fmap_alter_same {A B} (g : A → B) (f : A → A) i (l : list A) :
  (∀ x, g (f x) = g x) → g <$> alter f i l = g <$> l.
Proof.
  intros Hg. rewrite (list_fmap_alter g f id).
  - by apply list_alter_id.
  - apply Forall_forall. intros x _. apply Hg.
Qed.

Lemma fmap_insert_same {A B} (g : A → B) i x y (l : list A) :
  l !! i = Some x → g y = g x → g <$> <[i := y]> l = g <$> l.
Proof.
  intros Hi Hg. rewrite list_fmap_insert. apply list_insert_id.
  by rewrite list_lookup_fmap, Hi, Hg.
Qed.

(** [applyPower] changes nothing of the players but scores and stun
    watermarks. *)
Lemma applyPower_keeps {B} (g : Player → B) rnd room type actor target :
  (∀ v p, g (set_score v p) = g p) →
  (∀ v p, g (set_stunnedUntil v p) = g p) →
  g <$> players (applyPower questions rnd room type actor target)
  = g <$> players room.
Proof.
  intros Hs Ht. unfold applyPower.
  destruct type; simpl; repeat case_match; simpl;
    rewrite ?fmap_alter_same by (intros; cbv beta; by rewrite ?Hs, ?Ht);
    done.
Qed.

Lemma finalizeQuestion_keeps {B} (g : Player → B) now rolls room sc :
  (∀ v p, g (set_powers v p) = g p) →
  g <$> players (finalizeQuestion questions now rolls room sc).1.1
  = g <$> players room.
Proof.
  intros Hg. rewrite finalizeQuestion_room. case_match; [|done]. simpl.
  rewrite fmap_imap, <- imap_const. apply imap_ext. intros i p _. simpl.
  unfold grantPower. repeat case_match; by rewrite ?Hg.
Qed.

Lemma startQuestion_players now room sc :
  players (startQuestion questions now room sc).1.1 = players room.
Proof. rewrite startQuestion_room. by case_match. Qed.

Lemma nextRound_players now room sc :
  players (nextRound questions now room sc).1.1 = players room.
Proof.
  rewrite nextRound_room. simpl. case_bool_decide; [done|].
  by rewrite startQuestion_players.
Qed.

(** In a turn the identities of the players of the room stay as they
    are, except that a join may add one player, with a new id and a
    free avatar, behind them. *)
Lemma turn_identities now sc c i room room' sc' :
  turn questions now sc c i room room' sc' →
  identity <$> players room' = identity <$> players room ∨
  ∃ p, identity <$> players room' = (identity <$> players room) ++ [identity p] ∧
       (∀ q, q ∈ players room → playerId q ≠ playerId p) ∧
       (∀ q, q ∈ players room → avatarId q ≠ avatarId p).
Proof.
  destruct 1 as [socket roomCode nm av pid room i p Hc Hfind
                | socket roomCode nm av pid room Hc Hfind Hav
                | room
                | pid a room i p q gained Htime Hfind Hstun Hfresh Hq Hg
                | rnd pid tid powerIndex k room actor a power Hfind Hk Hu
                | id rolls j t room Hfind Hdue Hc Hcb
                | id rolls j t room Hfind Hdue Hc Hcb].
  - left. simpl. apply finds_lookup in Hfind as [Hi _].
    by apply (fmap_insert_same identity _ p).
  - right. eexists. split; [simpl; by rewrite fmap_app|]. simpl. split; [|done].
    apply list_find_None in Hfind. rewrite Forall_forall in Hfind. done.
  - left. rewrite startQuestion_players. simpl.
    rewrite <- list_fmap_compose. by apply list_fmap_ext.
  - left. simpl. apply finds_lookup in Hfind as [Hi _].
    by apply (fmap_insert_same identity _ p).
  - left. simpl. rewrite fmap_alter_same by done.
    by apply applyPower_keeps.
  - left. by apply finalizeQuestion_keeps.
  - left. by rewrite nextRound_players.
Qed.

(** X4.  In every reachable state the players of a room have pairwise
    distinct ids and pairwise distinct avatars. *)
Theorem players_are_distinct s c room :
  reachable questions s → rooms s !! c = Some room →
  NoDup (playerId <$> players room) ∧ NoDup (avatarId <$> players room).
Proof.
  intros Hreach Hroom.
  cut (NoDup ((λ x, x.1.1) <$> (identity <$> players room)) ∧
       NoDup ((λ x, x.2) <$> (identity <$> players room))).
  { by rewrite <- !list_fmap_compose. }
  revert c room Hroom.
  apply (reachable_turns
           (λ room, NoDup ((λ x, x.1.1) <$> (identity <$> players room)) ∧
                    NoDup ((λ x, x.2) <$> (identity <$> players room))));
    [| |done].
  - intros c socket. simpl. split; constructor.
  - intros now sc c i room room' sc' [Hid Hav] Hturn.
    destruct (turn_identities _ _ _ _ _ _ _ Hturn)
      as [->|(p & -> & Hpid & Hpav)]; [done|].
    rewrite !fmap_app. simpl. split; apply NoDup_app; split_and!; try done.
    + intros x Hx ->%list_elem_of_singleton.
      rewrite <- list_fmap_compose in Hx.
      apply list_elem_of_fmap in Hx as (q & Hq & Hin). simpl in Hq.
      by apply (Hpid q).
    + apply NoDup_singleton.
    + intros x Hx ->%list_elem_of_singleton.
      rewrite <- list_fmap_compose in Hx.
      apply list_elem_of_fmap in Hx as (q & Hq & Hin). simpl in Hq.
      by apply (Hpav q).
    + apply NoDup_singleton.
Qed.

(** X5.  Players are never removed, reordered or renamed: after any turn
    the identities (id, name, avatar) of the players of a room are those
    before the turn, in the same order, possibly followed by one new
    player. *)
Theorem players_append_only now i s s' out ack c room :
  step questions now i s = Some (Done s' out ack) →
  rooms s !! c = Some room →
  ∃ room', rooms s' !! c = Some room' ∧
    (identity <$> players room) `prefix_of` (identity <$> players room').
Proof.
  intros Hs Hroom.
  destruct (step_turn questions _ _ _ _ _ _ Hs)
    as (_ & _ & [[Hr _]|[(socket & c' & _ & Hnew & Hr & _)
                        |(c' & r & r' & sc' & Hr0 & Hr & _ & Ht)]]);
    rewrite Hr.
  - by exists room.
  - rewrite lookup_insert_ne by congruence. by exists room.
  - rewrite lookup_insert. case_decide as Hc; [|by exists room].
    subst c'. rewrite Hroom in Hr0. injection Hr0 as <-.
    exists r'. split; [done|].
    destruct (turn_identities _ _ _ _ _ _ _ Ht) as [->|(p & -> & _)];
      [done | by apply prefix_app_r].
Qed.

End RoomInvariants.

(** ** The effects of the powers *)

Section PowerEffects.

Variable questions : list Question.

Lemma fmap_alter_insert {A B} (g : A → B) (f : A → A) i x (l : list A) :
  l !! i = Some x → g <$> alter f i l = <[i := g (f x)]> (g <$> l).
Proof.
  intros Hi. apply list_eq. intros j. rewrite list_lookup_fmap.
  destruct (decide (i = j)) as [->|Hne].
  - rewrite list_lookup_alter_eq, Hi, list_lookup_insert_eq; [done|].
    rewrite length_fmap. by eapply lookup_lt_Some.
  - by rewrite list_lookup_alter_ne, list_lookup_insert_ne, list_lookup_fmap.
Qed.

Lemma cons_insert_perm {A} (l : list A) j x y :
  l !! j = Some y → y :: <[j := x]> l ≡ₚ x :: l.
Proof.
  revert j. induction l as [|b l IH]; intros j Hj; [done|].
  destruct j as [|j]; simpl in *; simplify_eq; [apply Permutation_swap|].
  rewrite (Permutation_swap b y), (IH j Hj). apply Permutation_swap.
Qed.

(** Writing [y] where [x] was and [x] where [y] was exchanges two
    entries. *)
Lemma insert_insert_perm {A} (l : list A) i j x y :
  l !! i = Some x → l !! j = Some y →
  <[j := x]> (<[i := y]> l) ≡ₚ l.
Proof.
  revert i j. induction l as [|a l IH]; intros i j Hi Hj; [done|].
  destruct i as [|i], j as [|j]; simpl in *; simplify_eq.
  - done.
  - by apply cons_insert_perm.
  - by apply cons_insert_perm.
  - by rewrite IH.
Qed.

Lemma head_sorted_lookup (cmp : nat * Player → nat * Player → Z)
    (ps : list Player) i p :
  head (js_sort cmp (imap pair ps)) = Some (i, p) → ps !! i = Some p.
Proof.
  intros Hin%head_Some_elem_of. rewrite js_sort_perm in Hin.
  apply list_elem_of_lookup in Hin as [j Hj].
  rewrite list_lookup_imap in Hj.
  destruct (ps !! j) eqn:Hp; simplify_eq/=. done.
Qed.

Lemma head_filter_first {A} (P : A → Prop) `{!∀ x, Decision (P x)}
    (l : list A) x :
  head (filter P l) = Some x →
  ∃ k, l !! k = Some x ∧ ∀ k' y, k' < k → l !! k' = Some y → ¬ P y.
Proof.
  induction l as [|a l IH]; [done|].
  rewrite filter_cons. case_decide as Ha.
  - intros [= ->]. exists 0. split; [done|]. intros; lia.
  - intros (k & Hk & Hfirst)%IH. exists (S k). split; [done|].
    intros [|k'] y Hlt Hy; simplify_eq/=; [done|].
    apply (Hfirst k' y); [lia | done].
Qed.

(** The player [sort(...)[0]] selects: one with the largest key, and the
    first of those in join order. *)
Lemma head_sorted_first (key : Player → Z)
    (cmp : nat * Player → nat * Player → Z) (ps : list Player) i p :
  (∀ a b, cmp a b = (key b.2 - key a.2)%Z) →
  head (js_sort cmp (imap pair ps)) = Some (i, p) →
  ps !! i = Some p ∧
  (∀ q, q ∈ ps → (key q ≤ key p)%Z) ∧
  (∀ j q, j < i → ps !! j = Some q → (key q < key p)%Z).
Proof.
  intros Hcmp Hhead.
  pose proof (head_sorted_lookup _ _ _ _ Hhead) as Hi.
  assert (Hmax : ∀ q, q ∈ ps → (key q ≤ key p)%Z).
  { intros q [j Hj]%list_elem_of_lookup.
    assert (Hin : (j, q) ∈ js_sort cmp (imap pair ps)).
    { rewrite js_sort_perm. apply list_elem_of_lookup. exists j.
      by rewrite list_lookup_imap, Hj. }
    pose proof (js_sort_sorted (λ x, key x.2) cmp Hcmp (imap pair ps)) as Hs.
    destruct (js_sort cmp (imap pair ps)) as [|x l]; simplify_eq/=.
    apply StronglySorted_cons in Hs as [Hall _].
    apply elem_of_cons in Hin as [[= -> ->]|Hin]; [done|].
    rewrite Forall_forall in Hall. apply (Hall _ Hin). }
  split_and!; [done..|].
  intros j q Hlt Hj.
  pose proof (js_sort_stable (λ x, key x.2) cmp Hcmp (key p) (imap pair ps))
    as Hst.
  assert (Hf : head (filter (λ x : nat * Player, key x.2 = key p)
                       (imap pair ps)) = Some (i, p)).
  { rewrite <- Hst.
    destruct (js_sort cmp (imap pair ps)) as [|x l]; simplify_eq/=.
    by rewrite filter_cons_True. }
  apply head_filter_first in Hf as (k & Hk & Hfirst).
  rewrite list_lookup_imap in Hk.
  destruct (ps !! k) eqn:Hpk; simplify_eq/=.
  assert (key q ≠ key p).
  { apply (Hfirst j (j, q) Hlt). by rewrite list_lookup_imap, Hj. }
  assert (key q ≤ key p)%Z by eauto using list_elem_of_lookup_2. lia.
Qed.

(** X6.  A power changes nothing but scores and stun watermarks: the
    room's phase, question index, deadline and timer handle stay, and
    so do every player's id, connection, name, avatar, answers and
    powers; only STUN touches a watermark and STUN touches no score. *)
Theorem applyPower_changes_scores_only rnd room type actor target :
  same_but_players room (applyPower questions rnd room type actor target) ∧
  Forall2 same_but_score_stun (players room)
    (players (applyPower questions rnd room type actor target)) ∧
  (type ≠ STUN →
   stunnedUntil <$> players (applyPower questions rnd room type actor target)
   = stunnedUntil <$> players room) ∧
  (type = STUN →
   score <$> players (applyPower questions rnd room type actor target)
   = score <$> players room).
Proof.
  split_and!.
  - apply applyPower_room.
  - assert (Hrefl : Forall2 same_but_score_stun (players room) (players room)).
    { apply Forall_Forall2_diag, Forall_forall. intros p _. by repeat split. }
    unfold applyPower. destruct type; simpl; repeat case_match; simpl;
      repeat (apply Forall2_alter_r;
              [|by intros x y _ _ (? & ? & ? & ? & ? & ?)]);
      exact Hrefl.
  - intros Hne. unfold applyPower.
    destruct type; try done; simpl; repeat case_match; simpl;
      by rewrite ?fmap_alter_same.
  - intros ->. simpl. by rewrite fmap_alter_same.
Qed.

(** X7.  PLUS adds to the actor's score, and MINUS takes from the
    target's score, an amount between 1000 and 6999, with JavaScript's
    arithmetic on numbers: as long as the result is finite, it is exact
    when its magnitude is at most [2^53], and beyond that it is a double
    at most half a spacing of the doubles away from the exact result.
    The target's score stops at 0; no other score changes. *)
Theorem plus_minus_effect rnd room actor target :
  (1000 ≤ power_delta rnd ≤ 6999)%Z ∧
  (∀ a, players room !! actor = Some a →
     rounds_finite (score a + power_delta rnd) →
     score <$> players (applyPower questions rnd room PLUS actor target)
     = <[actor := js_add (score a) (power_delta rnd)]>
         (score <$> players room) ∧
     ((Z.abs (score a + power_delta rnd) ≤ 2 ^ 53)%Z →
      js_add (score a) (power_delta rnd) = (score a + power_delta rnd)%Z) ∧
     ((2 ^ 53 ≤ Z.abs (score a + power_delta rnd))%Z →
      (2 * Z.abs (js_add (score a) (power_delta rnd)
                  - (score a + power_delta rnd))
       ≤ 2 ^ (Z.log2 (Z.abs (score a + power_delta rnd)) - 52))%Z)) ∧
  (∀ t, players room !! target = Some t →
     rounds_finite (score t - power_delta rnd) →
     score <$> players (applyPower questions rnd room MINUS actor target)
     = <[target := Z.max 0 (js_sub (score t) (power_delta rnd))]>
         (score <$> players room) ∧
     ((Z.abs (score t - power_delta rnd) ≤ 2 ^ 53)%Z →
      js_sub (score t) (power_delta rnd) = (score t - power_delta rnd)%Z) ∧
     ((2 ^ 53 ≤ Z.abs (score t - power_delta rnd))%Z →
      (2 * Z.abs (js_sub (score t) (power_delta rnd)
                  - (score t - power_delta rnd))
       ≤ 2 ^ (Z.log2 (Z.abs (score t - power_delta rnd)) - 52))%Z)).
Proof.
  assert (Hd : (1000 ≤ power_delta rnd ≤ 6999)%Z).
  { unfold power_delta. pose proof (Z.mod_pos_bound rnd 6000). lia. }
  split; [done|split].
  - intros a Ha _. split_and!.
    + simpl. by rewrite (fmap_alter_insert _ _ _ a).
    + apply js_add_exact.
    + intros Hbig. apply js_add_nearest; [lia|done].
  - intros t Ht _. split_and!.
    + simpl. by rewrite (fmap_alter_insert _ _ _ t).
    + apply js_sub_exact.
    + intros Hbig. unfold js_sub.
      replace (score t - power_delta rnd)%Z
        with (score t + - power_delta rnd)%Z in * by lia.
      apply js_add_nearest; [lia|done].
Qed.


(** X9.  SWAP_HIGH exchanges the actor's score with that of the highest
    scoring player, SWAP_LOW with that of the lowest scoring one; among
    players with that score the first in join order is taken.  The
    scores of the room are permuted, whoever the target is. *)
Theorem swap_effect rnd room actor target a :
  players room !! actor = Some a →
  (∃ hi h,
     players room !! hi = Some h ∧
     (∀ q, q ∈ players room → (score q ≤ score h)%Z) ∧
     (∀ j q, j < hi → players room !! j = Some q → (score q < score h)%Z) ∧
     score <$> players (applyPower questions rnd room SWAP_HIGH actor target)
     = <[hi := score a]> (<[actor := score h]> (score <$> players room))) ∧
  (∃ lo l,
     players room !! lo = Some l ∧
     (∀ q, q ∈ players room → (score l ≤ score q)%Z) ∧
     (∀ j q, j < lo → players room !! j = Some q → (score l < score q)%Z) ∧
     score <$> players (applyPower questions rnd room SWAP_LOW actor target)
     = <[lo := score a]> (<[actor := score l]> (score <$> players room))) ∧
  score <$> players (applyPower questions rnd room SWAP_HIGH actor target)
    ≡ₚ score <$> players room ∧
  score <$> players (applyPower questions rnd room SWAP_LOW actor target)
    ≡ₚ score <$> players room.
Proof.
  intros Ha.
  assert (Hlen : length (players room) ≠ 0).
  { apply lookup_lt_Some in Ha. lia. }
  assert (Hhigh : ∃ hi h,
     players room !! hi = Some h ∧
     (∀ q, q ∈ players room → (score q ≤ score h)%Z) ∧
     (∀ j q, j < hi → players room !! j = Some q → (score q < score h)%Z) ∧
     score <$> players (applyPower questions rnd room SWAP_HIGH actor target)
     = <[hi := score a]> (<[actor := score h]> (score <$> players room))).
  { simpl. rewrite bool_decide_eq_false_2 by done.
    destruct (head (js_sort (λ a b, score b.2 - score a.2)%Z
                      (imap pair (players room)))) as [[hi h]|] eqn:Hhead.
    - destruct (head_sorted_first score _ _ _ _ (λ _ _, eq_refl) Hhead)
        as (Hhi & Hmax & Hfirst).
      exists hi, h. split_and!; [done..|]. rewrite Ha. simpl.
      assert (Hhi' : alter (set_score (score h)) actor (players room) !! hi
                     = Some (if decide (actor = hi) then set_score (score h) h
                             else h)).
      { case_decide as Hc.
        - subst. rewrite list_lookup_alter_eq, Hhi. done.
        - by rewrite list_lookup_alter_ne. }
      rewrite (fmap_alter_insert _ _ _ _ _ Hhi').
      rewrite (fmap_alter_insert _ _ _ a) by done. by case_decide.
    - exfalso. destruct (players room) as [|p ps]; [done|].
      pose proof (js_sort_perm (λ a b : nat * Player, score b.2 - score a.2)%Z
                    (imap pair (p :: ps))) as Hp.
      destruct (js_sort _ (imap pair (p :: ps))); [|done].
      by apply Permutation_nil_l in Hp. }
  assert (Hlow : ∃ lo l,
     players room !! lo = Some l ∧
     (∀ q, q ∈ players room → (score l ≤ score q)%Z) ∧
     (∀ j q, j < lo → players room !! j = Some q → (score l < score q)%Z) ∧
     score <$> players (applyPower questions rnd room SWAP_LOW actor target)
     = <[lo := score a]> (<[actor := score l]> (score <$> players room))).
  { simpl. rewrite bool_decide_eq_false_2 by done.
    destruct (head (js_sort (λ a b, score a.2 - score b.2)%Z
                      (imap pair (players room)))) as [[lo l]|] eqn:Hhead.
    - assert (Hcmp : ∀ a b : nat * Player,
                (score a.2 - score b.2 = - score b.2 - - score a.2)%Z)
        by (intros; lia).
      destruct (head_sorted_first (λ p, - score p)%Z _ _ _ _ Hcmp Hhead)
        as (Hlo & Hmin & Hfirst).
      exists lo, l. split_and!; [done | | |].
      + intros q Hq. specialize (Hmin q Hq). simpl in Hmin. lia.
      + intros j q Hj Hq. specialize (Hfirst j q Hj Hq). simpl in Hfirst. lia.
      + rewrite Ha. simpl.
        assert (Hlo' : alter (set_score (score l)) actor (players room) !! lo
                       = Some (if decide (actor = lo)
                               then set_score (score l) l else l)).
        { case_decide as Hc.
          - subst. rewrite list_lookup_alter_eq, Hlo. done.
          - by rewrite list_lookup_alter_ne. }
        rewrite (fmap_alter_insert _ _ _ _ _ Hlo').
        rewrite (fmap_alter_insert _ _ _ a) by done. by case_decide.
    - exfalso. destruct (players room) as [|p ps]; [done|].
      pose proof (js_sort_perm (λ a b : nat * Player, score a.2 - score b.2)%Z
                    (imap pair (p :: ps))) as Hp.
      destruct (js_sort _ (imap pair (p :: ps))); [|done].
      by apply Permutation_nil_l in Hp. }
  split_and!; [done | done | |].
  - destruct Hhigh as (hi & h & Hhi & _ & _ & ->).
    apply insert_insert_perm; by rewrite list_lookup_fmap, ?Ha, ?Hhi.
  - destruct Hlow as (lo & l & Hlo & _ & _ & ->).
    apply insert_insert_perm; by rewrite list_lookup_fmap, ?Ha, ?Hlo.
Qed.

End PowerEffects.

(** ** Scores *)

Section Scores.

Variable questions : list Question.

Lemma array_get_nonneg tbl a v :
  (∀ x, x ∈ tbl → (0 ≤ x)%Z) → array_get tbl a = PNumber v → (0 ≤ v)%Z.
Proof.
  intros Htbl. destruct a as [|z|str]; simpl; [done|..].
  - destruct (0 <=? z)%Z; [|done].
    destruct (tbl !! Z.to_nat z) eqn:Hl; [|done]. intros [= <-].
    eauto using list_elem_of_lookup_2.
  - destruct (array_index_of str) as [n|].
    + destruct (tbl !! n) eqn:Hl; [|done]. intros [= <-].
      eauto using list_elem_of_lookup_2.
    + destruct (String.eqb str "length"); [intros [= <-]; lia|].
      by destruct (inherited str).
Qed.

Lemma getEffectiveScore_nonneg index q a g :
  nonneg_catalog questions →
  getQuestion questions index = Some q →
  getEffectiveScore (Some q) a = Points g → (0 ≤ g)%Z.
Proof.
  intros Hcat Hq. unfold getQuestion in Hq.
  destruct (questions !! index) as [q0|] eqn:Hl; [|done].
  injection Hq as <-. simpl.
  destruct (q_optionScores q0) as [tbl|] eqn:Htbl; [|intros [= <-]; lia].
  assert (Hnn : ∀ x, x ∈ tbl → (0 ≤ x)%Z).
  { intros x Hx. eapply Hcat; [|done..]. by eapply list_elem_of_lookup_2. }
  destruct (array_get tbl a) as [|v|] eqn:Hget; simpl.
  - case_match; intros [= <-]; lia.
  - apply (array_get_nonneg _ _ _ Hnn) in Hget.
    destruct (v =? 0)%Z; case_match; intros [= <-]; lia.
  - done.
Qed.

Lemma applyPower_nonneg rnd room type actor target :
  Forall (λ p, 0 ≤ score p)%Z (players room) →
  Forall (λ p, 0 ≤ score p)%Z
    (players (applyPower questions rnd room type actor target)).
Proof.
  intros Hnn.
  assert (Hsc : ∀ i p, players room !! i = Some p → (0 ≤ score p)%Z).
  { intros i p Hp. rewrite Forall_forall in Hnn.
    eauto using list_elem_of_lookup_2. }
  pose proof (Z.mod_pos_bound rnd 6000).
  unfold applyPower. destruct type; simpl; repeat case_match; simpl;
    try done;
    repeat (apply Forall_alter;
            [|intros x _ Hx; simpl in *; try lia;
              try (apply js_add_nonneg; lia)]);
    try done.
  all: match goal with
       | H : head _ = Some _ |- _ => apply head_sorted_lookup in H
       end; eauto.
Qed.

(** X10.  As long as scores are numbers, they are not negative.  A run
    of the model is a run of the server in which every submission that
    was accepted scored an integer, and no power was read under the
    name of an inherited array member: a submission whose [answerIndex]
    names such a member would make the score a string or [NaN], and
    [run] does not follow the server beyond it.  On every such run,
    when no option of the catalog has a negative score, no player of
    any room has a negative score. *)
Theorem scores_nonnegative tr s c room p :
  nonneg_catalog questions →
  run questions tr init = Some s →
  rooms s !! c = Some room → p ∈ players room →
  (0 ≤ score p)%Z.
Proof.
  intros Hcat Hrun Hroom.
  assert (Hreach : reachable questions s) by by exists tr.
  revert p. apply Forall_forall.
  revert c room Hroom.
  apply (reachable_turns questions
           (λ room, Forall (λ p, 0 ≤ score p)%Z (players room)));
    [| |done].
  - intros c socket. constructor.
  - intros now sc c i room room' sc' Hnn.
    destruct 1 as [socket roomCode nm av pid room i p Hc Hfind
                  | socket roomCode nm av pid room Hc Hfind Hav
                  | room
                  | pid a room i p q gained Htime Hfind Hstun Hfresh Hq Hg
                  | rnd pid tid powerIndex k room actor a power Hfind Hk Hu
                  | id rolls j t room Hfind Hdue Hc Hcb
                  | id rolls j t room Hfind Hdue Hc Hcb].
    + simpl. rewrite list_insert_alter. apply Forall_alter; [done|].
      intros x Hx _. apply finds_lookup in Hfind as [Hi _]. simpl.
      rewrite Forall_forall in Hnn. eauto using list_elem_of_lookup_2.
    + simpl. apply Forall_app. split; [done|]. by repeat constructor.
    + rewrite startQuestion_players. simpl. by apply Forall_fmap, Forall_forall.
    + simpl. rewrite list_insert_alter. apply Forall_alter; [done|].
      intros x Hx _. apply finds_lookup in Hfind as [Hi _]. simpl.
      pose proof (getEffectiveScore_nonneg _ _ _ _ Hcat Hq Hg).
      rewrite Forall_forall in Hnn.
      assert (0 ≤ score p)%Z by eauto using list_elem_of_lookup_2.
      by apply js_add_nonneg.
    + simpl. apply Forall_alter; [by apply applyPower_nonneg|]. done.
    + rewrite finalizeQuestion_room. case_match; [|done]. simpl.
      apply Forall_forall. intros x [n Hn]%list_elem_of_lookup.
      rewrite list_lookup_imap in Hn.
      destruct (players room !! n) as [y|] eqn:Hy; simplify_eq/=.
      rewrite Forall_forall in Hnn.
      assert (0 ≤ score y)%Z by eauto using list_elem_of_lookup_2.
      unfold grantPower. by repeat case_match.
    + by rewrite nextRound_players.
Qed.

End Scores.

(** ** The handlers, case by case *)

Section HandlerCases.

Variable questions : list Question.

(** The handler of [player:submitAnswer] acknowledges with a score only
    on the path where every check passed. *)
Lemma on_submitAnswer_accepted now c pid a s s' out g :
  on_submitAnswer questions now c pid a s = Done s' out (Some (AckGained g)) →
  ∃ room i p q,
    rooms s !! c = Some room ∧ in_time now room ∧ finds room pid i p ∧
    (stunnedUntil p ≤ Z.of_nat (currentQuestionIndex room))%Z ∧
    (∀ ans, ans ∈ answers p →
            a_questionIndex ans ≠ currentQuestionIndex room) ∧
    getQuestion questions (currentQuestionIndex room) = Some q ∧
    getEffectiveScore (Some q) a = Points g.
Proof.
  unfold on_submitAnswer.
  destruct (rooms s !! c) as [room|] eqn:Hroom; [|done].
  destruct (match questionEndsAt room with Some _ => _ | None => _ end)
    eqn:Hexp; [done|].
  destruct (list_find _ (players room)) as [[i p]|] eqn:Hfind; [|done].
  destruct (Z.ltb_spec (Z.of_nat (currentQuestionIndex room))
              (stunnedUntil p)); [done|].
  destruct (existsb _ (answers p)) eqn:Hans; [done|].
  destruct (getQuestion _ _) as [q|] eqn:Hq; [|done].
  destruct (getEffectiveScore (Some q) a) as [gained|] eqn:Hg; [|done].
  intros [= _ _ <-]. exists room, i, p, q.
  split_and!; try done; [by apply expired_false|].
  by apply existsb_not_answered.
Qed.

Lemma room_step_ended op room room' :
  room_step questions op room room' →
  (state room = Lobby → questionEndsAt room = None) ∧
  (state room = Ended → length questions ≤ currentQuestionIndex room) →
  (state room' = Lobby → questionEndsAt room' = None) ∧
  (state room' = Ended → length questions ≤ currentQuestionIndex room').
Proof.
  assert (Hnone : ∀ k, getQuestion questions k = None → length questions ≤ k).
  { intros k. unfold getQuestion.
    destruct (questions !! k) eqn:Hl; [done|]. intros _.
    by apply lookup_ge_None. }
  destruct 1 as [room socket i p Hi | room socket nm av pid | room now sc
                | room i p a gained Hi Hfresh | room rnd type actor target k
                | room now rolls sc | room now sc]; intros [HL HE];
    try done.
  - rewrite startQuestion_room. simpl.
    destruct (getQuestion questions 0) eqn:Hq; simpl; split; try done.
    intros _. by apply Hnone.
  - simpl.
    destruct (applyPower_room questions rnd room type actor target)
      as (_ & _ & -> & -> & -> & _). done.
  - rewrite finalizeQuestion_room. case_match; simpl; by split.
  - rewrite nextRound_room. simpl. case_bool_decide; simpl.
    + split; [done|]. intros _. lia.
    + rewrite startQuestion_room. simpl.
      destruct (getQuestion questions (currentQuestionIndex room + 1))
        eqn:Hq; simpl; split; try done.
      intros _. by apply Hnone.
Qed.

(** X11.  An answer is accepted only while the question is open: in a
    reachable state, a submission that is acknowledged with a score
    finds the room in the question phase, before or at its deadline. *)
Theorem answers_only_in_question_phase now c pid a s s' out g :
  reachable questions s →
  step questions now (PlayerSubmitAnswer c pid a) s
    = Some (Done s' out (Some (AckGained g))) →
  ∃ room, rooms s !! c = Some room ∧ state room = QuestionPhase ∧
          in_time now room.
Proof.
  intros Hreach. unfold step.
  destruct (Z.ltb_spec now (clock s)) as [|Hclock]; [done|].
  intros [= Hsub].
  apply on_submitAnswer_accepted in Hsub
    as (room & i & p & q & Hroom & Htime & _ & _ & _ & Hq & _).
  simpl in Hroom. exists room. split_and!; [done| |done].
  destruct (reachable_well_timed questions s Hreach) as (_ & _ & _ & _ & _ & _ & _ & W6).
  assert (Hinv : (state room = Lobby → questionEndsAt room = None) ∧
                 (state room = Ended →
                  length questions ≤ currentQuestionIndex room)).
  { eapply (reachable_rooms questions
              (λ room, (state room = Lobby → questionEndsAt room = None) ∧
                       (state room = Ended →
                        length questions ≤ currentQuestionIndex room)));
      [| |exact Hreach|exact Hroom].
    - intros c' socket. simpl. by split.
    - intros op r r' Hr Hstep. by eapply room_step_ended. }
  destruct Hinv as [HL HE]. destruct Htime as (e & He & _ & Hle).
  destruct (state room) eqn:Hst; [| done | |].
  - rewrite HL in He by done. done.
  - destruct (W6 c room Hroom Hst) as (_ & (e' & He' & Hpast) & _).
    rewrite He in He'. injection He' as <-. lia.
  - specialize (HE eq_refl). unfold getQuestion in Hq.
    rewrite lookup_ge_None_2 in Hq by done. done.
Qed.

(** X12.  A request that is answered with an error changes nothing and
    emits nothing. *)
Theorem errors_change_nothing s s' out e :
  (∀ socket roomCode nm av pid,
     on_join socket roomCode nm av pid s = Done s' out (Some (AckError e)) →
     s' = s ∧ out = []) ∧
  (∀ now c pid a,
     on_submitAnswer questions now c pid a s
       = Done s' out (Some (AckError e)) →
     s' = s ∧ out = []) ∧
  (∀ rnd c pid tid k,
     on_usePower questions rnd c pid tid k s
       = Done s' out (Some (AckError e)) →
     s' = s ∧ out = []).
Proof.
  split_and!.
  - intros socket roomCode nm av pid. unfold on_join.
    repeat case_match; by intros [= <- <-].
  - intros now c pid a. unfold on_submitAnswer.
    repeat case_match; by intros [= <- <-].
  - intros rnd c pid tid k. unfold on_usePower.
    repeat case_match; by intros [= <- <-].
Qed.

(** X13.  A power aimed at a player id that is not in the room is applied
    with the actor as its target: the outcome is the one of the same
    request aimed at the actor's own id.  In particular an unused MINUS
    aimed at an unknown id is accepted and takes the drawn amount from
    the actor's own score, which stops at 0 (the subtraction being
    JavaScript's, exact for a score between 0 and [2^53]). *)
Theorem unknown_target_is_actor rnd c pid tid k s room actor a :
  rooms s !! c = Some room →
  list_find (λ p, playerId p = tid) (players room) = None →
  finds room pid actor a →
  on_usePower questions rnd c pid (Some tid) k s
  = on_usePower questions rnd c pid (Some pid) k s ∧
  ∀ n, slot_of k = Some n →
    powers a !! n = Some {| p_type := MINUS; p_used := false |} →
    rounds_finite (score a - power_delta rnd) →
    ∃ s1 out room1,
      on_usePower questions rnd c pid (Some tid) k s
        = Done s1 out (Some AckOk) ∧
      rooms s1 !! c = Some room1 ∧
      score <$> players room1
      = <[actor := Z.max 0 (js_sub (score a) (power_delta rnd))]>
          (score <$> players room) ∧
      ((0 ≤ score a ≤ 2 ^ 53)%Z →
       js_sub (score a) (power_delta rnd) = (score a - power_delta rnd)%Z).
Proof.
  intros Hroom Hnone Hfind. split.
  { unfold on_usePower. unfold finds in Hfind. by rewrite Hroom, Hnone, Hfind. }
  intros n Hslot Hk _.
  destruct (on_usePower_slot questions rnd c pid (Some tid) k n s room
              actor a _ Hroom Hfind Hslot Hk eq_refl)
    as (room2 & out & Hroom2 & Hok & _).
  exists (commit c room2 (sched s) s), out, room2.
  split_and!; [done | apply commit_lookup | |].
  - rewrite Hroom2. unfold resolve_target. rewrite Hnone. simpl.
    rewrite fmap_alter_same by done.
    apply finds_lookup in Hfind as [Hi _].
    by rewrite (fmap_alter_insert _ _ _ a).
  - intros Hsafe. apply js_sub_exact.
    pose proof (Z.mod_pos_bound rnd 6000). unfold power_delta. lia.
Qed.

(** X14.  The accepted path of [player:submitAnswer].  When the room
    exists, the submission is in time, the player exists, is not
    stunned, has not answered the current question, and the question's
    score for the answer is the integer [g], the handler acknowledges
    [g], adds [g] to the player's score (as JavaScript adds numbers,
    the sum being finite: exactly, as long as it is at most [2^53] in
    magnitude), appends
    the answer to the player's answers, changes nothing else in the
    room and sends the room's snapshot.  Conversely an acknowledgement
    of [g] is only given when all these conditions hold. *)
Theorem submitAnswer_accepted_effect now c pid a s g :
  (∀ room i p q,
     rooms s !! c = Some room → in_time now room → finds room pid i p →
     (stunnedUntil p ≤ Z.of_nat (currentQuestionIndex room))%Z →
     (∀ ans, ans ∈ answers p →
             a_questionIndex ans ≠ currentQuestionIndex room) →
     getQuestion questions (currentQuestionIndex room) = Some q →
     getEffectiveScore (Some q) a = Points g →
     rounds_finite (score p + g) →
     ∃ room',
       on_submitAnswer questions now c pid a s
         = Done (commit c room' (sched s) s) (broadcastRoom room')
                (Some (AckGained g)) ∧
       same_but_players room room' ∧
       players room' =
         <[i := set_score (js_add (score p) g)
                  (set_answers
                     (answers p ++
                        [ {| a_questionIndex := currentQuestionIndex room;
                             a_answerIndex := a; a_gained := g |} ]) p)]>
           (players room) ∧
       ((Z.abs (score p + g) ≤ 2 ^ 53)%Z →
        js_add (score p) g = (score p + g)%Z)) ∧
  (∀ s' out,
     on_submitAnswer questions now c pid a s
       = Done s' out (Some (AckGained g)) →
     ∃ room i p q,
       rooms s !! c = Some room ∧ in_time now room ∧ finds room pid i p ∧
       (stunnedUntil p ≤ Z.of_nat (currentQuestionIndex room))%Z ∧
       (∀ ans, ans ∈ answers p →
               a_questionIndex ans ≠ currentQuestionIndex room) ∧
       getQuestion questions (currentQuestionIndex room) = Some q ∧
       getEffectiveScore (Some q) a = Points g).
Proof.
  split.
  - intros room i p q Hroom Htime Hfind Hstun Hfresh Hq Hg _.
    exists (set_players
              (<[i := set_score (js_add (score p) g)
                        (set_answers
                           (answers p ++
                              [ {| a_questionIndex := currentQuestionIndex room;
                                   a_answerIndex := a; a_gained := g |} ]) p)]>
                 (players room)) room).
    split_and!; [|done|done|apply js_add_exact].
    rewrite (on_submitAnswer_in_time _ _ _ _ _ _ _ _ _ Hroom Htime Hfind).
    cbv zeta.
    destruct (Z.ltb_spec (Z.of_nat (currentQuestionIndex room))
                (stunnedUntil p)); [lia|].
    by rewrite (proj2 (existsb_not_answered _ _) Hfresh), Hq, Hg.
  - intros s' out. apply on_submitAnswer_accepted.
Qed.

(** X15.  A join under a player id that is new to the room is rejected
    when another player holds the avatar; otherwise the player is
    appended behind the others with score 0, no stun, no answers and no
    powers, and nothing else in the room changes. *)
Theorem join_new_player socket roomCode nm av pid s room :
  rooms s !! toUpperCase roomCode = Some room →
  list_find (λ p, playerId p = pid) (players room) = None →
  ((∃ p, p ∈ players room ∧ avatarId p = av) →
   on_join socket roomCode nm av pid s
   = Done s [] (Some (AckError "Avatar already taken"))) ∧
  ((∀ p, p ∈ players room → avatarId p ≠ av) →
   ∃ room',
     on_join socket roomCode nm av pid s
     = Done (commit (toUpperCase roomCode) room' (sched s) s)
            (broadcastRoom room') (Some (AckJoined (code room) pid)) ∧
     same_but_players room room' ∧
     players room' =
       players room ++
         [ {| playerId := pid; socketId := socket; name := nm;
              avatarId := av; score := 0; stunnedUntil := -1;
              answers := []; powers := [] |} ]).
Proof.
  intros Hroom Hfind. unfold on_join. rewrite Hroom, Hfind. split.
  - intros (p & Hp & Hav).
    rewrite (proj2 (existsb_exists _ _)); [done|].
    exists p. split; [by apply list_elem_of_In | by apply bool_decide_eq_true].
  - intros Hfree.
    destruct (existsb _ (players room)) eqn:Hex.
    + apply existsb_exists in Hex as (p & Hp%list_elem_of_In & Hav).
      apply bool_decide_eq_true in Hav. by destruct (Hfree p Hp).
    + eexists. by split_and!.
Qed.

(** X16.  Every request handler that changes a room ends by sending the
    room's members a snapshot of the room as it is now stored; a
    request that emits nothing has changed no room. *)
Theorem requests_end_with_update now i s s' out ack :
  step questions now i s = Some (Done s' out ack) →
  (∀ id rolls, i ≠ TimerFires id rolls) →
  (out = [] ∧ rooms s' = rooms s) ∨
  ∃ c room', rooms s' !! c = Some room' ∧ ends_with_update out room'.
Proof.
  unfold step. destruct (now <? clock s)%Z; [done|].
  destruct i as [socket newCode | socket roomCode nm av pid | roomCode
                | roomCode pid a | rnd roomCode pid tid k | id rolls];
    cbn [rooms set_clock sched clock].
  - destruct (rooms s !! newCode); [done|]. intros [= <- <- <-] _. right.
    eexists newCode, _. split; [apply commit_lookup | done].
  - unfold on_join. cbn [rooms set_clock sched clock].
    repeat case_match; intros [= <- <- <-] _; try (by left);
      right; eexists _, _; (split; [apply commit_lookup | done]).
  - unfold on_startGame. cbn [rooms set_clock sched clock].
    destruct (rooms s !! roomCode) as [room|]; [|intros [= <- <- <-]; by left].
    destruct (startQuestion _ _ _ _) as [[room' sc'] out'].
    intros [= <- <- <-] _. right. eexists _, _.
    split; [apply commit_lookup|]. unfold ends_with_update, broadcastRoom.
    by rewrite last_snoc.
  - unfold on_submitAnswer. cbn [rooms set_clock sched clock].
    destruct (rooms s !! roomCode) as [room|]; [|intros [= <- <- <-]; by left].
    destruct (match questionEndsAt room with Some _ => _ | None => _ end);
      [intros [= <- <- <-]; by left|].
    destruct (list_find _ (players room)) as [[j p]|];
      [|intros [= <- <- <-]; by left].
    destruct (_ <? stunnedUntil p)%Z; [intros [= <- <- <-]; by left|].
    destruct (existsb _ (answers p)); [intros [= <- <- <-]; by left|].
    destruct (getQuestion _ _) as [q|]; [|intros [= <- <- <-]; by left].
    destruct (getEffectiveScore (Some q) a) as [gained|]; [|done].
    intros [= <- <- <-] _. right. eexists _, _.
    split; [apply commit_lookup | done].
  - unfold on_usePower. cbn [rooms set_clock sched clock].
    destruct (rooms s !! roomCode) as [room|] eqn:Hroom;
      [|intros [= <- <- <-]; by left].
    destruct (list_find _ (players room)) as [[actor a]|];
      [|intros [= <- <- <-]; by left].
    destruct (powers_get (powers a) k) as [|k' power|n|];
      [intros [= <- <- <-]; by left| | |done].
    + destruct (p_used power); intros [= <- <- <-] _; [by left|].
      right. eexists _, _. split; [apply commit_lookup | done].
    + destruct (n =? 0)%Z; intros [= <- <- <-] _; [by left|].
      right. by exists roomCode, room.
  - intros _ Hne. by destruct (Hne id rolls).
Qed.

End HandlerCases.

(** ** Rounds: what the callbacks and a (re)start do *)

Section Rounds.

Variable questions : list Question.

Lemma randomPower_final qIndex roll :
  randomPower questions qIndex roll = FINAL_X4 →
  (Z.of_nat qIndex =? Z.of_nat (length questions) - 1)%Z = true.
Proof.
  unfold randomPower.
  destruct (Z.of_nat qIndex =? Z.of_nat (length questions) - 1)%Z; [done|].
  simpl app.
  pose proof (Nat.mod_upper_bound roll 6 ltac:(lia)) as Hlt.
  change (length [PLUS; MINUS; SWAP_LOW; SWAP_HIGH; X2_SCORE; STUN]) with 6.
  destruct (roll mod 6) as [|[|[|[|[|[|n]]]]]]; simpl; try done. lia.
Qed.

Lemma getQuestion_isLast index q :
  getQuestion questions index = Some q →
  isLast q = (Z.of_nat index =? Z.of_nat (length questions) - 1)%Z.
Proof.
  unfold getQuestion. destruct (questions !! index); [|done].
  by intros [= <-].
Qed.

(** X17.  When the deadline callback runs on a room whose current
    question exists and whose players have at most one answer per
    question, the room shows results, and each player keeps its place
    and everything but its powers: a player that answered the current
    question with the best option gets exactly one new, unused power at
    the end of its powers, FINAL_X4 only on the last question; any other
    player is unchanged. *)
Theorem finalize_grants now rolls room sc q :
  getQuestion questions (currentQuestionIndex room) = Some q →
  (∀ p, p ∈ players room → NoDup (a_questionIndex <$> answers p)) →
  state (finalizeQuestion questions now rolls room sc).1.1 = Results ∧
  Forall2
    (λ p p',
       set_powers (powers p) p' = p ∧
       (answered_best (currentQuestionIndex room) (q_bestIndex (qv_q q)) p →
        ∃ t, powers p' = powers p ++ [ {| p_type := t; p_used := false |} ] ∧
             (t = FINAL_X4 → isLast q = true)) ∧
       (¬ answered_best (currentQuestionIndex room) (q_bestIndex (qv_q q)) p →
        p' = p))
    (players room)
    (players (finalizeQuestion questions now rolls room sc).1.1).
Proof.
  intros Hq Hnd. unfold finalizeQuestion.
  cbn [currentQuestionIndex set_timer]. rewrite Hq.
  destruct (setTimeout _ _ _ _ _) as [h sc'] eqn:Hset. simpl.
  split; [done|].
  apply Forall2_same_length_lookup. split; [by rewrite length_imap|].
  intros i p p' Hp. rewrite list_lookup_imap, Hp. intros [= <-].
  pose proof (Hnd p (list_elem_of_lookup_2 _ _ _ Hp)) as Hndp.
  unfold grantPower.
  destruct (list_find _ (answers p)) as [[j ans]|] eqn:Hfind.
  - apply list_find_Some in Hfind as (Hj & Hidx & _).
    assert (Hsame : ∀ ans', ans' ∈ answers p →
              a_questionIndex ans' = currentQuestionIndex room → ans' = ans).
    { intros ans' [j' Hj']%list_elem_of_lookup Hidx'.
      assert (j' = j) as ->; [|congruence].
      apply (NoDup_lookup _ _ _ (currentQuestionIndex room) Hndp);
        rewrite list_lookup_fmap; [rewrite Hj' | rewrite Hj]; simpl;
        congruence. }
    destruct (decide (a_answerIndex ans = q_bestIndex (qv_q q))) as [Hbest|Hbest].
    + split_and!; [by destruct p | |].
      * intros _. eexists. split; [reflexivity|].
        intros Hfinal%randomPower_final.
        by rewrite (getQuestion_isLast _ _ Hq).
      * intros []. exists ans.
        split_and!; [by eapply list_elem_of_lookup_2 | done | done].
    + split_and!; [by destruct p | | done].
      intros (ans' & Hin & Hidx' & Hb). by rewrite (Hsame ans' Hin Hidx') in Hb.
  - apply list_find_None in Hfind. rewrite Forall_forall in Hfind.
    split_and!; [by destruct p | | done].
    intros (ans' & Hin & Hidx' & _). by destruct (Hfind ans' Hin).
Qed.

(** X18.  [host:startGame] on a registered room sets the question index
    to 0 and resets every player (score 0, no stun, no answers, no
    powers) while keeping who they are and their order.  With an empty
    catalog the game ends at once; otherwise question 0 opens for 30
    seconds and the room holds the handle of a deadline callback due one
    second after the deadline. *)
Theorem startGame_resets now c s room :
  rooms s !! c = Some room →
  ∃ room' sc' out,
    on_startGame questions now c s = Done (commit c room' sc' s) out None ∧
    code room' = code room ∧ hostSocketId room' = hostSocketId room ∧
    currentQuestionIndex room' = 0 ∧
    Forall2
      (λ p p', identity p' = identity p ∧ socketId p' = socketId p ∧
               score p' = 0%Z ∧ stunnedUntil p' = (-1)%Z ∧
               answers p' = [] ∧ powers p' = [])
      (players room) (players room') ∧
    (questions = [] →
     state room' = Ended ∧ timer room' = None ∧
     out = (code room, GameEnded (leaderboard (players room')))
           :: broadcastRoom room') ∧
    (questions ≠ [] →
     state room' = QuestionPhase ∧
     questionEndsAt room' = Some (now + 30000)%Z ∧
     ∃ h, timer room' = Some h ∧
          {| t_id := h; t_room := code room; t_due := (now + 31000)%Z;
             t_cb := CbFinalize |} ∈ pending sc').
Proof.
  intros Hroom. unfold on_startGame. rewrite Hroom.
  set (room0 := set_players _ (set_currentQuestionIndex 0 room)).
  assert (Hps : Forall2
      (λ p p', identity p' = identity p ∧ socketId p' = socketId p ∧
               score p' = 0%Z ∧ stunnedUntil p' = (-1)%Z ∧
               answers p' = [] ∧ powers p' = [])
      (players room) (players room0)).
  { simpl. apply Forall2_fmap_r, Forall_Forall2_diag, Forall_forall.
    by intros p _. }
  destruct (startQuestion questions now room0 (sched s))
    as [[room' sc'] out] eqn:Hstart.
  exists room', sc', (out ++ broadcastRoom room').
  split; [done|].
  unfold startQuestion in Hstart.
  change (timer room0) with (timer room) in Hstart.
  destruct questions as [|q0 qs] eqn:Hqs.
  - assert (Hend : state room' = Ended ∧ timer room' = None ∧
                   code room' = code room ∧
                   hostSocketId room' = hostSocketId room ∧
                   currentQuestionIndex room' = 0 ∧
                   players room' = players room0 ∧
                   out = [(code room, GameEnded (leaderboard (players room')))]).
    { unfold endGame in Hstart.
      destruct (timer room) eqn:Ht; simpl in Hstart; rewrite ?Ht in Hstart;
        apply pair_equal_spec in Hstart as [[<- <-]%pair_equal_spec <-];
        by split_and!. }
    destruct Hend as (? & ? & ? & ? & ? & Hp & ->).
    rewrite Hp. split_and!; try done.
  - assert (Hopen : state room' = QuestionPhase ∧
                   questionEndsAt room' = Some (now + 30000)%Z ∧
                   code room' = code room ∧
                   hostSocketId room' = hostSocketId room ∧
                   currentQuestionIndex room' = 0 ∧
                   players room' = players room0 ∧
                   ∃ h, timer room' = Some h ∧
                     {| t_id := h; t_room := code room;
                        t_due := (now + 31000)%Z; t_cb := CbFinalize |}
                     ∈ pending sc').
    { destruct (timer room) eqn:Ht; simpl in Hstart; rewrite ?Ht in Hstart;
        apply pair_equal_spec in Hstart as [[<- <-]%pair_equal_spec <-];
        split_and!; try done;
        eexists; (split; [reflexivity|]); simpl;
        apply elem_of_app; right; apply list_elem_of_here. }
    destruct Hopen as (? & ? & ? & ? & ? & Hp & ?).
    rewrite Hp. split_and!; try done.
Qed.

End Rounds.

(** ** Room codes *)

Section RoomCodes.

Lemma code_char_upper m :
  m < 32 →
  upper_ascii (default Ascii.zero (code_chars !! m))
  = default Ascii.zero (code_chars !! m).
Proof.
  intros Hm. do 32 (destruct m as [|m]; [reflexivity|]). lia.
Qed.

Lemma code_char_alphabet m :
  m < 32 → default Ascii.zero (code_chars !! m) ∈ code_chars.
Proof.
  intros Hm.
  destruct (lookup_lt_is_Some_2 code_chars m Hm) as [a Ha].
  rewrite Ha. simpl. by eapply list_elem_of_lookup_2.
Qed.

Lemma randomRoomCode_upper rolls :
  toUpperCase (randomRoomCode rolls) = randomRoomCode rolls.
Proof.
  unfold randomRoomCode. change (length code_chars) with 32.
  cbn [seq fmap list_fmap String.string_of_list_ascii toUpperCase].
  by rewrite !code_char_upper by (apply Nat.mod_upper_bound; lia).
Qed.

Lemma freshCode_Some fuel n draws registry c :
  freshCode fuel n draws registry = Some c →
  registry !! c = None ∧
  ∃ k, k < fuel ∧ c = randomRoomCode (draws (n + k)) ∧
       ∀ j, j < k → is_Some (registry !! randomRoomCode (draws (n + j))).
Proof.
  revert n. induction fuel as [|fuel IH]; intros n; [done|]. simpl.
  destruct (registry !! randomRoomCode (draws n)) as [r|] eqn:Hn.
  - intros (Hc & k & Hk & -> & Hbefore)%IH. split; [done|].
    exists (S k). split_and!; [lia | f_equal; f_equal; lia |].
    intros [|j] Hj.
    + rewrite Nat.add_0_r, Hn. eauto.
    + replace (n + S j) with (S n + j) by lia. apply Hbefore. lia.
  - intros [= <-]. split; [done|]. exists 0.
    split_and!; [lia | by rewrite Nat.add_0_r | lia].
Qed.

Lemma freshCode_is_Some fuel n draws registry k :
  k < fuel → registry !! randomRoomCode (draws (n + k)) = None →
  is_Some (freshCode fuel n draws registry).
Proof.
  revert n k. induction fuel as [|fuel IH]; intros n k Hk Hfree; [lia|].
  simpl. destruct (registry !! randomRoomCode (draws n)) eqn:Hn; [|eauto].
  destruct k as [|k]; [rewrite Nat.add_0_r in Hfree; congruence|].
  apply (IH (S n) k); [lia|]. by replace (S n + k) with (n + S k) by lia.
Qed.

(** X19.  A generated room code has four characters, all from the
    alphabet without I, O, 0 and 1, and upper-casing leaves it as it is.
    The generator loop of [createRoom] settles on the first pass whose
    code is not registered: it ends as soon as there is such a pass, and
    the code it returns is free and all the earlier ones were taken. *)
Theorem room_codes_fresh fuel draws registry :
  (∀ rolls,
     String.length (randomRoomCode rolls) = 4 ∧
     Forall (λ a, a ∈ code_chars)
       (String.list_ascii_of_string (randomRoomCode rolls)) ∧
     toUpperCase (randomRoomCode rolls) = randomRoomCode rolls) ∧
  (∀ k, k < fuel → registry !! randomRoomCode (draws k) = None →
        is_Some (freshCode fuel 0 draws registry)) ∧
  (∀ c, freshCode fuel 0 draws registry = Some c →
        registry !! c = None ∧
        ∃ k, k < fuel ∧ c = randomRoomCode (draws k) ∧
             ∀ j, j < k → is_Some (registry !! randomRoomCode (draws j))).
Proof.
  split_and!.
  - intros rolls. split_and!; [done | | apply randomRoomCode_upper].
    unfold randomRoomCode. change (length code_chars) with 32.
    cbn [seq fmap list_fmap String.string_of_list_ascii
         String.list_ascii_of_string].
    repeat (apply Forall_cons_2;
            [apply code_char_alphabet, Nat.mod_upper_bound; lia|]).
    apply Forall_nil_2.
  - intros k. apply (freshCode_is_Some fuel 0).
  - intros c. apply (freshCode_Some fuel 0).
Qed.

(** X20.  Creating a room and joining it: when the generator settles on
    a code, [host:createRoom] registers under it an empty lobby owned by
    the host, acknowledges the code, leaves the other rooms and the
    timers alone, and a first [room:join] under the acknowledged code
    (which upper-casing leaves as it is) is accepted and makes the
    joiner the room's only player. *)
Theorem create_then_join fuel draws socket s o :
  host_createRoom fuel draws socket s = Some o →
  ∃ c s1 out,
    o = Done s1 out (Some (AckRoomCode c)) ∧
    rooms s !! c = None ∧
    rooms s1 = <[c := fresh_room c socket]> (rooms s) ∧
    sched s1 = sched s ∧
    ends_with_update out (fresh_room c socket) ∧
    ∀ sock nm av pid, ∃ room2,
      on_join sock c nm av pid s1
      = Done (commit c room2 (sched s1) s1) (broadcastRoom room2)
             (Some (AckJoined c pid)) ∧
      same_but_players (fresh_room c socket) room2 ∧
      players room2 =
        [ {| playerId := pid; socketId := sock; name := nm; avatarId := av;
             score := 0; stunnedUntil := -1; answers := []; powers := [] |} ].
Proof.
  unfold host_createRoom.
  destruct (freshCode fuel 0 draws (rooms s)) as [c|] eqn:Hc; [|done].
  intros [= <-].
  destruct (freshCode_Some _ _ _ _ _ Hc) as (Hfree & k & _ & Hk & _).
  assert (Hup : toUpperCase c = c) by (rewrite Hk; apply randomRoomCode_upper).
  exists c. eexists _, _. split; [reflexivity|].
  split_and!; [done | simpl; by rewrite insert_insert_eq | done | done |].
  intros sock nm av pid. unfold on_join. rewrite Hup. simpl.
  rewrite lookup_insert_eq. simpl. eexists. by split_and!.
Qed.

End RoomCodes.

(** * The further properties at concrete inputs *)

Lemma one_deadline_timer_witness :
  length (deadline_timers (after tr_started) "ABCD") ≤ 1 ∧
  ∀ t, t ∈ deadline_timers (after tr_started) "ABCD" →
    timer (room_after tr_started) = Some (t_id t) ∧
    state (room_after tr_started) = QuestionPhase ∧
    questionEndsAt (room_after tr_started) = Some (t_due t - 1000)%Z.
Proof.
  apply (one_deadline_timer demo_questions (after tr_started) "ABCD"
           (room_after tr_started)).
  - exists tr_started. by_eval.
  - by_eval.
Defined.

Lemma game_never_stalls_witness :
  (state (room_after tr_results) = QuestionPhase →
     ∃ t, deadline_timers (after tr_results) "ABCD" = [t] ∧
          timer (room_after tr_results) = Some (t_id t) ∧
          questionEndsAt (room_after tr_results) = Some (t_due t - 1000)%Z) ∧
  (state (room_after tr_results) = Results →
     round_timers (after tr_results) "ABCD" ≠ []).
Proof.
  apply (game_never_stalls demo_questions (after tr_results) "ABCD"
           (room_after tr_results)).
  - exists tr_results. by_eval.
  - by_eval.
Defined.

Lemma registry_keys_are_codes_witness :
  (∀ c room, rooms (after tr_results) !! c = Some room → code room = c) ∧
  (∀ t, t ∈ pending (sched (after tr_results)) →
        is_Some (rooms (after tr_results) !! t_room t)).
Proof.
  apply (registry_keys_are_codes demo_questions (after tr_results)).
  exists tr_results. by_eval.
Defined.

Lemma players_are_distinct_witness :
  NoDup (playerId <$> players (room_after tr_started)) ∧
  NoDup (avatarId <$> players (room_after tr_started)).
Proof.
  apply (players_are_distinct demo_questions (after tr_started) "ABCD").
  - exists tr_started. by_eval.
  - by_eval.
Defined.

Lemma players_append_only_witness :
  ∃ room',
    rooms (state_of (step_after tr_started 12
                       (RoomJoin "s3" "ABCD" "Cy" "C" "p3")))
      !! "ABCD"%string = Some room' ∧
    (identity <$> players (room_after tr_started))
      `prefix_of` (identity <$> players room').
Proof.
  apply (players_append_only demo_questions 12
           (RoomJoin "s3" "ABCD" "Cy" "C" "p3") (after tr_started)
           (state_of (step_after tr_started 12
                        (RoomJoin "s3" "ABCD" "Cy" "C" "p3")))
           (out_of (step_after tr_started 12
                      (RoomJoin "s3" "ABCD" "Cy" "C" "p3")))
           (ack_of (step_after tr_started 12
                      (RoomJoin "s3" "ABCD" "Cy" "C" "p3")))
           "ABCD" (room_after tr_started)); by_eval.
Defined.

Lemma plus_minus_effect_witness :
  score <$> players (applyPower demo_questions 250 (demo_room demo_players)
                       PLUS 0 1)
  = <[0 := (100 + power_delta 250)%Z]> (score <$> demo_players) ∧
  score <$> players (applyPower demo_questions 250 (demo_room demo_players)
                       MINUS 0 1)
  = <[1 := Z.max 0 (900 - power_delta 250)]> (score <$> demo_players) ∧
  score <$> players (applyPower demo_questions 1
                       (demo_room [demo_player "p1" "Ann" "A" (2 ^ 53)])
                       PLUS 0 0)
  = [ 9007199254741992%Z ] ∧
  (2 * Z.abs (js_add (2 ^ 53) (power_delta 1) - (2 ^ 53 + power_delta 1))
   ≤ 2 ^ (Z.log2 (Z.abs (2 ^ 53 + power_delta 1)) - 52))%Z.
Proof.
  destruct (plus_minus_effect demo_questions 250 (demo_room demo_players) 0 1)
    as (_ & Hplus & Hminus).
  destruct (plus_minus_effect demo_questions 1
              (demo_room [demo_player "p1" "Ann" "A" (2 ^ 53)]) 0 0)
    as (_ & Hbig & _).
  split_and!.
  - destruct (Hplus (demo_player "p1" "Ann" "A" 100) eq_refl ltac:(by_eval))
      as (Heq & Hexact & _).
    rewrite Heq, Hexact; [reflexivity | by_eval].
  - destruct (Hminus (demo_player "p2" "Bob" "B" 900) eq_refl
                ltac:(by_eval))
      as (Heq & Hexact & _).
    rewrite Heq, Hexact; [reflexivity | by_eval].
  - exact (proj1 (Hbig (demo_player "p1" "Ann" "A" (2 ^ 53)) eq_refl
                    ltac:(by_eval))).
  - apply (proj2 (proj2 (Hbig (demo_player "p1" "Ann" "A" (2 ^ 53)) eq_refl
                           ltac:(by_eval)))).
    by_eval.
Defined.


Lemma swap_effect_witness :
  score <$> players (applyPower demo_questions 0 (demo_room demo_players)
                       SWAP_HIGH 0 0)
    ≡ₚ score <$> demo_players ∧
  score <$> players (applyPower demo_questions 0 (demo_room demo_players)
                       SWAP_LOW 1 1)
    ≡ₚ score <$> demo_players.
Proof.
  split.
  - apply (swap_effect demo_questions 0 (demo_room demo_players) 0 0
             (demo_player "p1" "Ann" "A" 100) eq_refl).
  - apply (swap_effect demo_questions 0 (demo_room demo_players) 1 1
             (demo_player "p2" "Bob" "B" 900) eq_refl).
Defined.

Lemma scores_nonnegative_witness :
  (0 ≤ score (player_after tr_answered 0))%Z.
Proof.
  apply (scores_nonnegative demo_questions tr_answered (after tr_answered)
           "ABCD" (room_after tr_answered) (player_after tr_answered 0)).
  - intros q tbl v Hq Ht Hv. unfold demo_questions in Hq.
    repeat (apply elem_of_cons in Hq as [-> | Hq]);
      [| |by apply elem_of_nil in Hq];
      injection Ht as <-;
      repeat (apply elem_of_cons in Hv as [-> | Hv]);
      try lia; by apply elem_of_nil in Hv.
  - by_eval.
  - by_eval.
  - vm_compute. apply list_elem_of_here.
Defined.

Lemma answers_only_in_question_phase_witness :
  ∃ room, rooms (after tr_started) !! "ABCD"%string = Some room ∧
          state room = QuestionPhase ∧ in_time 20 room.
Proof.
  apply (answers_only_in_question_phase demo_questions 20 "ABCD" "p1" (JNum 1)
           (after tr_started)
           (state_of (step_after tr_started 20
                        (PlayerSubmitAnswer "ABCD" "p1" (JNum 1))))
           (out_of (step_after tr_started 20
                      (PlayerSubmitAnswer "ABCD" "p1" (JNum 1))))
           500%Z).
  - exists tr_started. by_eval.
  - by_eval.
Defined.

Lemma errors_change_nothing_witness :
  state_of (Some (on_submitAnswer demo_questions 30011 "ABCD" "p1" (JNum 1)
                    (after tr_started)))
  = after tr_started ∧
  out_of (Some (on_submitAnswer demo_questions 30011 "ABCD" "p1" (JNum 1)
                  (after tr_started)))
  = [].
Proof.
  apply (proj1 (proj2 (errors_change_nothing demo_questions (after tr_started)
                         (state_of (Some (on_submitAnswer demo_questions 30011
                                            "ABCD" "p1" (JNum 1)
                                            (after tr_started))))
                         (out_of (Some (on_submitAnswer demo_questions 30011
                                          "ABCD" "p1" (JNum 1)
                                          (after tr_started))))
                         "Time is up"))
           30011%Z "ABCD"%string "p1"%string (JNum 1)).
  by_eval.
Defined.

Lemma unknown_target_is_actor_witness :
  on_usePower demo_questions 250 "ABCD" "p1" (Some "nobody"%string) (JNum 0)
    (after tr_minus)
  = on_usePower demo_questions 250 "ABCD" "p1" (Some "p1"%string) (JNum 0)
      (after tr_minus) ∧
  ∃ s1 out room1,
    on_usePower demo_questions 250 "ABCD" "p1" (Some "nobody"%string)
      (JNum 0) (after tr_minus) = Done s1 out (Some AckOk) ∧
    rooms s1 !! "ABCD"%string = Some room1 ∧
    score <$> players room1
    = <[0 := Z.max 0 (js_sub (score (player_after tr_minus 0))
                        (power_delta 250))]>
        (score <$> players (room_after tr_minus)) ∧
    ((0 ≤ score (player_after tr_minus 0) ≤ 2 ^ 53)%Z →
     js_sub (score (player_after tr_minus 0)) (power_delta 250)
     = (score (player_after tr_minus 0) - power_delta 250)%Z).
Proof.
  destruct (unknown_target_is_actor demo_questions 250 "ABCD" "p1" "nobody"
              (JNum 0) (after tr_minus) (room_after tr_minus) 0
              (player_after tr_minus 0))
    as [Hsame Hminus]; [by_eval..|].
  split; [exact Hsame|]. apply (Hminus 0); by_eval.
Defined.

Lemma submitAnswer_accepted_effect_witness :
  ∃ room',
    on_submitAnswer demo_questions 20 "ABCD" "p1" (JNum 1) (after tr_started)
      = Done (commit "ABCD" room' (sched (after tr_started))
                (after tr_started))
             (broadcastRoom room') (Some (AckGained 500)) ∧
    same_but_players (room_after tr_started) room' ∧
    players room' =
      <[0 := set_score (js_add (score (player_after tr_started 0)) 500)
               (set_answers
                  (answers (player_after tr_started 0) ++
                     [ {| a_questionIndex :=
                            currentQuestionIndex (room_after tr_started);
                          a_answerIndex := JNum 1; a_gained := 500 |} ])
                  (player_after tr_started 0))]>
        (players (room_after tr_started)) ∧
    ((Z.abs (score (player_after tr_started 0) + 500) ≤ 2 ^ 53)%Z →
     js_add (score (player_after tr_started 0)) 500
     = (score (player_after tr_started 0) + 500)%Z).
Proof.
  apply (proj1 (submitAnswer_accepted_effect demo_questions 20 "ABCD" "p1"
                  (JNum 1) (after tr_started) 500)
           (room_after tr_started) 0 (player_after tr_started 0) demo_q0).
  - by_eval.
  - exists 30010%Z. split_and!; by_eval.
  - by_eval.
  - by_eval.
  - intros ans Hans. vm_compute in Hans. inversion Hans.
  - by_eval.
  - by_eval.
  - by_eval.
Defined.

Lemma join_new_player_witness :
  on_join "s3" "abcd" "Cy" "A" "p3" (after tr_started)
  = Done (after tr_started) [] (Some (AckError "Avatar already taken")) ∧
  ∃ room',
    on_join "s3" "abcd" "Cy" "C" "p3" (after tr_started)
    = Done (commit (toUpperCase "abcd") room' (sched (after tr_started))
              (after tr_started))
           (broadcastRoom room')
           (Some (AckJoined (code (room_after tr_started)) "p3")) ∧
    same_but_players (room_after tr_started) room' ∧
    players room' =
      players (room_after tr_started) ++
        [ {| playerId := "p3"; socketId := "s3"; name := "Cy";
             avatarId := "C"; score := 0; stunnedUntil := -1;
             answers := []; powers := [] |} ].
Proof.
  split.
  - apply (proj1 (join_new_player "s3" "abcd" "Cy" "A" "p3" (after tr_started)
                    (room_after tr_started) ltac:(by_eval) ltac:(by_eval))).
    exists (player_after tr_started 0).
    split; [vm_compute; apply list_elem_of_here | reflexivity].
  - apply (proj2 (join_new_player "s3" "abcd" "Cy" "C" "p3" (after tr_started)
                    (room_after tr_started) ltac:(by_eval) ltac:(by_eval))).
    intros p Hp. vm_compute in Hp.
    repeat (apply elem_of_cons in Hp as [-> | Hp]);
      [discriminate | discriminate | by apply elem_of_nil in Hp].
Defined.

Lemma requests_end_with_update_witness :
  (out_of (step_after tr_started 20
             (PlayerSubmitAnswer "ABCD" "p1" (JNum 1))) = [] ∧
   rooms (state_of (step_after tr_started 20
                      (PlayerSubmitAnswer "ABCD" "p1" (JNum 1))))
   = rooms (after tr_started)) ∨
  ∃ c room',
    rooms (state_of (step_after tr_started 20
                       (PlayerSubmitAnswer "ABCD" "p1" (JNum 1))))
      !! c = Some room' ∧
    ends_with_update
      (out_of (step_after tr_started 20
                 (PlayerSubmitAnswer "ABCD" "p1" (JNum 1)))) room'.
Proof.
  apply (requests_end_with_update demo_questions 20
           (PlayerSubmitAnswer "ABCD" "p1" (JNum 1)) (after tr_started)
           (state_of (step_after tr_started 20
                        (PlayerSubmitAnswer "ABCD" "p1" (JNum 1))))
           (out_of (step_after tr_started 20
                      (PlayerSubmitAnswer "ABCD" "p1" (JNum 1))))
           (ack_of (step_after tr_started 20
                      (PlayerSubmitAnswer "ABCD" "p1" (JNum 1))))).
  - by_eval.
  - discriminate.
Defined.

Lemma finalize_grants_witness :
  state (finalizeQuestion demo_questions 31010 (λ _, 5)
           (room_after tr_answered) (sched (after tr_answered))).1.1
  = Results ∧
  Forall2
    (λ p p',
       set_powers (powers p) p' = p ∧
       (answered_best (currentQuestionIndex (room_after tr_answered))
          (q_bestIndex (qv_q demo_q0)) p →
        ∃ t, powers p' = powers p ++ [ {| p_type := t; p_used := false |} ] ∧
             (t = FINAL_X4 → isLast demo_q0 = true)) ∧
       (¬ answered_best (currentQuestionIndex (room_after tr_answered))
            (q_bestIndex (qv_q demo_q0)) p →
        p' = p))
    (players (room_after tr_answered))
    (players (finalizeQuestion demo_questions 31010 (λ _, 5)
                (room_after tr_answered) (sched (after tr_answered))).1.1).
Proof.
  apply (finalize_grants demo_questions 31010 (λ _, 5)
           (room_after tr_answered) (sched (after tr_answered)) demo_q0).
  - by_eval.
  - intros p Hp. vm_compute in Hp.
    repeat (apply elem_of_cons in Hp as [-> | Hp]);
      [apply NoDup_singleton | apply NoDup_nil_2 | by apply elem_of_nil in Hp].
Defined.

Lemma startGame_resets_witness :
  ∃ room' sc' out,
    on_startGame demo_questions 32000 "ABCD" (after tr_results)
    = Done (commit "ABCD" room' sc' (after tr_results)) out None ∧
    code room' = code (room_after tr_results) ∧
    hostSocketId room' = hostSocketId (room_after tr_results) ∧
    currentQuestionIndex room' = 0 ∧
    Forall2
      (λ p p', identity p' = identity p ∧ socketId p' = socketId p ∧
               score p' = 0%Z ∧ stunnedUntil p' = (-1)%Z ∧
               answers p' = [] ∧ powers p' = [])
      (players (room_after tr_results)) (players room') ∧
    (demo_questions = [] →
     state room' = Ended ∧ timer room' = None ∧
     out = (code (room_after tr_results),
            GameEnded (leaderboard (players room')))
           :: broadcastRoom room') ∧
    (demo_questions ≠ [] →
     state room' = QuestionPhase ∧
     questionEndsAt room' = Some (32000 + 30000)%Z ∧
     ∃ h, timer room' = Some h ∧
          {| t_id := h; t_room := code (room_after tr_results);
             t_due := (32000 + 31000)%Z; t_cb := CbFinalize |} ∈ pending sc').
Proof.
  apply (startGame_resets demo_questions 32000 "ABCD" (after tr_results)
           (room_after tr_results)).
  by_eval.
Defined.

Lemma room_codes_fresh_witness :
  is_Some (freshCode 3 0 demo_draws (rooms (after tr_started))) ∧
  (rooms (after tr_started) !! "BCDE"%string = None ∧
   ∃ k, k < 3 ∧ "BCDE"%string = randomRoomCode (demo_draws k) ∧
        ∀ j, j < k →
          is_Some (rooms (after tr_started)
                     !! randomRoomCode (demo_draws j))).
Proof.
  destruct (room_codes_fresh 3 demo_draws (rooms (after tr_started)))
    as (_ & Hends & Hfree).
  split.
  - apply (Hends 1); by_eval.
  - apply Hfree. by_eval.
Defined.

Lemma create_then_join_witness :
  ∃ c s1 out,
    default Unmodelled (host_createRoom 3 demo_draws "h2" (after tr_started))
    = Done s1 out (Some (AckRoomCode c)) ∧
    rooms (after tr_started) !! c = None ∧
    rooms s1 = <[c := fresh_room c "h2"]> (rooms (after tr_started)) ∧
    sched s1 = sched (after tr_started) ∧
    ends_with_update out (fresh_room c "h2") ∧
    ∀ sock nm av pid, ∃ room2,
      on_join sock c nm av pid s1
      = Done (commit c room2 (sched s1) s1) (broadcastRoom room2)
             (Some (AckJoined c pid)) ∧
      same_but_players (fresh_room c "h2") room2 ∧
      players room2 =
        [ {| playerId := pid; socketId := sock; name := nm; avatarId := av;
             score := 0; stunnedUntil := -1; answers := []; powers := [] |} ].
Proof.
  apply (create_then_join 3 demo_draws "h2" (after tr_started)
           (default Unmodelled
              (host_createRoom 3 demo_draws "h2" (after tr_started)))).
  by_eval.
Defined.
